(** * RRunnerpdf: the size-targeting PDF compressor of [google_job.py]

    A shallow embedding of the three core functions of the job,
    [render_pages_to_images], [compose_images_to_target_size] and
    [iterative_compress_to_limit], and the properties their specification
    states about them; then of the code around them, [col_letter],
    [safe_filename], [extract_drive_file_id], [download_url_to_file], the
    sheet helpers and the row loop of [run], with what that code guarantees
    on its own.

    - Python integers are [Z].
    - Python floats are the rationals a binary64 number can hold; every float
      operation is the exact operation followed by [round_binary64]
      (round to nearest, ties to even, 53 bits, gradual underflow), and
      overflow is reported the way CPython reports it.
    - PyMuPDF and Pillow are collaborators: an image is the term of the
      Pillow calls that built it, rendering and encoding are section
      variables that may raise.  The encoder takes the image [save] is
      called on and the keyword arguments of the call; the pages of the
      document it writes are those Pillow's PDF writer is documented to
      write for them.
    - Statements run in a state and exception monad over a [World] that holds
      the live document handles and the lines printed by the search loop.
    - Python strings are [string]s of characters with code points below 256;
      [strip], [lower] and the regular expressions are written out for them.
    - The sheet, Drive, the network, the file system and standard output
      are one external state; the runner's requests to them, the lines it
      prints among them, are section variables that may raise, and every
      request made is recorded in order.  The loop over the chunks of a
      Drive download takes fuel, as the search loop does. *)

From Stdlib Require Import ZArith QArith Qround Qabs Qpower Qminmax Lqa Lia List
  Bool String Ascii DecimalString.
From Stdlib Require DecimalZ DecimalPos.
Import ListNotations.

Local Open Scope Z_scope.

(** ** Exceptions and results *)

Inductive exn : Type :=
| IndexError
| ZeroDivisionError
| OverflowError
| LibraryError (tag : nat).

Inductive result (A : Type) : Type :=
| Ok (a : A)
| Raise (e : exn).
Arguments Ok {A} a.
Arguments Raise {A} e.

Definition rbind {A B} (r : result A) (k : A -> result B) : result B :=
  match r with
  | Ok a => k a
  | Raise e => Raise e
  end.

Declare Scope result_scope.
Delimit Scope result_scope with result.
Notation "'let?' x ':=' r 'in' k" := (rbind r (fun x => k))
  (at level 10, x name, r at level 100, k at level 200) : result_scope.

(** ** Python floats *)

Module Float.
Local Open Scope Q_scope.

(** [round(x)] of Python 3 on a float, with no [ndigits]: the nearest integer,
    a tie going to the even one. *)
Definition round_half_even (x : Q) : Z :=
  let f := Qfloor x in
  match Qcompare (x - inject_Z f) (1 # 2) with
  | Lt => f
  | Gt => (f + 1)%Z
  | Eq => if Z.even f then f else (f + 1)%Z
  end.

(** floor (log2 x) of a positive rational. *)
Definition Qilog2 (x : Q) : Z :=
  let k := (Z.log2 (Qnum x) - Z.log2 (Zpos (Qden x)))%Z in
  if Qle_bool (2 ^ k) x then k else (k - 1)%Z.

(** The binary64 number nearest to a positive rational: a 53 bit significand
    times a power of two that is at least 2^-1074. *)
Definition round_pos (x : Q) : Q :=
  let e := Z.max (Qilog2 x - 52) (-1074) in
  inject_Z (round_half_even (x / 2 ^ e)) * 2 ^ e.

Definition round_binary64 (x : Q) : Q :=
  match Qcompare x 0 with
  | Eq => 0
  | Gt => round_pos x
  | Lt => - round_pos (- x)
  end.

(** A result that does not fit raises: [float(n)] and [n / m] raise
    OverflowError themselves; a product yields an infinity that the
    [round] applied to it in the same statement turns into OverflowError. *)
Definition to_float (x : Q) : result Q :=
  let y := round_binary64 x in
  if Qle_bool (2 ^ 1024) (Qabs y) then Raise OverflowError else Ok y.

(** [float(n)] *)
Definition of_int (n : Z) : result Q := to_float (inject_Z n).

(** [a / b] on two ints: the correctly rounded quotient. *)
Definition int_truediv (a b : Z) : result Q :=
  if (b =? 0)%Z then Raise ZeroDivisionError
  else to_float (inject_Z a / inject_Z b).

(** [n / y] for an int and a float.  The source divides by 72.0 only, and
    such a quotient is below its dividend and cannot overflow. *)
Definition int_div_float (n : Z) (y : Q) : result Q :=
  (let? x := of_int n in
   if Qeq_bool y 0 then Raise ZeroDivisionError else to_float (x / y))%result.

(** [n * y] for an int and a float. *)
Definition int_mul_float (n : Z) (y : Q) : result Q :=
  (let? x := of_int n in to_float (x * y))%result.

(** [min(a, b)]: the first argument unless the second is smaller. *)
Definition fmin (a b : Q) : Q := if Qle_bool a b then a else b.

(** 2^-53, the largest relative error of rounding to binary64. *)
Definition unit_roundoff : Q := 1 # 9007199254740992.

End Float.

(** ** Images and the world *)

(** A Pillow image is the term of the calls that produced it.  [Raster] is a
    page decoded by [Image.open(...).convert("RGB")]; [pixels] names its
    content. *)
Inductive Image : Type :=
| Raster (pixels : nat) (w h : Z)
| Resized (src : Image) (w h : Z)
| NewRGB (w h : Z) (color : Z * Z * Z)
| Pasted (canvas src : Image) (left top : Z).

(** [img.size] *)
Fixpoint size (img : Image) : Z * Z :=
  match img with
  | Raster _ w h => (w, h)
  | Resized _ w h => (w, h)
  | NewRGB w h _ => (w, h)
  | Pasted canvas _ _ _ => size canvas
  end.

Definition white : Z * Z * Z := (255, 255, 255).

Definition bytes := list Byte.byte.
Definition len (b : bytes) : Z := Z.of_nat (List.length b).

(** The keyword arguments of [Image.save]. *)
Record SaveOptions : Type := mkSaveOptions {
  save_all : bool;
  append_images : list Image;
  format : string;
  quality : Z;
  optimize : bool
}.

(** The frames [Image.save] is asked to write: the image it is called on
    and, with [save_all], the appended ones. *)
Definition frames (first : Image) (options : SaveOptions) : list Image :=
  first :: (if save_all options then append_images options else []).

(** One line printed by the search loop: [try dpi=.. q=.. -> .. bytes]. *)
Record Try : Type := mkTry { try_dpi : Z; try_quality : Z; try_size : Z }.

Record World : Type := mkWorld {
  live : list nat;        (* document handles that are open *)
  next_handle : nat;      (* the handle the next [fitz.open] returns *)
  printed : list Try      (* standard output, oldest line first *)
}.

(** Statements: a world in, a value or an exception and a world out. *)
Definition M (A : Type) : Type := World -> result A * World.

Definition ret {A} (a : A) : M A := fun w => (Ok a, w).

Definition bind {A B} (m : M A) (k : A -> M B) : M B :=
  fun w => match m w with
           | (Ok a, w') => k a w'
           | (Raise e, w') => (Raise e, w')
           end.

Definition lift {A} (r : result A) : M A := fun w => (r, w).

(** [try: body finally: cleanup]: the cleanup runs on both exits and the
    exit of the body is kept, unless the cleanup raises itself. *)
Definition try_finally {A} (body : M A) (cleanup : M unit) : M A :=
  fun w => let (r, w1) := body w in
           match cleanup w1 with
           | (Ok _, w2) => (r, w2)
           | (Raise e, w2) => (Raise e, w2)
           end.

Declare Scope io_scope.
Delimit Scope io_scope with io.
Notation "x <- m ;; k" := (bind m (fun x => k))
  (at level 61, m at next level, right associativity) : io_scope.
Notation "' pat <- m ;; k" := (bind m (fun x => match x with pat => k end))
  (at level 61, pat pattern, m at next level, right associativity) : io_scope.

(** Removes the first occurrence of a handle. *)
Fixpoint release (h : nat) (l : list nat) : list nat :=
  match l with
  | [] => []
  | x :: l' => if Nat.eqb x h then l' else x :: release h l'
  end.

(** ** Configuration: the module constants read from the environment *)

Record Config : Type := mkConfig {
  MAX_TARGET_BYTES : Z;
  TARGET_WIDTH_PT : Z;
  TARGET_HEIGHT_PT : Z;
  START_DPI : Z;
  MIN_DPI : Z;
  START_JPEG_QUALITY : Z;
  MIN_JPEG_QUALITY : Z;
  DPI_STEP : Z;
  QUALITY_STEP : Z
}.

(** The values used when the environment sets none. *)
Definition default_config : Config :=
  {| MAX_TARGET_BYTES := 1 * 1024 * 1024;
     TARGET_WIDTH_PT := 595; TARGET_HEIGHT_PT := 842;
     START_DPI := 150; MIN_DPI := 72;
     START_JPEG_QUALITY := 85; MIN_JPEG_QUALITY := 30;
     DPI_STEP := 10; QUALITY_STEP := 5 |}.

(** ** Python strings *)

Module Str.

Definition chr (n : Z) : ascii := ascii_of_N (Z.to_N n).
Definition ord (c : ascii) : Z := Z.of_N (N_of_ascii c).

(** [str(n)] for an int. *)
Definition of_int (n : Z) : string := NilZero.string_of_int (Z.to_int n).

(** [c.isspace()] for a code point below 256. *)
Definition isspace (c : ascii) : bool :=
  let n := ord c in
  ((9 <=? n) && (n <=? 13)) || ((28 <=? n) && (n <=? 32))
  || (n =? 133) || (n =? 160).

Fixpoint lstrip (s : string) : string :=
  match s with
  | EmptyString => EmptyString
  | String c r => if isspace c then lstrip r else s
  end.

Fixpoint rstrip (s : string) : string :=
  match s with
  | EmptyString => EmptyString
  | String c r =>
      match rstrip r with
      | EmptyString => if isspace c then EmptyString else String c EmptyString
      | r' => String c r'
      end
  end.

(** [s.strip()] *)
Definition strip (s : string) : string := rstrip (lstrip s).

(** [c.lower()] for a code point below 256. *)
Definition lower_char (c : ascii) : ascii :=
  let n := ord c in
  if ((65 <=? n) && (n <=? 90))
     || ((192 <=? n) && (n <=? 222) && negb (n =? 215))
  then chr (n + 32) else c.

Fixpoint lower (s : string) : string :=
  match s with
  | EmptyString => EmptyString
  | String c r => String (lower_char c) (lower r)
  end.

(** [s.endswith(suffix)] *)
Fixpoint endswith (s suffix : string) : bool :=
  if String.eqb s suffix then true
  else match s with
       | EmptyString => false
       | String _ r => endswith r suffix
       end.

(** [s] with [p] taken off its front, when it starts with [p]. *)
Fixpoint strip_prefix (p s : string) : option string :=
  match p with
  | EmptyString => Some s
  | String a p' =>
      match s with
      | String b s' => if Ascii.eqb a b then strip_prefix p' s' else None
      | EmptyString => None
      end
  end.

(** [needle in s] *)
Fixpoint contains (needle s : string) : bool :=
  match strip_prefix needle s with
  | Some _ => true
  | None => match s with
            | EmptyString => false
            | String _ r => contains needle r
            end
  end.

End Str.

(** ** Sheet columns, file names and Drive links *)

(** [while idx > 0:] of [col_letter], one unit of fuel for each turn. *)
Fixpoint col_letter_loop (fuel : nat) (idx : Z) (s : string) : option string :=
  match fuel with
  | O => None
  | S fuel' =>
      if 0 <? idx then
        let rem := (idx - 1) mod 26 in
        let idx := (idx - 1) / 26 in
        col_letter_loop fuel' idx (String (Str.chr (65 + rem)) s)
      else Some s
  end.

Definition col_letter (fuel : nat) (idx : Z) : option string :=
  col_letter_loop fuel idx EmptyString.

(** The characters [re.sub] replaces in a file name: backslash, slash, star,
    question mark, colon, double quote, less than, greater than and bar. *)
Definition forbidden (c : ascii) : bool :=
  existsb (Z.eqb (Str.ord c)) [92; 47; 42; 63; 58; 34; 60; 62; 124].

Fixpoint sub_forbidden (s : string) : string :=
  match s with
  | EmptyString => EmptyString
  | String c r => String (if forbidden c then "_"%char else c) (sub_forbidden r)
  end.

(** [safe_filename(s)] at the time [now = int(time.time())]. *)
Definition safe_filename (now : Z) (s : string) : string :=
  let s := Str.strip s in
  let s := match s with
           | EmptyString => ("pdf_" ++ Str.of_int now)%string
           | _ => s
           end in
  let s := sub_forbidden s in
  if Str.endswith (Str.lower s) ".pdf" then s else (s ++ ".pdf")%string.

(** [a-zA-Z0-9_-] *)
Definition is_id_char (c : ascii) : bool :=
  let n := Str.ord c in
  ((97 <=? n) && (n <=? 122)) || ((65 <=? n) && (n <=? 90))
  || ((48 <=? n) && (n <=? 57)) || (n =? 95) || (n =? 45).

(** The longest run of id characters at the front of a string. *)
Fixpoint id_run (s : string) : string :=
  match s with
  | EmptyString => EmptyString
  | String c r => if is_id_char c then String c (id_run r) else EmptyString
  end.

(** Group 1 of [marker([a-zA-Z0-9_-]{10,})] matched at the front of a string,
    given what is left of the string after the marker. *)
Definition group_at (after_marker : option string) : option string :=
  match after_marker with
  | Some r => let g := id_run r in
              if (10 <=? String.length g)%nat then Some g else None
  | None => None
  end.

(** [re.search]: the match at the leftmost position that has one. *)
Fixpoint re_search (marker : string -> option string) (url : string)
  : option string :=
  match group_at (marker url) with
  | Some g => Some g
  | None => match url with
            | EmptyString => None
            | String _ r => re_search marker r
            end
  end.

(** [/file/d/] *)
Definition marker_file_d (s : string) : option string :=
  Str.strip_prefix "/file/d/" s.

(** [[?&]id=] *)
Definition marker_query_id (s : string) : option string :=
  match s with
  | String c r =>
      if (Ascii.eqb c "?" || Ascii.eqb c "&")%bool
      then Str.strip_prefix "id=" r else None
  | EmptyString => None
  end.

(** [open\\?id=] as a raw string: open, an optional backslash, then id and
    an equals sign. *)
Definition marker_open_id (s : string) : option string :=
  match Str.strip_prefix "open" s with
  | Some (String c r as r0) =>
      if Ascii.eqb c (Str.chr 92) then Str.strip_prefix "id=" r
      else Str.strip_prefix "id=" r0
  | _ => None
  end.

Definition extract_drive_file_id (url : string) : option string :=
  match url with
  | EmptyString => None
  | _ =>
      match re_search marker_file_d url with
      | Some g => Some g
      | None =>
          match re_search marker_query_id url with
          | Some g => Some g
          | None => re_search marker_open_id url
          end
      end
  end.

Definition is_drive_share_url (url : string) : bool :=
  Str.contains "drive.google.com" url.

(** ** A small set of collaborators

    Documents are lists of page sizes in points; a page whose width is 0
    cannot be decoded; Pillow refuses sizes that are not positive; the
    encoder writes one byte for every 2^20 units of pixels times quality. *)

Module Sample.

Definition Document : Type := list (Z * Z).
Definition Page : Type := (nat * (Z * Z))%type.

Definition fitz_open (path : string) : result Document :=
  if String.eqb path "square.pdf" then Ok [(480, 480)]
  else if String.eqb path "letter.pdf" then Ok [(612, 792); (612, 792)]
  else if String.eqb path "damaged.pdf" then Ok [(480, 480); (0, 0); (480, 480)]
  else if String.eqb path "empty.pdf" then Ok []
  else Raise (LibraryError 0).

Definition page_count (doc : Document) : nat := List.length doc.

Definition load_page (doc : Document) (p : nat) : result Page :=
  match nth_error doc p with
  | Some s => Ok (p, s)
  | None => Raise IndexError
  end.

Definition get_image (page : Page) (zoom : Q) : result Image :=
  let '(p, (w, h)) := page in
  if w =? 0 then Raise (LibraryError 1)
  else Ok (Raster p (Float.round_half_even (inject_Z w * zoom))
                    (Float.round_half_even (inject_Z h * zoom))).

Definition pillow_raises (img : Image) : option exn :=
  match img with
  | Resized _ w h | NewRGB w h _ =>
      if (w <=? 0) || (h <=? 0) then Some (LibraryError 2) else None
  | _ => None
  end.

Definition area (img : Image) : Z := fst (size img) * snd (size img).

Definition save_pdf (first : Image) (options : SaveOptions) : result bytes :=
  let pixels :=
    fold_right (fun img a => area img + a) 0 (frames first options) in
  Ok (repeat Byte.x00 (Z.to_nat (pixels * quality options / 2 ^ 20))).

Definition world0 : World := {| live := []; next_handle := 0; printed := [] |}.

(** The defaults with a budget of 10 bytes, which no attempt of the sample
    encoder on [square.pdf] meets, and of 100 bytes, which some meet. *)
Definition tight_config : Config :=
  {| MAX_TARGET_BYTES := 10;
     TARGET_WIDTH_PT := 595; TARGET_HEIGHT_PT := 842;
     START_DPI := 150; MIN_DPI := 72;
     START_JPEG_QUALITY := 85; MIN_JPEG_QUALITY := 30;
     DPI_STEP := 10; QUALITY_STEP := 5 |}.

Definition loose_config : Config :=
  {| MAX_TARGET_BYTES := 100;
     TARGET_WIDTH_PT := 595; TARGET_HEIGHT_PT := 842;
     START_DPI := 150; MIN_DPI := 72;
     START_JPEG_QUALITY := 85; MIN_JPEG_QUALITY := 30;
     DPI_STEP := 10; QUALITY_STEP := 5 |}.

(** Start and minimum are the same pair, the budget is out of reach. *)
Definition floor_config : Config :=
  {| MAX_TARGET_BYTES := 10;
     TARGET_WIDTH_PT := 595; TARGET_HEIGHT_PT := 842;
     START_DPI := 72; MIN_DPI := 72;
     START_JPEG_QUALITY := 30; MIN_JPEG_QUALITY := 30;
     DPI_STEP := 10; QUALITY_STEP := 5 |}.

(** A world with two handles of other documents open. *)
Definition busy_world : World :=
  {| live := [4; 2]%nat; next_handle := 5; printed := [] |}.

(** A renderer that runs out of memory above a zoom of 9/4, which is 162
    dots per inch. *)
Definition limited_get_image (page : Page) (zoom : Q) : result Image :=
  if Qle_bool zoom (9 # 4) then get_image page zoom
  else Raise (LibraryError 3).

(** The defaults with a budget of 10 bytes and the resolution step -10. *)
Definition rising_config : Config :=
  {| MAX_TARGET_BYTES := 10;
     TARGET_WIDTH_PT := 595; TARGET_HEIGHT_PT := 842;
     START_DPI := 150; MIN_DPI := 72;
     START_JPEG_QUALITY := 85; MIN_JPEG_QUALITY := 30;
     DPI_STEP := -10; QUALITY_STEP := 5 |}.

(** Start and minimum are the same pair, the budget is out of reach and the
    quality step is 0. *)
Definition still_config : Config :=
  {| MAX_TARGET_BYTES := 10;
     TARGET_WIDTH_PT := 595; TARGET_HEIGHT_PT := 842;
     START_DPI := 72; MIN_DPI := 72;
     START_JPEG_QUALITY := 30; MIN_JPEG_QUALITY := 30;
     DPI_STEP := 10; QUALITY_STEP := 0 |}.

End Sample.

(** ** A writer whose documents can be read back

    The writer puts every frame on a page as the term of the frame: a tag
    byte, then the fields, numbers in unary.  The reader parses the pages
    back in order. *)

Module SampleWriter.

Definition put_nat (n : nat) : bytes := repeat Byte.x01 n ++ [Byte.x00].

Definition put_Z (z : Z) : bytes :=
  (if z <? 0 then Byte.x02 else Byte.x03) :: put_nat (Z.abs_nat z).

Fixpoint put_image (img : Image) : bytes :=
  match img with
  | Raster pixels w h => Byte.x10 :: put_nat pixels ++ put_Z w ++ put_Z h
  | Resized src w h => Byte.x11 :: put_image src ++ put_Z w ++ put_Z h
  | NewRGB w h (r, g, b) =>
      Byte.x12 :: put_Z w ++ put_Z h ++ put_Z r ++ put_Z g ++ put_Z b
  | Pasted canvas src x y =>
      Byte.x13 :: put_image canvas ++ put_image src ++ put_Z x ++ put_Z y
  end.

Definition put_pages (pages : list Image) : bytes :=
  flat_map put_image pages.

Definition save_pdf (first : Image) (options : SaveOptions) : result bytes :=
  Ok (put_pages (frames first options)).

Fixpoint get_nat (l : bytes) : option (nat * bytes) :=
  match l with
  | Byte.x00 :: r => Some (O, r)
  | Byte.x01 :: r =>
      match get_nat r with
      | Some (n, r') => Some (S n, r')
      | None => None
      end
  | _ => None
  end.

Definition get_Z (l : bytes) : option (Z * bytes) :=
  match l with
  | Byte.x02 :: r =>
      match get_nat r with
      | Some (n, r') => Some (- Z.of_nat n, r')
      | None => None
      end
  | Byte.x03 :: r =>
      match get_nat r with
      | Some (n, r') => Some (Z.of_nat n, r')
      | None => None
      end
  | _ => None
  end.

Definition then_get {A B C} (get : bytes -> option (A * bytes))
    (k : A -> bytes -> option (C * B)) (l : bytes) : option (C * B) :=
  match get l with
  | Some (a, r) => k a r
  | None => None
  end.

Fixpoint get_image (fuel : nat) (l : bytes) : option (Image * bytes) :=
  match fuel with
  | O => None
  | S fuel' =>
      match l with
      | Byte.x10 :: r =>
          then_get get_nat (fun pixels =>
          then_get get_Z (fun w =>
          then_get get_Z (fun h r' => Some (Raster pixels w h, r')))) r
      | Byte.x11 :: r =>
          then_get (get_image fuel') (fun src =>
          then_get get_Z (fun w =>
          then_get get_Z (fun h r' => Some (Resized src w h, r')))) r
      | Byte.x12 :: r =>
          then_get get_Z (fun w =>
          then_get get_Z (fun h =>
          then_get get_Z (fun red =>
          then_get get_Z (fun green =>
          then_get get_Z (fun blue r' =>
            Some (NewRGB w h (red, green, blue), r')))))) r
      | Byte.x13 :: r =>
          then_get (get_image fuel') (fun canvas =>
          then_get (get_image fuel') (fun src =>
          then_get get_Z (fun x =>
          then_get get_Z (fun y r' =>
            Some (Pasted canvas src x y, r'))))) r
      | _ => None
      end
  end.

Fixpoint get_pages (fuel : nat) (l : bytes) : list Image :=
  match fuel with
  | O => []
  | S fuel' =>
      match get_image (List.length l) l with
      | Some (img, r) => img :: get_pages fuel' r
      | None => []
      end
  end.

(** The pages of a document. *)
Definition pdf_pages (b : bytes) : list Image := get_pages (List.length b) b.

End SampleWriter.

(** ** The three functions *)

Section Core.

(** PyMuPDF: a parsed document, its page count, a page, and the decoded RGB
    image of a page under a zoom factor.  Pillow: its argument checks, and
    the multi-page PDF writer. *)
Variable Document Page : Type.
Variable fitz_open : string -> result Document.
Variable page_count : Document -> nat.
Variable load_page : Document -> nat -> result Page.
Variable get_image : Page -> Q -> result Image.
Variable pillow_raises : Image -> option exn.
Variable save_pdf : Image -> SaveOptions -> result bytes.

(** A Pillow call: the image it builds, or the exception it raises. *)
Definition pil (img : Image) : result Image :=
  match pillow_raises img with
  | Some e => Raise e
  | None => Ok img
  end.

(** [fitz.open(path)]: a new live handle when the file parses. *)
Definition fitz_open_io (path : string) : M (nat * Document) :=
  fun w => match fitz_open path with
           | Raise e => (Raise e, w)
           | Ok doc =>
               (Ok (next_handle w, doc),
                {| live := next_handle w :: live w;
                   next_handle := S (next_handle w);
                   printed := printed w |})
           end.

(** [doc.close()] *)
Definition doc_close (h : nat) : M unit :=
  fun w => (Ok tt, {| live := release h (live w);
                      next_handle := next_handle w;
                      printed := printed w |}).

(** The body of [for p in range(len(doc))]. *)
Fixpoint render_loop (doc : Document) (dpi : Z) (ps : list nat)
    (images : list Image) : result (list Image) :=
  match ps with
  | [] => Ok images
  | p :: ps' =>
      (let? page := load_page doc p in
       let? zoom := Float.int_div_float dpi 72 in
       let? img := get_image page zoom in
       render_loop doc dpi ps' (images ++ [img]))%result
  end.

Definition render_pages_to_images (input_pdf_path : string) (dpi : Z)
  : M (list Image) :=
  (' (h, doc) <- fitz_open_io input_pdf_path ;;
   try_finally (lift (render_loop doc dpi (seq 0 (page_count doc)) []))
               (doc_close h))%io.

(** [int(round(pt * dpi / 72.0))] *)
Definition target_px (pt dpi : Z) : result Z :=
  (let? x := Float.int_div_float (pt * dpi) 72 in
   Ok (Float.round_half_even x))%result.

(** The scaled size of an [iw] by [ih] image on a [target_w_px] by
    [target_h_px] canvas. *)
Definition scaled_size (target_w_px target_h_px iw ih : Z) : result (Z * Z) :=
  (let? rw := Float.int_truediv target_w_px iw in
   let? rh := Float.int_truediv target_h_px ih in
   let ratio := Float.fmin rw rh in
   let? fw := Float.int_mul_float iw ratio in
   let new_w := Float.round_half_even fw in
   let? fh := Float.int_mul_float ih ratio in
   let new_h := Float.round_half_even fh in
   Ok (new_w, new_h))%result.

(** One turn of [for img in images]. *)
Definition compose_page (target_w_px target_h_px : Z) (img : Image)
  : result Image :=
  (let '(iw, ih) := size img in
   let? new_size := scaled_size target_w_px target_h_px iw ih in
   let '(new_w, new_h) := new_size in
   let? resized := pil (Resized img new_w new_h) in
   let? canvas := pil (NewRGB target_w_px target_h_px white) in
   let left := (target_w_px - new_w) / 2 in
   let top := (target_h_px - new_h) / 2 in
   pil (Pasted canvas resized left top))%result.

Fixpoint compose_loop (target_w_px target_h_px : Z) (images pages : list Image)
  : result (list Image) :=
  match images with
  | [] => Ok pages
  | img :: images' =>
      (let? canvas := compose_page target_w_px target_h_px img in
       compose_loop target_w_px target_h_px images' (pages ++ [canvas]))%result
  end.

Definition compose_images_to_target_size (images : list Image)
    (target_w_pt target_h_pt dpi jpeg_quality : Z) : result bytes :=
  (let? target_w_px := target_px target_w_pt dpi in
   let? target_h_px := target_px target_h_pt dpi in
   let? pages := compose_loop target_w_px target_h_px images [] in
   match pages with
   | [] => Raise IndexError                      (* pages[0] *)
   | first :: rest =>
       save_pdf first {| save_all := true; append_images := rest;
                         format := "PDF"; quality := jpeg_quality;
                         optimize := true |}
   end)%result.

Variable cfg : Config.

Definition print_try (dpi quality sz : Z) (w : World) : World :=
  {| live := live w; next_handle := next_handle w;
     printed := printed w ++ [mkTry dpi quality sz] |}.

(** What [iterative_compress_to_limit] returns. *)
Definition Compressed : Type := (bytes * Z * Z * Z)%type.

(** [while True:] with the loop variables [dpi] and [quality]; every turn of
    the loop costs one unit of fuel, and [None] is a loop still running when
    the fuel is spent. *)
Fixpoint search_loop (fuel : nat) (input_pdf_path : string) (dpi quality : Z)
    (w : World) : option (result Compressed * World) :=
  match fuel with
  | O => None
  | S fuel' =>
      match (imgs <- render_pages_to_images input_pdf_path dpi ;;
             lift (compose_images_to_target_size imgs
                     (TARGET_WIDTH_PT cfg) (TARGET_HEIGHT_PT cfg)
                     dpi quality))%io w with
      | (Raise e, w1) => Some (Raise e, w1)
      | (Ok pdf_bytes, w1) =>
          let sz := len pdf_bytes in
          let w2 := print_try dpi quality sz w1 in
          if sz <=? MAX_TARGET_BYTES cfg then
            Some (Ok (pdf_bytes, sz, dpi, quality), w2)
          else if MIN_JPEG_QUALITY cfg <=? quality - QUALITY_STEP cfg then
            search_loop fuel' input_pdf_path dpi (quality - QUALITY_STEP cfg) w2
          else if MIN_DPI cfg <=? dpi - DPI_STEP cfg then
            search_loop fuel' input_pdf_path (dpi - DPI_STEP cfg)
                        (START_JPEG_QUALITY cfg) w2
          else
            Some (Ok (pdf_bytes, sz, dpi, quality), w2)   (* best effort *)
      end
  end.

Definition iterative_compress_to_limit (fuel : nat) (input_pdf_path : string)
  : World -> option (result Compressed * World) :=
  search_loop fuel input_pdf_path (START_DPI cfg) (START_JPEG_QUALITY cfg).

(** ** One attempt, and the order of the attempts *)

(** What [render_pages_to_images] returns or raises. *)
Definition rendered (input_pdf_path : string) (dpi : Z) : result (list Image) :=
  (let? doc := fitz_open input_pdf_path in
   render_loop doc dpi (seq 0 (page_count doc)) [])%result.

(** The bytes of one rasterize and compose attempt. *)
Definition attempt (input_pdf_path : string) (dpi quality : Z) : result bytes :=
  (let? imgs := rendered input_pdf_path dpi in
   compose_images_to_target_size imgs (TARGET_WIDTH_PT cfg)
     (TARGET_HEIGHT_PT cfg) dpi quality)%result.

(** The attempt at a pair meets the budget. *)
Definition fits (input_pdf_path : string) (p : Z * Z) : Prop :=
  exists b, attempt input_pdf_path (fst p) (snd p) = Ok b
            /\ len b <= MAX_TARGET_BYTES cfg.

Definition fitsb (input_pdf_path : string) (p : Z * Z) : bool :=
  match attempt input_pdf_path (fst p) (snd p) with
  | Ok b => len b <=? MAX_TARGET_BYTES cfg
  | Raise _ => false
  end.

(** How many times [step] can be taken off [v] without passing below [lo]. *)
Definition steps_left (v lo step : Z) : nat := Z.to_nat ((v - lo) / step).

(** The pairs of one resolution, from quality [q] down by [n] steps. *)
Fixpoint quality_row (d q : Z) (n : nat) : list (Z * Z) :=
  (d, q) :: match n with
            | O => []
            | S n' => quality_row d (q - QUALITY_STEP cfg) n'
            end.

Definition full_row (d : Z) : list (Z * Z) :=
  quality_row d (START_JPEG_QUALITY cfg)
    (steps_left (START_JPEG_QUALITY cfg) (MIN_JPEG_QUALITY cfg) (QUALITY_STEP cfg)).

(** The rows of resolution [d] and of the [m] resolutions below it. *)
Fixpoint grid_from (d : Z) (m : nat) : list (Z * Z) :=
  full_row d ++ match m with
                | O => []
                | S m' => grid_from (d - DPI_STEP cfg) m'
                end.

(** Every pair the search can reach, in the order it reaches them. *)
Definition descent_path : list (Z * Z) :=
  grid_from (START_DPI cfg) (steps_left (START_DPI cfg) (MIN_DPI cfg) (DPI_STEP cfg)).

(** The last pair of the descent. *)
Definition floor_pair : Z * Z :=
  (START_DPI cfg - (START_DPI cfg - MIN_DPI cfg) / DPI_STEP cfg * DPI_STEP cfg,
   START_JPEG_QUALITY cfg
   - (START_JPEG_QUALITY cfg - MIN_JPEG_QUALITY cfg) / QUALITY_STEP cfg
     * QUALITY_STEP cfg).

(** The search read off a list of pairs: the outcome, and the pairs that
    were attempted. *)
Fixpoint scan (input_pdf_path : string) (p : Z * Z) (rest : list (Z * Z))
  : result Compressed * list (Z * Z) :=
  match attempt input_pdf_path (fst p) (snd p) with
  | Raise e => (Raise e, [p])
  | Ok b =>
      if len b <=? MAX_TARGET_BYTES cfg then (Ok (b, len b, fst p, snd p), [p])
      else match rest with
           | [] => (Ok (b, len b, fst p, snd p), [p])
           | p' :: rest' =>
               let (r, v) := scan input_pdf_path p' rest' in (r, p :: v)
           end
  end.

(** The lines printed for a list of attempted pairs. *)
Definition lines (input_pdf_path : string) (v : list (Z * Z)) : list Try :=
  flat_map (fun p => match attempt input_pdf_path (fst p) (snd p) with
                     | Ok b => [mkTry (fst p) (snd p) (len b)]
                     | Raise _ => []
                     end) v.

(** The bound of the specification on the number of attempts:
    ceil ((start - min) / step + 1) for each parameter, multiplied. *)
Definition levels_bound (start lo step : Z) : Z :=
  Qceiling (inject_Z (start - lo) / inject_Z step + 1).

Definition attempts_bound : Z :=
  levels_bound (START_DPI cfg) (MIN_DPI cfg) (DPI_STEP cfg)
  * levels_bound (START_JPEG_QUALITY cfg) (MIN_JPEG_QUALITY cfg) (QUALITY_STEP cfg).

(** The world after one call of [render_pages_to_images]. *)
Definition after_render (input_pdf_path : string) (w : World) : World :=
  match fitz_open input_pdf_path with
  | Ok _ => {| live := live w; next_handle := S (next_handle w);
               printed := printed w |}
  | Raise _ => w
  end.

(** The pair the loop moves to after an attempt that is over budget. *)
Definition next_pair (p : Z * Z) : option (Z * Z) :=
  if MIN_JPEG_QUALITY cfg <=? snd p - QUALITY_STEP cfg
  then Some (fst p, snd p - QUALITY_STEP cfg)
  else if MIN_DPI cfg <=? fst p - DPI_STEP cfg
  then Some (fst p - DPI_STEP cfg, START_JPEG_QUALITY cfg)
  else None.

(** A list of pairs in which each pair is followed by its [next_pair] and
    the last one has none. *)
Fixpoint chained (p : Z * Z) (rest : list (Z * Z)) : Prop :=
  match rest with
  | [] => next_pair p = None
  | p' :: rest' => next_pair p = Some p' /\ chained p' rest'
  end.

(** The world after the attempts at the pairs [v]. *)
Definition world_after (input_pdf_path : string) (v : list (Z * Z)) (w : World)
  : World :=
  {| live := live w;
     next_handle := match fitz_open input_pdf_path with
                    | Ok _ => List.length v + next_handle w
                    | Raise _ => next_handle w
                    end;
     printed := printed w ++ lines input_pdf_path v |}.

(** The attempt at a pair returns bytes that are over the budget. *)
Definition over_budget (input_pdf_path : string) (p : Z * Z) : Prop :=
  exists b, attempt input_pdf_path (fst p) (snd p) = Ok b
            /\ MAX_TARGET_BYTES cfg < len b.

(** How a run ended, given the last pair attempted and the pairs of the
    path left after it. *)
Definition ended (input_pdf_path : string) (r : result Compressed)
    (last : Z * Z) (tl : list (Z * Z)) : Prop :=
  match r with
  | Raise e => attempt input_pdf_path (fst last) (snd last) = Raise e
  | Ok (b, sz, d, q) =>
      (d, q) = last /\ attempt input_pdf_path d q = Ok b /\ sz = len b
      /\ (sz <= MAX_TARGET_BYTES cfg \/ (MAX_TARGET_BYTES cfg < sz /\ tl = []))
  end.

(** A printed line is the line of the attempt at a pair. *)
Definition line_of (p : Z * Z) (t : Try) : Prop :=
  try_dpi t = fst p /\ try_quality t = snd p.

(** ** Facts about the search loop *)

Lemma release_head (h : nat) (l : list nat) : release h (h :: l) = l.
Proof. simpl. now rewrite Nat.eqb_refl. Qed.

Lemma render_run (path : string) (dpi : Z) (w : World) :
  render_pages_to_images path dpi w = (rendered path dpi, after_render path w).
Proof.
  unfold render_pages_to_images, rendered, after_render, bind, fitz_open_io,
    try_finally, lift, doc_close.
  destruct (fitz_open path) as [doc | e]; simpl; [ | reflexivity ].
  now rewrite Nat.eqb_refl.
Qed.

Lemma attempt_run (path : string) (dpi quality : Z) (w : World) :
  (imgs <- render_pages_to_images path dpi ;;
   lift (compose_images_to_target_size imgs (TARGET_WIDTH_PT cfg)
           (TARGET_HEIGHT_PT cfg) dpi quality))%io w
  = (attempt path dpi quality, after_render path w).
Proof.
  unfold bind at 1. rewrite render_run. unfold attempt, lift.
  destruct (rendered path dpi); reflexivity.
Qed.

(** One turn of the loop, in terms of [attempt] and [next_pair]. *)
Lemma search_loop_step (fuel : nat) (path : string) (d q : Z) (w : World) :
  search_loop (S fuel) path d q w =
  match attempt path d q with
  | Raise e => Some (Raise e, after_render path w)
  | Ok b =>
      let w2 := print_try d q (len b) (after_render path w) in
      if len b <=? MAX_TARGET_BYTES cfg then Some (Ok (b, len b, d, q), w2)
      else match next_pair (d, q) with
           | Some p' => search_loop fuel path (fst p') (snd p') w2
           | None => Some (Ok (b, len b, d, q), w2)
           end
  end.
Proof.
  cbn [search_loop]. rewrite attempt_run.
  destruct (attempt path d q) as [b | e]; [ | reflexivity ].
  cbv zeta. destruct (len b <=? MAX_TARGET_BYTES cfg); [ reflexivity | ].
  unfold next_pair; cbn [fst snd].
  destruct (MIN_JPEG_QUALITY cfg <=? q - QUALITY_STEP cfg); [ reflexivity | ].
  destruct (MIN_DPI cfg <=? d - DPI_STEP cfg); reflexivity.
Qed.

Lemma world_after_raise (path : string) (p : Z * Z) (w : World) (e : exn) :
  attempt path (fst p) (snd p) = Raise e ->
  world_after path [p] w = after_render path w.
Proof.
  intros Ha. unfold world_after, after_render, lines. cbn [flat_map].
  rewrite Ha. cbn [app]. rewrite app_nil_r.
  destruct (fitz_open path); destruct w; reflexivity.
Qed.

Lemma world_after_cons (path : string) (p : Z * Z) (v : list (Z * Z))
    (w : World) (b : bytes) :
  attempt path (fst p) (snd p) = Ok b ->
  world_after path (p :: v) w
  = world_after path v (print_try (fst p) (snd p) (len b) (after_render path w)).
Proof.
  intros Ha. unfold world_after, after_render, print_try, lines.
  cbn [flat_map]. rewrite Ha.
  unfold attempt, rendered in Ha.
  destruct (fitz_open path) eqn:Ho; [ | discriminate Ha ].
  cbn [live next_handle printed List.length].
  f_equal; [ lia | ]. now rewrite <- app_assoc.
Qed.

(** The loop along a chained list of pairs is [scan], and the fuel it needs
    is the number of pairs attempted. *)
Lemma search_loop_scan (path : string) (rest : list (Z * Z)) :
  forall (p : Z * Z) (fuel : nat) (w : World),
    chained p rest ->
    search_loop fuel path (fst p) (snd p) w =
    if (List.length (snd (scan path p rest)) <=? fuel)%nat
    then Some (fst (scan path p rest), world_after path (snd (scan path p rest)) w)
    else None.
Proof.
  induction rest as [ | p' rest' IH]; intros p fuel w Hc.
  - destruct fuel as [ | fuel].
    + cbn [search_loop scan].
      destruct (attempt path (fst p) (snd p)) as [b | e]; [ | reflexivity ].
      destruct (len b <=? MAX_TARGET_BYTES cfg); reflexivity.
    + rewrite search_loop_step. cbn [scan chained] in *.
      destruct p as [d q]; cbn [fst snd] in *. rewrite Hc.
      destruct (attempt path d q) as [b | e] eqn:Ha.
      * cbv zeta.
        destruct (len b <=? MAX_TARGET_BYTES cfg); cbn [fst snd List.length];
          rewrite (world_after_cons path (d, q) [] w b Ha);
          unfold world_after, lines; destruct (print_try _ _ _ _);
          cbn; rewrite app_nil_r;
          destruct (fitz_open path); reflexivity.
      * cbn [fst snd List.length].
        now rewrite (world_after_raise path (d, q) w e Ha).
  - destruct Hc as [Hn Hc]. specialize (IH p').
    destruct fuel as [ | fuel].
    + cbn [search_loop scan].
      destruct (attempt path (fst p) (snd p)) as [b | e]; [ | reflexivity ].
      destruct (len b <=? MAX_TARGET_BYTES cfg); [ reflexivity | ].
      destruct (scan path p' rest'); reflexivity.
    + rewrite search_loop_step. cbn [scan].
      destruct p as [d q]; cbn [fst snd] in *. rewrite Hn.
      destruct (attempt path d q) as [b | e] eqn:Ha.
      * cbv zeta.
        destruct (len b <=? MAX_TARGET_BYTES cfg).
        -- cbn [fst snd List.length].
           rewrite (world_after_cons path (d, q) [] w b Ha).
           unfold world_after, lines; destruct (print_try _ _ _ _);
             cbn; rewrite app_nil_r; destruct (fitz_open path); reflexivity.
        -- rewrite (IH fuel _ Hc).
           destruct (scan path p' rest') as [r v] eqn:Hs.
           cbn [fst snd List.length].
           rewrite (world_after_cons path (d, q) v w b Ha).
           reflexivity.
      * cbn [fst snd List.length].
        now rewrite (world_after_raise path (d, q) w e Ha).
Qed.

(** *** The descent path *)

Lemma steps_left_O (v lo step : Z) :
  0 < step -> steps_left v lo step = O -> (lo <=? v - step) = false.
Proof.
  unfold steps_left. intros Hs H. apply Z.leb_gt.
  destruct (Z_lt_le_dec (v - step) lo) as [Hlt | Hle]; [ exact Hlt | exfalso ].
  assert (1 <= (v - lo) / step) by (apply Z.div_le_lower_bound; lia).
  lia.
Qed.

Lemma steps_left_S (v lo step : Z) (n : nat) :
  0 < step -> steps_left v lo step = S n ->
  (lo <=? v - step) = true /\ steps_left (v - step) lo step = n.
Proof.
  unfold steps_left. intros Hs H.
  assert (Hq : 1 <= (v - lo) / step) by lia.
  assert (Hd : (v - step - lo) / step = (v - lo) / step - 1).
  { replace (v - step - lo) with (v - lo + (-1) * step) by ring.
    rewrite Z.div_add by lia. ring. }
  split; [ | rewrite Hd; lia ].
  apply Z.leb_le.
  destruct (Z_lt_le_dec (v - step) lo) as [Hlt | Hle]; [ exfalso | lia ].
  assert ((v - lo) / step < 1) by (apply Z.div_lt_upper_bound; lia).
  lia.
Qed.

Section PositiveSteps.

Hypothesis dpi_step_pos : 0 < DPI_STEP cfg.
Hypothesis quality_step_pos : 0 < QUALITY_STEP cfg.

(** A row followed by [tail] is chained when [tail] is where the loop goes
    after the last quality of the row. *)
Lemma quality_row_chained (d : Z) (tail : list (Z * Z)) :
  match tail with
  | [] => (MIN_DPI cfg <=? d - DPI_STEP cfg) = false
  | p' :: rest' =>
      (MIN_DPI cfg <=? d - DPI_STEP cfg) = true
      /\ p' = (d - DPI_STEP cfg, START_JPEG_QUALITY cfg) /\ chained p' rest'
  end ->
  forall (n : nat) (q : Z),
    steps_left q (MIN_JPEG_QUALITY cfg) (QUALITY_STEP cfg) = n ->
    exists rest, quality_row d q n ++ tail = (d, q) :: rest
                 /\ chained (d, q) rest.
Proof.
  intros Htail. induction n as [ | n IH]; intros q Hn.
  - exists tail. split; [ reflexivity | ].
    apply steps_left_O in Hn; [ | exact quality_step_pos ].
    destruct tail as [ | p' rest']; cbn [chained]; unfold next_pair;
      cbn [fst snd]; rewrite Hn.
    + now rewrite Htail.
    + destruct Htail as (Hd & -> & Hc). rewrite Hd. now split.
  - apply steps_left_S in Hn; [ | exact quality_step_pos ].
    destruct Hn as [Hq Hn]. destruct (IH _ Hn) as (rest & Hr & Hc).
    exists ((d, q - QUALITY_STEP cfg) :: rest). cbn [quality_row app].
    split; [ now rewrite Hr | ].
    cbn [chained]. split; [ | exact Hc ].
    unfold next_pair; cbn [fst snd]. now rewrite Hq.
Qed.

Lemma grid_from_chained (m : nat) :
  forall d : Z,
    steps_left d (MIN_DPI cfg) (DPI_STEP cfg) = m ->
    exists rest, grid_from d m = (d, START_JPEG_QUALITY cfg) :: rest
                 /\ chained (d, START_JPEG_QUALITY cfg) rest.
Proof.
  induction m as [ | m IH]; intros d Hm; cbn [grid_from]; unfold full_row.
  - apply quality_row_chained; [ | reflexivity ].
    now apply steps_left_O in Hm.
  - apply steps_left_S in Hm; [ | exact dpi_step_pos ].
    destruct Hm as [Hd Hm]. destruct (IH _ Hm) as (rest & Hr & Hc).
    apply quality_row_chained; [ | reflexivity ].
    rewrite Hr. now repeat split.
Qed.

Lemma descent_path_chained :
  exists rest,
    descent_path = (START_DPI cfg, START_JPEG_QUALITY cfg) :: rest
    /\ chained (START_DPI cfg, START_JPEG_QUALITY cfg) rest.
Proof. apply grid_from_chained. reflexivity. Qed.

End PositiveSteps.

Lemma quality_row_length (d q : Z) (n : nat) :
  List.length (quality_row d q n) = S n.
Proof.
  revert q. induction n as [ | n IH]; intros q; cbn [quality_row List.length].
  - reflexivity.
  - now rewrite IH.
Qed.

Lemma grid_from_length (d : Z) (m : nat) :
  List.length (grid_from d m)
  = (S m * S (steps_left (START_JPEG_QUALITY cfg) (MIN_JPEG_QUALITY cfg)
                (QUALITY_STEP cfg)))%nat.
Proof.
  revert d. induction m as [ | m IH]; intros d; cbn [grid_from];
    rewrite length_app; unfold full_row; rewrite quality_row_length.
  - cbn [List.length]. lia.
  - rewrite IH. lia.
Qed.

Lemma quality_row_last (d : Z) (n : nat) (q : Z) :
  exists l, quality_row d q n
            = l ++ [(d, q - Z.of_nat n * QUALITY_STEP cfg)].
Proof.
  revert q. induction n as [ | n IH]; intros q.
  - exists []. cbn [quality_row app Z.of_nat].
    now rewrite Z.mul_0_l, Z.sub_0_r.
  - destruct (IH (q - QUALITY_STEP cfg)) as [l Hl].
    exists ((d, q) :: l). cbn [quality_row app]. rewrite Hl.
    rewrite Nat2Z.inj_succ.
    replace (q - QUALITY_STEP cfg - Z.of_nat n * QUALITY_STEP cfg)
      with (q - Z.succ (Z.of_nat n) * QUALITY_STEP cfg) by ring.
    reflexivity.
Qed.

Lemma grid_from_last (m : nat) (d : Z) :
  exists l,
    grid_from d m
    = l ++ [(d - Z.of_nat m * DPI_STEP cfg,
             START_JPEG_QUALITY cfg
             - Z.of_nat (steps_left (START_JPEG_QUALITY cfg)
                           (MIN_JPEG_QUALITY cfg) (QUALITY_STEP cfg))
               * QUALITY_STEP cfg)].
Proof.
  revert d. induction m as [ | m IH]; intros d; cbn [grid_from].
  - rewrite app_nil_r. unfold full_row.
    destruct (quality_row_last d
                (steps_left (START_JPEG_QUALITY cfg) (MIN_JPEG_QUALITY cfg)
                   (QUALITY_STEP cfg)) (START_JPEG_QUALITY cfg)) as [l Hl].
    exists l. rewrite Hl. cbn [Z.of_nat]. now rewrite Z.mul_0_l, Z.sub_0_r.
  - destruct (IH (d - DPI_STEP cfg)) as [l Hl].
    exists (full_row d ++ l). rewrite Hl, <- app_assoc.
    rewrite Nat2Z.inj_succ.
    replace (d - DPI_STEP cfg - Z.of_nat m * DPI_STEP cfg)
      with (d - Z.succ (Z.of_nat m) * DPI_STEP cfg) by ring.
    reflexivity.
Qed.

Lemma descent_path_last :
  0 < DPI_STEP cfg -> 0 < QUALITY_STEP cfg ->
  MIN_DPI cfg <= START_DPI cfg ->
  MIN_JPEG_QUALITY cfg <= START_JPEG_QUALITY cfg ->
  exists l, descent_path = l ++ [floor_pair].
Proof.
  intros Hd Hq Hsd Hsq. unfold descent_path, floor_pair.
  destruct (grid_from_last
              (steps_left (START_DPI cfg) (MIN_DPI cfg) (DPI_STEP cfg))
              (START_DPI cfg)) as [l Hl].
  exists l. rewrite Hl. unfold steps_left.
  rewrite !Z2Nat.id; [ reflexivity | | ]; apply Z.div_pos; lia.
Qed.

(** *** The outcome of a run *)

Lemma scan_spec (path : string) (rest : list (Z * Z)) :
  forall p : Z * Z,
  exists pre last tl,
    snd (scan path p rest) = pre ++ [last]
    /\ p :: rest = pre ++ last :: tl
    /\ Forall (over_budget path) pre
    /\ ended path (fst (scan path p rest)) last tl.
Proof.
  induction rest as [ | p' rest' IH]; intros p; cbn [scan].
  - destruct (attempt path (fst p) (snd p)) as [b | e] eqn:Ha.
    + exists [], p, [].
      destruct (len b <=? MAX_TARGET_BYTES cfg) eqn:Hb; cbn [fst snd ended];
        repeat split; auto; destruct p; cbn [fst snd] in *; auto.
      * left. now apply Z.leb_le.
      * right. split; [ now apply Z.leb_gt | reflexivity ].
    + exists [], p, []. cbn [fst snd ended]. repeat split; auto.
  - destruct (attempt path (fst p) (snd p)) as [b | e] eqn:Ha.
    + destruct (len b <=? MAX_TARGET_BYTES cfg) eqn:Hb.
      * exists [], p, (p' :: rest'). cbn [fst snd ended].
        repeat split; auto; destruct p; cbn [fst snd] in *; auto.
        left. now apply Z.leb_le.
      * destruct (IH p') as (pre & last & tl & Hv & Hp & Hf & He).
        destruct (scan path p' rest') as [r v]. cbn [fst snd] in *.
        exists (p :: pre), last, tl. repeat split.
        -- now rewrite Hv.
        -- cbn [app]. now rewrite Hp.
        -- constructor; [ | exact Hf ]. exists b. split; [ exact Ha | ].
           now apply Z.leb_gt.
        -- exact He.
    + exists [], p, (p' :: rest'). cbn [fst snd ended]. repeat split; auto.
Qed.

(** With positive steps a run attempts a prefix [pre ++ [last]] of the
    descent path, needs exactly one unit of fuel for each of these pairs, and
    ends at [last]. *)
Lemma run_spec (path : string) (w : World) :
  0 < DPI_STEP cfg -> 0 < QUALITY_STEP cfg ->
  exists r pre last tl,
    descent_path = pre ++ last :: tl
    /\ Forall (over_budget path) pre
    /\ ended path r last tl
    /\ forall fuel,
         iterative_compress_to_limit fuel path w
         = if (S (List.length pre) <=? fuel)%nat
           then Some (r, world_after path (pre ++ [last]) w)
           else None.
Proof.
  intros Hd Hq.
  destruct (descent_path_chained Hd Hq) as (rest & Hp & Hc).
  destruct (scan_spec path rest (START_DPI cfg, START_JPEG_QUALITY cfg))
    as (pre & last & tl & Hv & Hs & Hf & He).
  exists (fst (scan path (START_DPI cfg, START_JPEG_QUALITY cfg) rest)),
    pre, last, tl.
  repeat split; auto.
  - now rewrite Hp.
  - intros fuel. unfold iterative_compress_to_limit.
    pose proof (search_loop_scan path rest
                  (START_DPI cfg, START_JPEG_QUALITY cfg) fuel w Hc) as Hl.
    cbn [fst snd] in Hl. rewrite Hl.
    rewrite Hv, length_app. cbn [List.length].
    now replace (List.length pre + 1)%nat with (S (List.length pre)) by lia.
Qed.

Lemma fitsb_fits (path : string) (p : Z * Z) :
  fitsb path p = true <-> fits path p.
Proof.
  unfold fitsb, fits. split.
  - destruct (attempt path (fst p) (snd p)) as [b | e]; [ | discriminate ].
    intros H. exists b. split; [ reflexivity | now apply Z.leb_le ].
  - intros (b & -> & H). now apply Z.leb_le.
Qed.

Lemma over_budget_not_fits (path : string) (p : Z * Z) :
  over_budget path p -> ~ fits path p.
Proof.
  intros (b & Hb & Hlt) (b' & Hb' & Hle). rewrite Hb in Hb'.
  injection Hb' as <-. lia.
Qed.

Lemma printed_after_render (path : string) (w : World) :
  printed (after_render path w) = printed w.
Proof. unfold after_render. now destruct (fitz_open path). Qed.

Lemma live_after_render (path : string) (w : World) :
  live (after_render path w) = live w.
Proof. unfold after_render. now destruct (fitz_open path). Qed.

Lemma floor_pair_near_minimum :
  0 < DPI_STEP cfg -> 0 < QUALITY_STEP cfg ->
  (MIN_DPI cfg <= fst floor_pair < MIN_DPI cfg + DPI_STEP cfg)
  /\ (MIN_JPEG_QUALITY cfg <= snd floor_pair
      < MIN_JPEG_QUALITY cfg + QUALITY_STEP cfg).
Proof.
  intros Hd Hq. unfold floor_pair; cbn [fst snd].
  pose proof (Z.mul_div_le (START_DPI cfg - MIN_DPI cfg) _ Hd).
  pose proof (Z.mul_succ_div_gt (START_DPI cfg - MIN_DPI cfg) _ Hd).
  pose proof (Z.mul_div_le
                (START_JPEG_QUALITY cfg - MIN_JPEG_QUALITY cfg) _ Hq).
  pose proof (Z.mul_succ_div_gt
                (START_JPEG_QUALITY cfg - MIN_JPEG_QUALITY cfg) _ Hq).
  lia.
Qed.

(** C1 (as amended): with start >= min and positive steps, a run of the
    budget search given enough fuel ends; when it returns, the result is the
    attempt at a pair of the descent path; if some pair of the path meets the
    budget the returned size is within the budget; if none does, the result
    is the one computed at the last pair of the path, [floor_pair], the
    lowest resolution and quality reachable from the start by whole steps
    without passing below the minimums (less than one step above them).
    When the run raises instead, an attempt on the path raised. *)
Theorem budget_search_outcome (path : string) (w : World) (fuel : nat) :
  0 < DPI_STEP cfg -> 0 < QUALITY_STEP cfg ->
  MIN_DPI cfg <= START_DPI cfg ->
  MIN_JPEG_QUALITY cfg <= START_JPEG_QUALITY cfg ->
  (List.length descent_path <= fuel)%nat ->
  (MIN_DPI cfg <= fst floor_pair < MIN_DPI cfg + DPI_STEP cfg)
  /\ (MIN_JPEG_QUALITY cfg <= snd floor_pair
      < MIN_JPEG_QUALITY cfg + QUALITY_STEP cfg)
  /\ exists r w',
      iterative_compress_to_limit fuel path w = Some (r, w')
      /\ match r with
         | Ok (b, sz, d, q) =>
             In (d, q) descent_path
             /\ attempt path d q = Ok b /\ sz = len b
             /\ ((exists p, In p descent_path /\ fits path p) ->
                 sz <= MAX_TARGET_BYTES cfg)
             /\ ((forall p, In p descent_path -> ~ fits path p) ->
                 (d, q) = floor_pair)
         | Raise e =>
             exists p, In p descent_path
                       /\ attempt path (fst p) (snd p) = Raise e
         end.
Proof.
  intros Hd Hq Hsd Hsq Hfuel.
  destruct (floor_pair_near_minimum Hd Hq) as [Hf1 Hf2].
  split; [ exact Hf1 | split; [ exact Hf2 | ] ].
  destruct (run_spec path w Hd Hq) as (r & pre & last & tl & Hp & Hpre & He & Hrun).
  exists r, (world_after path (pre ++ [last]) w). split.
  - rewrite Hrun. rewrite Hp, length_app in Hfuel. cbn [List.length] in Hfuel.
    destruct (Nat.leb_spec (S (List.length pre)) fuel); [ reflexivity | lia ].
  - assert (Hin : In last descent_path).
    { rewrite Hp. apply in_or_app. right. now left. }
    destruct r as [[[[b sz] d] q] | e]; cbn [ended] in He.
    + destruct He as (Hl & Ha & Hsz & Hend). subst last.
      repeat split; auto.
      * intros (p & Hinp & Hfit).
        destruct Hend as [Hle | [Hgt Htl]]; [ exact Hle | exfalso ].
        subst tl. rewrite Hp in Hinp. apply in_app_or in Hinp.
        destruct Hinp as [Hinp | [<- | []]].
        -- rewrite Forall_forall in Hpre.
           exact (over_budget_not_fits path p (Hpre _ Hinp) Hfit).
        -- apply (over_budget_not_fits path (d, q)); [ | exact Hfit ].
           exists b. split; [ exact Ha | lia ].
      * intros Hnone.
        destruct Hend as [Hle | [Hgt Htl]].
        -- exfalso. apply (Hnone _ Hin). exists b. cbn [fst snd].
           split; [ exact Ha | lia ].
        -- subst tl. destruct (descent_path_last Hd Hq Hsd Hsq) as [l Hl].
           rewrite Hp in Hl. now apply app_inj_tail in Hl.
    + exists last. split; assumption.
Qed.

Lemma levels_bound_ge (start lo step : Z) :
  0 < step -> lo <= start ->
  Z.of_nat (S (steps_left start lo step)) <= levels_bound start lo step.
Proof.
  intros Hs Hlo. unfold steps_left, levels_bound.
  rewrite Nat2Z.inj_succ, Z2Nat.id by (apply Z.div_pos; lia).
  rewrite <- (Qceiling_Z (Z.succ ((start - lo) / step))).
  apply Qceiling_resp_le. unfold Z.succ. rewrite inject_Z_plus.
  apply Qplus_le_l. apply Qle_shift_div_l.
  - replace 0%Q with (inject_Z 0) by reflexivity. now rewrite <- Zlt_Qlt.
  - rewrite <- inject_Z_mult, <- Zle_Qle. rewrite Z.mul_comm.
    now apply Z.mul_div_le.
Qed.

Lemma lines_length (path : string) (v : list (Z * Z)) :
  (List.length (lines path v) <= List.length v)%nat.
Proof.
  induction v as [ | p v IH]; cbn [lines flat_map List.length]; [ lia | ].
  rewrite length_app. fold (lines path v).
  destruct (attempt path (fst p) (snd p)); cbn [List.length]; lia.
Qed.

(** C4: for valid inputs (start >= min, positive steps) the loop ends, and
    the number [n] of rasterize and compose attempts it makes (the fuel it
    needs: less leaves the loop running, [n] or more gives the same end) is at
    most ceil((start_res - min_res)/res_step + 1) times
    ceil((start_q - min_q)/q_step + 1). *)
Theorem budget_search_terminates (path : string) (w : World) :
  0 < DPI_STEP cfg -> 0 < QUALITY_STEP cfg ->
  MIN_DPI cfg <= START_DPI cfg ->
  MIN_JPEG_QUALITY cfg <= START_JPEG_QUALITY cfg ->
  exists (n : nat) r w',
    Z.of_nat n <= attempts_bound
    /\ (forall fuel, (n <= fuel)%nat ->
          iterative_compress_to_limit fuel path w = Some (r, w'))
    /\ (forall fuel, (fuel < n)%nat ->
          iterative_compress_to_limit fuel path w = None)
    /\ (List.length (printed w') <= List.length (printed w) + n)%nat.
Proof.
  intros Hd Hq Hsd Hsq.
  destruct (run_spec path w Hd Hq) as (r & pre & last & tl & Hp & Hpre & He & Hrun).
  exists (S (List.length pre)), r, (world_after path (pre ++ [last]) w).
  repeat split.
  - apply Z.le_trans with (Z.of_nat (List.length descent_path)).
    + rewrite Hp, length_app. cbn [List.length]. lia.
    + unfold descent_path, attempts_bound. rewrite grid_from_length.
      rewrite Nat2Z.inj_mul.
      pose proof (levels_bound_ge _ _ _ Hd Hsd).
      pose proof (levels_bound_ge _ _ _ Hq Hsq).
      apply Z.mul_le_mono_nonneg; lia.
  - intros fuel Hf. rewrite Hrun.
    destruct (Nat.leb_spec (S (List.length pre)) fuel); [ reflexivity | lia ].
  - intros fuel Hf. rewrite Hrun.
    destruct (Nat.leb_spec (S (List.length pre)) fuel); [ lia | reflexivity ].
  - cbn [world_after printed]. rewrite length_app.
    pose proof (lines_length path (pre ++ [last])) as Hl.
    rewrite length_app in Hl. cbn [List.length] in Hl. lia.
Qed.

(** C9: when the start resolution equals the minimum resolution, the start
    quality equals the minimum quality and both steps are positive, one
    unit of fuel is enough and more changes nothing: the run makes one
    rasterize and compose attempt, prints its line and returns its bytes
    with the start pair whatever their size, or raises what the attempt
    raised. *)
Theorem single_attempt_at_minimum (path : string) (w : World) (fuel : nat) :
  START_DPI cfg = MIN_DPI cfg ->
  START_JPEG_QUALITY cfg = MIN_JPEG_QUALITY cfg ->
  0 < DPI_STEP cfg -> 0 < QUALITY_STEP cfg ->
  (1 <= fuel)%nat ->
  iterative_compress_to_limit fuel path w
  = match attempt path (START_DPI cfg) (START_JPEG_QUALITY cfg) with
    | Ok b =>
        Some (Ok (b, len b, START_DPI cfg, START_JPEG_QUALITY cfg),
              print_try (START_DPI cfg) (START_JPEG_QUALITY cfg) (len b)
                (after_render path w))
    | Raise e => Some (Raise e, after_render path w)
    end.
Proof.
  intros Hsd Hsq Hd Hq Hfuel. unfold iterative_compress_to_limit.
  destruct fuel as [ | fuel]; [ lia | ]. rewrite search_loop_step.
  destruct (attempt path (START_DPI cfg) (START_JPEG_QUALITY cfg)) as [b | e];
    [ | reflexivity ].
  cbv zeta. destruct (len b <=? MAX_TARGET_BYTES cfg); [ reflexivity | ].
  unfold next_pair; cbn [fst snd].
  destruct (Z.leb_spec (MIN_JPEG_QUALITY cfg)
              (START_JPEG_QUALITY cfg - QUALITY_STEP cfg)); [ lia | ].
  destruct (Z.leb_spec (MIN_DPI cfg) (START_DPI cfg - DPI_STEP cfg));
    [ lia | reflexivity ].
Qed.

Lemma search_loop_first_fit (fuel : nat) (path : string) :
  forall (d q : Z) (w : World) r w',
    search_loop fuel path d q w = Some (r, w') ->
    exists new,
      printed w' = printed w ++ new
      /\ forall pre t post,
           new = pre ++ t :: post ->
           try_size t <= MAX_TARGET_BYTES cfg ->
           post = []
           /\ exists b,
                r = Ok (b, try_size t, try_dpi t, try_quality t)
                /\ attempt path (try_dpi t) (try_quality t) = Ok b
                /\ len b = try_size t.
Proof.
  induction fuel as [ | fuel IH]; intros d q w r w' Hrun; [ discriminate | ].
  rewrite search_loop_step in Hrun.
  destruct (attempt path d q) as [b | e] eqn:Ha.
  - cbv zeta in Hrun.
    destruct (Z.leb_spec (len b) (MAX_TARGET_BYTES cfg)) as [Hle | Hgt].
    + injection Hrun as <- <-. exists [mkTry d q (len b)].
      cbn [print_try printed]. rewrite printed_after_render.
      split; [ reflexivity | ].
      intros [ | t' pre] t post Heq Hsz.
      * injection Heq as <- <-. cbn [try_size try_dpi try_quality].
        split; [ reflexivity | ]. exists b. now repeat split.
      * injection Heq as _ Heq. now destruct pre.
    + destruct (next_pair (d, q)) as [p' | ].
      * apply IH in Hrun. destruct Hrun as (new & Hpr & Hnew).
        exists (mkTry d q (len b) :: new). split.
        -- rewrite Hpr. cbn [print_try printed]. rewrite printed_after_render.
           now rewrite <- app_assoc.
        -- intros [ | t' pre] t post Heq Hsz.
           ++ injection Heq as <- _. cbn [try_size] in Hsz. lia.
           ++ injection Heq as _ Heq. exact (Hnew _ _ _ Heq Hsz).
      * injection Hrun as <- <-. exists [mkTry d q (len b)].
        cbn [print_try printed]. rewrite printed_after_render.
        split; [ reflexivity | ].
        intros [ | t' pre] t post Heq Hsz.
        -- injection Heq as <- _. cbn [try_size] in Hsz. lia.
        -- injection Heq as _ Heq. now destruct pre.
  - injection Hrun as <- <-. exists []. rewrite printed_after_render.
    split; [ now rewrite app_nil_r | ].
    intros pre t post Heq. now destruct pre.
Qed.

(** C2: an attempt whose encoded size is within the budget ends the run at
    once, with its bytes and the pair that produced them; and in every run
    that ends, a printed attempt within the budget is the last attempt made
    and is the result returned, so no attempt follows a passing size. *)
Theorem first_success_wins (path : string) :
  (forall (fuel : nat) (d q : Z) (w : World) (b : bytes),
      attempt path d q = Ok b -> len b <= MAX_TARGET_BYTES cfg ->
      search_loop (S fuel) path d q w
      = Some (Ok (b, len b, d, q),
              print_try d q (len b) (after_render path w)))
  /\ (forall (fuel : nat) (w : World) r w',
        iterative_compress_to_limit fuel path w = Some (r, w') ->
        exists new,
          printed w' = printed w ++ new
          /\ forall pre t post,
               new = pre ++ t :: post ->
               try_size t <= MAX_TARGET_BYTES cfg ->
               post = []
               /\ exists b,
                    r = Ok (b, try_size t, try_dpi t, try_quality t)
                    /\ attempt path (try_dpi t) (try_quality t) = Ok b
                    /\ len b = try_size t).
Proof.
  split.
  - intros fuel d q w b Ha Hle. rewrite search_loop_step, Ha. cbv zeta.
    destruct (Z.leb_spec (len b) (MAX_TARGET_BYTES cfg)); [ reflexivity | lia ].
  - intros fuel w r w'. apply search_loop_first_fit.
Qed.

(** *** The order of the attempts *)

Lemma chained_adjacent (l1 : list (Z * Z)) :
  forall p rest pa pb l2,
    chained p rest -> p :: rest = l1 ++ pa :: pb :: l2 ->
    next_pair pa = Some pb.
Proof.
  induction l1 as [ | x l1 IH]; intros p rest pa pb l2 Hc Heq.
  - injection Heq as -> ->. now destruct Hc.
  - injection Heq as -> ->.
    destruct l1 as [ | y l1]; cbn [app] in Hc; destruct Hc as [_ Hc].
    + eapply (IH pa); [ exact Hc | reflexivity ].
    + eapply (IH y); [ exact Hc | reflexivity ].
Qed.

Lemma split_adjacent {A} (l1 : list A) :
  forall l2 pv pa pb rest,
    l1 ++ l2 = pv ++ pa :: pb :: rest ->
    (exists r1, l1 = pv ++ pa :: pb :: r1)
    \/ (l1 = pv ++ [pa] /\ l2 = pb :: rest)
    \/ (exists pv2, pv = l1 ++ pv2 /\ l2 = pv2 ++ pa :: pb :: rest).
Proof.
  induction l1 as [ | x l1 IH]; intros l2 pv pa pb rest Heq.
  - right. right. exists pv. now split.
  - destruct pv as [ | y pv]; cbn [app] in Heq; injection Heq as -> Heq.
    + destruct l1 as [ | z l1]; cbn [app] in Heq.
      * right. left. now split.
      * injection Heq as -> _. left. now exists l1.
    + destruct (IH _ _ _ _ _ Heq) as [[r1 H] | [[H1 H2] | [pv2 [H1 H2]]]].
      * left. exists r1. now rewrite H.
      * right. left. split; [ now rewrite H1 | exact H2 ].
      * right. right. exists pv2. split; [ now rewrite H1 | exact H2 ].
Qed.

Lemma quality_row_fst (d : Z) (n : nat) :
  forall q p, In p (quality_row d q n) -> fst p = d.
Proof.
  induction n as [ | n IH]; intros q p; cbn [quality_row].
  - intros [<- | []]. reflexivity.
  - intros [<- | H]; [ reflexivity | exact (IH _ _ H) ].
Qed.

Lemma full_row_fst (d : Z) (p : Z * Z) : In p (full_row d) -> fst p = d.
Proof. apply quality_row_fst. Qed.

Lemma quality_row_In (d : Z) (n : nat) :
  forall (q : Z) (j : nat),
    (j <= n)%nat ->
    In (d, q - Z.of_nat j * QUALITY_STEP cfg) (quality_row d q n).
Proof.
  induction n as [ | n IH]; intros q j Hj.
  - replace j with O by lia. left. cbn [Z.of_nat].
    now rewrite Z.mul_0_l, Z.sub_0_r.
  - destruct j as [ | j].
    + left. cbn [Z.of_nat]. now rewrite Z.mul_0_l, Z.sub_0_r.
    + right. rewrite Nat2Z.inj_succ.
      replace (q - Z.succ (Z.of_nat j) * QUALITY_STEP cfg)
        with (q - QUALITY_STEP cfg - Z.of_nat j * QUALITY_STEP cfg) by ring.
      apply IH. lia.
Qed.

Lemma full_row_In (d k : Z) :
  0 < QUALITY_STEP cfg -> 0 <= k ->
  MIN_JPEG_QUALITY cfg <= START_JPEG_QUALITY cfg - k * QUALITY_STEP cfg ->
  In (d, START_JPEG_QUALITY cfg - k * QUALITY_STEP cfg) (full_row d).
Proof.
  intros Hq Hk Hmin. unfold full_row.
  rewrite <- (Z2Nat.id k Hk). apply quality_row_In. unfold steps_left.
  apply Z2Nat.inj_le; [ exact Hk | | ].
  - apply Z.div_pos; nia.
  - apply Z.div_le_lower_bound; nia.
Qed.

(** Where the resolution changes in the grid, the row of the resolution
    that is left lies wholly before the change. *)
Lemma grid_row_complete (m : nat) :
  forall d pv pa pb rest,
    grid_from d m = pv ++ pa :: pb :: rest ->
    fst pb <> fst pa ->
    incl (full_row (fst pa)) (pv ++ [pa]).
Proof.
  induction m as [ | m IH]; intros d pv pa pb rest Heq Hne; cbn [grid_from] in Heq.
  - exfalso. apply Hne. rewrite app_nil_r in Heq.
    rewrite (full_row_fst d pa), (full_row_fst d pb);
      try reflexivity; rewrite Heq; apply in_or_app; right; cbn; auto.
  - apply split_adjacent in Heq.
    destruct Heq as [[r1 H] | [[H1 H2] | [pv2 [H1 H2]]]].
    + exfalso. apply Hne.
      rewrite (full_row_fst d pa), (full_row_fst d pb);
        try reflexivity; rewrite H; apply in_or_app; right; cbn; auto.
    + assert (Hd : fst pa = d).
      { apply full_row_fst. rewrite H1. apply in_or_app. right. now left. }
      rewrite Hd, H1. apply incl_refl.
    + apply IH in H2; [ | exact Hne ]. subst pv. rewrite <- app_assoc.
      now apply incl_appr.
Qed.

Lemma lines_line_of (path : string) (pre : list (Z * Z)) (last : Z * Z) :
  Forall (over_budget path) pre ->
  exists v, Forall2 line_of v (lines path (pre ++ [last]))
            /\ (v = pre \/ v = pre ++ [last]).
Proof.
  induction 1 as [ | p pre (b & Hb & _) _ (v & Hv & Hor)].
  - cbn [app lines flat_map].
    destruct (attempt path (fst last) (snd last)) as [b | e]; cbn [app].
    + exists [last]. split; [ | now right ].
      constructor; [ now split | constructor ].
    + exists []. split; [ constructor | now left ].
  - exists (p :: v). cbn [app lines flat_map]. rewrite Hb. cbn [app]. split.
    + constructor; [ now split | exact Hv ].
    + destruct Hor as [-> | ->]; [ now left | now right ].
Qed.

Lemma Forall2_line_of_In (v : list (Z * Z)) (ts : list Try) :
  Forall2 line_of v ts ->
  forall p, In p v -> exists t, In t ts /\ line_of p t.
Proof.
  induction 1 as [ | x t v ts Hx _ IH]; intros p; [ intros [] | ].
  intros [<- | Hin].
  - exists t. split; [ now left | exact Hx ].
  - destruct (IH _ Hin) as (t' & Ht' & Hl). exists t'. split; [ now right | exact Hl ].
Qed.

(** C3: when both steps are positive, the resolution never rises along the
    successive attempts of a run (its printed lines); from one attempt to
    the next
    either the resolution is kept and the quality goes down one step, or
    the resolution goes down one step, the quality is back at its start
    value, no lower quality was left at the old resolution, and every
    quality from the start value down to the minimum has been attempted at
    the old resolution before. *)
Theorem descent_order (path : string) (w : World) (fuel : nat) r w' :
  0 < DPI_STEP cfg -> 0 < QUALITY_STEP cfg ->
  iterative_compress_to_limit fuel path w = Some (r, w') ->
  exists new,
    printed w' = printed w ++ new
    /\ forall pre a b post,
         new = pre ++ a :: b :: post ->
         try_dpi b <= try_dpi a
         /\ ((try_dpi b = try_dpi a
              /\ try_quality b = try_quality a - QUALITY_STEP cfg
              /\ MIN_JPEG_QUALITY cfg <= try_quality b)
             \/ (try_dpi b = try_dpi a - DPI_STEP cfg
                 /\ MIN_DPI cfg <= try_dpi b
                 /\ try_quality b = START_JPEG_QUALITY cfg
                 /\ try_quality a - QUALITY_STEP cfg < MIN_JPEG_QUALITY cfg
                 /\ forall k,
                      0 <= k ->
                      MIN_JPEG_QUALITY cfg
                      <= START_JPEG_QUALITY cfg - k * QUALITY_STEP cfg ->
                      exists sz,
                        In (mkTry (try_dpi a)
                              (START_JPEG_QUALITY cfg - k * QUALITY_STEP cfg) sz)
                           (pre ++ [a]))).
Proof.
  intros Hd Hq Hrun.
  destruct (run_spec path w Hd Hq) as (r0 & vpre & last & tl & Hp & Hpre & _ & Hr).
  rewrite Hr in Hrun.
  destruct (S (List.length vpre) <=? fuel)%nat; [ | discriminate ].
  injection Hrun as _ <-. exists (lines path (vpre ++ [last])).
  split; [ reflexivity | ].
  intros pre a b post Heq.
  destruct (lines_line_of path vpre last Hpre) as (v & Hv & Hor).
  assert (Hpath : exists tl', descent_path = v ++ tl').
  { destruct Hor as [-> | ->]; rewrite Hp.
    - now exists (last :: tl).
    - exists tl. now rewrite <- app_assoc. }
  destruct Hpath as [tl' Hpath]. rewrite Heq in Hv.
  apply Forall2_app_inv_r in Hv. destruct Hv as (v1 & v2 & Hv1 & Hv2 & ->).
  inversion Hv2 as [ | pa a' v3 ts Ha Hv3 ]; subst.
  inversion Hv3 as [ | pb b' v4 ts' Hb Hv4 ]; subst.
  rewrite <- app_assoc in Hpath. cbn [app] in Hpath.
  destruct (descent_path_chained Hd Hq) as (rest & Hdp & Hc).
  assert (Hnext : next_pair pa = Some pb).
  { apply (chained_adjacent v1 _ rest pa pb (v4 ++ tl') Hc).
    now rewrite <- Hdp. }
  destruct Ha as [Ha1 Ha2], Hb as [Hb1 Hb2].
  unfold next_pair in Hnext. rewrite <- Ha1, <- Ha2 in Hnext.
  destruct (Z.leb_spec (MIN_JPEG_QUALITY cfg) (try_quality a - QUALITY_STEP cfg))
    as [Hle | Hgt].
  - injection Hnext as <-. cbn [fst snd] in Hb1, Hb2.
    split; [ lia | ]. left. repeat split; lia.
  - destruct (Z.leb_spec (MIN_DPI cfg) (try_dpi a - DPI_STEP cfg))
      as [Hle' | Hgt']; [ | discriminate ].
    injection Hnext as <-. cbn [fst snd] in Hb1, Hb2.
    split; [ lia | ]. right. repeat split; try lia.
    intros k Hk Hmin.
    assert (Hin : In (try_dpi a, START_JPEG_QUALITY cfg - k * QUALITY_STEP cfg)
                     (v1 ++ [pa])).
    { rewrite Ha1.
      apply (grid_row_complete
               (steps_left (START_DPI cfg) (MIN_DPI cfg) (DPI_STEP cfg))
               (START_DPI cfg) v1 pa
               (try_dpi a - DPI_STEP cfg, START_JPEG_QUALITY cfg) (v4 ++ tl')).
      - exact Hpath.
      - cbn [fst]. lia.
      - rewrite <- Ha1. now apply full_row_In. }
    assert (Hf2 : Forall2 line_of (v1 ++ [pa]) (pre ++ [a])).
    { apply Forall2_app; [ exact Hv1 | ]. constructor; [ now split | constructor ]. }
    destruct (Forall2_line_of_In _ _ Hf2 _ Hin) as (t & Ht & Ht1 & Ht2).
    cbn [fst snd] in Ht1, Ht2. exists (try_size t).
    destruct t as [td tq ts]. cbn [try_dpi try_quality try_size] in *.
    now subst td tq.
Qed.

(** ** Facts about the rasterizer *)

(** C8: [render_pages_to_images] leaves the live handles as it found them,
    whatever it returns or raises.  When the file does not parse nothing was
    opened and the world is unchanged; when it parses, the handle opened at
    entry is live while the pages are rendered and is closed before the call
    returns, whether the rendering loop returned the images or a page
    raised. *)
Theorem document_handle_released (path : string) (dpi : Z) (w : World) :
  live (snd (render_pages_to_images path dpi w)) = live w
  /\ match fitz_open path with
     | Raise e => render_pages_to_images path dpi w = (Raise e, w)
     | Ok doc =>
         exists w1,
           fitz_open_io path w = (Ok (next_handle w, doc), w1)
           /\ live w1 = next_handle w :: live w
           /\ render_pages_to_images path dpi w
              = (render_loop doc dpi (seq 0 (page_count doc)) [],
                 snd (doc_close (next_handle w) w1))
           /\ live (snd (doc_close (next_handle w) w1)) = live w
     end.
Proof.
  split.
  - rewrite render_run. apply live_after_render.
  - unfold render_pages_to_images, bind, fitz_open_io, try_finally, lift.
    destruct (fitz_open path) as [doc | e]; [ | reflexivity ].
    eexists. split; [ reflexivity | ]. cbn [live snd doc_close].
    repeat split. apply release_head.
Qed.

(** ** Facts about the composer *)

Lemma target_px_raises (pt dpi : Z) (e : exn) :
  target_px pt dpi = Raise e -> e = OverflowError.
Proof.
  unfold target_px, Float.int_div_float, Float.of_int, Float.to_float, rbind.
  destruct (Qle_bool _ (Qabs (Float.round_binary64 (inject_Z (pt * dpi))))).
  - now intros [= <-].
  - change (Qeq_bool 72 0) with false. cbv iota.
    destruct (Qle_bool _ _); [ now intros [= <-] | discriminate ].
Qed.

(** C7: with no image [compose_images_to_target_size] never returns bytes:
    it raises IndexError at [pages[0]], before the encoder is reached (or
    OverflowError, when the target size itself cannot be computed). *)
Theorem compose_empty_raises (target_w_pt target_h_pt dpi jpeg_quality : Z) :
  exists e,
    compose_images_to_target_size [] target_w_pt target_h_pt dpi jpeg_quality
    = Raise e
    /\ (e = IndexError \/ e = OverflowError)
    /\ ((exists tw th, target_px target_w_pt dpi = Ok tw
                       /\ target_px target_h_pt dpi = Ok th) ->
        e = IndexError).
Proof.
  unfold compose_images_to_target_size.
  destruct (target_px target_w_pt dpi) as [tw | e1] eqn:H1; cbn [rbind].
  - destruct (target_px target_h_pt dpi) as [th | e2] eqn:H2;
      cbn [rbind compose_loop].
    + exists IndexError. repeat split; auto.
    + exists e2. apply target_px_raises in H2. subst e2.
      repeat split; auto. now intros (? & ? & _ & [=]).
  - exists e1. apply target_px_raises in H1. subst e1.
    repeat split; auto. now intros (? & ? & [=] & _).
Qed.

Lemma compose_page_shape (tw th : Z) (img pg : Image) :
  compose_page tw th img = Ok pg ->
  exists new_w new_h,
    scaled_size tw th (fst (size img)) (snd (size img)) = Ok (new_w, new_h)
    /\ pg = Pasted (NewRGB tw th white) (Resized img new_w new_h)
              ((tw - new_w) / 2) ((th - new_h) / 2).
Proof.
  unfold compose_page. destruct (size img) as [iw ih]. cbn [fst snd].
  destruct (scaled_size tw th iw ih) as [[new_w new_h] | e]; [ | discriminate ].
  cbn [rbind]. unfold pil.
  destruct (pillow_raises (Resized img new_w new_h)); [ discriminate | ].
  cbn [rbind].
  destruct (pillow_raises (NewRGB tw th white)); [ discriminate | ].
  cbn [rbind].
  destruct (pillow_raises _); [ discriminate | ].
  intros [= <-]. now exists new_w, new_h.
Qed.

Lemma compose_loop_pages (tw th : Z) (images : list Image) :
  forall pages out,
    compose_loop tw th images pages = Ok out ->
    exists news,
      out = pages ++ news
      /\ Forall2 (fun img pg => compose_page tw th img = Ok pg) images news.
Proof.
  induction images as [ | img images IH]; intros pages out; cbn [compose_loop].
  - intros [= <-]. exists []. split; [ now rewrite app_nil_r | constructor ].
  - destruct (compose_page tw th img) as [pg | e] eqn:Hpg; [ | discriminate ].
    cbn [rbind]. intros H. apply IH in H. destruct H as (news & -> & Hn).
    exists (pg :: news). split; [ now rewrite <- app_assoc | ].
    now constructor.
Qed.

(** The pages of a PDF document, in page order, each as the frame that was
    written on it.  Pillow's PDF writer puts the image [save] is called on
    onto the first page and, with [save_all], every image of
    [append_images] onto a page of its own, in the order given; without
    [save_all] the document has the first page only. *)
Section Document.

Variable pdf_pages : bytes -> list Image.

Hypothesis pdf_pages_saved :
  forall first options b,
    save_pdf first options = Ok b -> pdf_pages b = frames first options.


End Document.

(** ** Facts about the float operations *)

Local Open Scope Q_scope.

Example round_half_even_ties :
  map Float.round_half_even [(1 # 2); (3 # 2); (5 # 2); (-1 # 2); (7 # 4)]
  = [0; 2; 2; 0; 2]%Z.
Proof. reflexivity. Qed.

(** [1 / 3] and [1 / 10] are the doubles 0x3FD5555555555555 and
    0x3FB999999999999A. *)
Example int_truediv_third :
  Float.int_truediv 1 3 = Ok (6004799503160661 # 18014398509481984).
Proof. vm_compute. reflexivity. Qed.

Example int_truediv_tenth :
  rbind (Float.int_truediv 1 10) (fun x => Ok (Qred x))
  = Ok (3602879701896397 # 36028797018963968).
Proof. vm_compute. reflexivity. Qed.

(** The smallest subnormal, and a quotient that rounds to zero. *)
Example int_truediv_underflow :
  Float.int_truediv 1 (2 ^ 1074) = Ok (2 ^ (-1074))
  /\ rbind (Float.int_truediv 1 (2 ^ 1076)) (fun x => Ok (Qred x)) = Ok 0.
Proof. split; vm_compute; reflexivity. Qed.

(** The largest double is 2^1024 - 2^971; an int half way from it to 2^1024
    is too large for [float(n)]. *)
Example of_int_overflow :
  Float.of_int (2 ^ 1024 - 2 ^ 970) = Raise OverflowError
  /\ Float.of_int (2 ^ 1024 - 2 ^ 970 - 1)
     = Ok (inject_Z (2 ^ 1024 - 2 ^ 971)).
Proof. split; vm_compute; reflexivity. Qed.

Lemma round_half_even_near (x : Q) :
  - (1 # 2) <= inject_Z (Float.round_half_even x) - x <= 1 # 2.
Proof.
  unfold Float.round_half_even.
  pose proof (Qfloor_le x) as Hlo. pose proof (Qlt_floor x) as Hhi.
  rewrite inject_Z_plus in Hhi. change (inject_Z 1) with 1 in Hhi.
  destruct (Qcompare_spec (x - inject_Z (Qfloor x)) (1 # 2)) as [He | Hl | Hg].
  - destruct (Z.even (Qfloor x)); [ | rewrite inject_Z_plus; change (inject_Z 1) with 1 ]; lra.
  - lra.
  - rewrite inject_Z_plus; change (inject_Z 1) with 1; lra.
Qed.


Lemma Qilog2_le (x : Q) : 0 < x -> 2 ^ Float.Qilog2 x <= x.
Proof.
  intros Hx. unfold Float.Qilog2.
  destruct (Qle_bool (2 ^ (Z.log2 (Qnum x) - Z.log2 (Z.pos (Qden x)))) x) eqn:Hb.
  - now apply Qle_bool_iff.
  - clear Hb. destruct x as [n d]. cbn [Qnum Qden].
    assert (Hn : (0 < n)%Z).
    { unfold Qlt in Hx. cbn in Hx. lia. }
    pose proof (Z.log2_spec n Hn) as [Hln _].
    pose proof (Z.log2_spec (Z.pos d) (Pos2Z.is_pos d)) as [_ Hld].
    pose proof (Z.log2_nonneg n) as Hln0.
    pose proof (Z.log2_nonneg (Z.pos d)) as Hld0.
    replace (Z.log2 n - Z.log2 (Z.pos d) - 1)%Z
      with (Z.log2 n - Z.succ (Z.log2 (Z.pos d)))%Z by lia.
    rewrite Qpower_minus by (intros H; discriminate H).
    change 2 with (inject_Z 2).
    rewrite <- !Zpower_Qpower by lia.
    rewrite (Qmake_Qdiv n d).
    set (A := (2 ^ Z.log2 n)%Z) in *.
    set (B := (2 ^ Z.succ (Z.log2 (Z.pos d)))%Z) in *.
    assert (HA : (0 < A)%Z) by (apply Z.pow_pos_nonneg; lia).
    assert (HN : inject_Z A <= inject_Z n) by (rewrite <- Zle_Qle; lia).
    assert (HD : inject_Z (Z.pos d) <= inject_Z B) by (rewrite <- Zle_Qle; lia).
    assert (HA0 : 0 < inject_Z A).
    { replace 0 with (inject_Z 0) by reflexivity. rewrite <- Zlt_Qlt. lia. }
    assert (HD0 : 0 < inject_Z (Z.pos d)).
    { replace 0 with (inject_Z 0) by reflexivity. now rewrite <- Zlt_Qlt. }
    assert (Hw : inject_Z (Z.pos d) * (inject_Z n / inject_Z (Z.pos d))
                 == inject_Z n).
    { apply Qmult_div_r. lra. }
    set (w := inject_Z n / inject_Z (Z.pos d)) in *.
    apply Qle_shift_div_r; [ lra | ].
    assert (0 <= w) by nra.
    nra.
Qed.

Lemma round_pos_near (x : Q) :
  0 < x -> 2 ^ (-1022) <= x ->
  x * (1 - Float.unit_roundoff) <= Float.round_pos x <= x * (1 + Float.unit_roundoff).
Proof.
  intros Hx Hmin. unfold Float.round_pos, Float.unit_roundoff.
  set (e := Z.max (Float.Qilog2 x - 52) (-1074)).
  assert (HE : 0 < 2 ^ e) by (apply Qpower_0_lt; reflexivity).
  assert (H52 : 2 ^ (-52) == 1 # 4503599627370496) by reflexivity.
  assert (HEx : 2 ^ e <= x * (1 # 4503599627370496)).
  { rewrite <- H52. subst e.
    destruct (Z.max_spec (Float.Qilog2 x - 52) (-1074)) as [[_ ->] | [_ ->]].
    - change (-1074)%Z with (-1022 + -52)%Z.
      rewrite Qpower_plus by (intros H; discriminate H).
      apply Qmult_le_compat_r; [ exact Hmin | rewrite H52; discriminate ].
    - unfold Z.sub. rewrite Qpower_plus by (intros H; discriminate H).
      apply Qmult_le_compat_r; [ now apply Qilog2_le | rewrite H52; discriminate ]. }
  assert (Ht : 2 ^ e * (x / 2 ^ e) == x) by (apply Qmult_div_r; lra).
  pose proof (round_half_even_near (x / 2 ^ e)) as Hnear.
  set (t := x / 2 ^ e) in *. set (E := 2 ^ e) in *.
  set (m := inject_Z (Float.round_half_even t)) in *.
  split; nra.
Qed.

Lemma to_float_near (x : Q) :
  (1 # 1152921504606846976) <= x <= 1152921504606846976 ->
  exists y, Float.to_float x = Ok y
            /\ x * (1 - Float.unit_roundoff) <= y <= x * (1 + Float.unit_roundoff).
Proof.
  intros [Hlo Hhi]. unfold Float.to_float, Float.round_binary64.
  assert (Hx : 0 < x) by lra.
  apply Qgt_alt in Hx as Hc. rewrite Hc.
  assert (Hmin : 2 ^ (-1022) <= x).
  { apply Qle_trans with (2 ^ (-60)); [ | exact Hlo ].
    apply Qpower_le_compat_l; [ lia | discriminate ]. }
  pose proof (round_pos_near x Hx Hmin) as Hy. unfold Float.unit_roundoff in *.
  set (y := Float.round_pos x) in *.
  exists y. split; [ | exact Hy ].
  destruct (Qle_bool (2 ^ 1024) (Qabs y)) eqn:Hb; [ exfalso | reflexivity ].
  apply Qle_bool_iff in Hb. rewrite Qabs_pos in Hb by lra.
  assert (H61 : 2 ^ 61 <= 2 ^ 1024).
  { apply Qpower_le_compat_l; [ lia | discriminate ]. }
  assert (H61' : 2 ^ 61 == 2305843009213693952) by reflexivity.
  rewrite H61' in H61.
  set (P := 2 ^ 1024) in *. lra.
Qed.

Lemma inject_Z_range (n : Z) :
  (0 < n < 2 ^ 50)%Z -> 1 <= inject_Z n <= 1125899906842624.
Proof.
  intros [Hlo Hhi]. split.
  - change 1 with (inject_Z 1). rewrite <- Zle_Qle. lia.
  - change 1125899906842624 with (inject_Z (2 ^ 50)). rewrite <- Zle_Qle. lia.
Qed.

(** [a / b] on two ints below 2^50: no exception, and the quotient is off
    by at most the unit roundoff. *)
Lemma int_truediv_near (a b : Z) :
  (0 < a < 2 ^ 50)%Z -> (0 < b < 2 ^ 50)%Z ->
  exists r,
    Float.int_truediv a b = Ok r
    /\ inject_Z a * (1 - Float.unit_roundoff) <= inject_Z b * r
       <= inject_Z a * (1 + Float.unit_roundoff).
Proof.
  intros Ha Hb. unfold Float.int_truediv.
  destruct (Z.eqb_spec b 0) as [-> | _]; [ lia | ].
  apply inject_Z_range in Ha, Hb.
  assert (Hx : inject_Z b * (inject_Z a / inject_Z b) == inject_Z a).
  { apply Qmult_div_r. lra. }
  set (A := inject_Z a) in *. set (B := inject_Z b) in *.
  destruct (to_float_near (A / B)) as (r & Hr & Hlo & Hhi).
  { split.
    - apply Qle_shift_div_l; lra.
    - apply Qle_shift_div_r; lra. }
  exists r. split; [ exact Hr | ].
  unfold Float.unit_roundoff in *. set (x := A / B) in *. split; nra.
Qed.

(** [n * r] for an int below 2^50 and a float, when the exact product is
    moderate: no exception, and two roundings. *)
Lemma int_mul_float_near (n : Z) (r : Q) :
  (0 < n < 2 ^ 50)%Z ->
  (1 # 2251799813685248) <= r -> inject_Z n * r <= 2251799813685248 ->
  exists f,
    Float.int_mul_float n r = Ok f
    /\ inject_Z n * r * ((1 - Float.unit_roundoff) * (1 - Float.unit_roundoff))
       <= f
       <= inject_Z n * r * ((1 + Float.unit_roundoff) * (1 + Float.unit_roundoff)).
Proof.
  intros Hn Hr Hnr. unfold Float.int_mul_float, Float.of_int.
  apply inject_Z_range in Hn. set (N := inject_Z n) in *.
  destruct (to_float_near N) as (fn & -> & Hlo & Hhi); [ lra | ].
  cbn [rbind]. unfold Float.unit_roundoff in *.
  destruct (to_float_near (fn * r)) as (f & -> & Hlo' & Hhi').
  { split; nra. }
  exists f. split; [ reflexivity | ].
  unfold Float.unit_roundoff in *. set (y := fn * r) in *.
  assert (N * r * (1 - (1 # 9007199254740992)) <= y
          <= N * r * (1 + (1 # 9007199254740992))) by (subst y; split; nra).
  split; nra.
Qed.

Lemma fmin_spec (a b : Q) :
  (Float.fmin a b = a /\ a <= b) \/ (Float.fmin a b = b /\ b <= a).
Proof.
  unfold Float.fmin. destruct (Qle_bool a b) eqn:H.
  - left. split; [ reflexivity | now apply Qle_bool_iff ].
  - right. split; [ reflexivity | ].
    destruct (Qlt_le_dec b a) as [Hlt | Hle]; [ now apply Qlt_le_weak | ].
    apply Qle_bool_iff in Hle. congruence.
Qed.

Lemma round_half_even_le (f : Q) (n : Z) :
  f < inject_Z n + (1 # 2) -> (Float.round_half_even f <= n)%Z.
Proof.
  intros H. pose proof (round_half_even_near f) as [_ Hn].
  apply Z.lt_succ_r. rewrite Zlt_Qlt. unfold Z.succ. rewrite inject_Z_plus.
  change (inject_Z 1) with 1. lra.
Qed.

Lemma round_half_even_nonneg (f : Q) :
  0 <= f -> (0 <= Float.round_half_even f)%Z.
Proof.
  intros H. pose proof (round_half_even_near f) as [Hn _].
  assert (Hlt : (-1 < Float.round_half_even f)%Z); [ | lia ].
  rewrite Zlt_Qlt. change (inject_Z (-1)) with (-1). lra.
Qed.

(** The scaled size of one axis: [n * ratio] rounded, for a ratio that is at
    most the rounded quotient [t / n]. *)
Lemma scaled_axis_fits (t n : Z) (rt ratio : Q) :
  (0 < t < 2 ^ 50)%Z -> (0 < n < 2 ^ 50)%Z ->
  inject_Z n * rt <= inject_Z t * (1 + Float.unit_roundoff) ->
  (1 # 2251799813685248) <= ratio -> ratio <= rt ->
  exists f,
    Float.int_mul_float n ratio = Ok f
    /\ (0 <= Float.round_half_even f <= t)%Z.
Proof.
  intros Ht Hn Hrt Hlo Hle.
  apply inject_Z_range in Ht as HT. apply inject_Z_range in Hn as HN.
  unfold Float.unit_roundoff in *.
  assert (Hprod : inject_Z n * ratio
                  <= inject_Z t * (1 + (1 # 9007199254740992))) by nra.
  destruct (int_mul_float_near n ratio Hn Hlo) as (f & Hf & Hflo & Hfhi);
    [ lra | ].
  exists f. split; [ exact Hf | ].
  unfold Float.unit_roundoff in *.
  set (T := inject_Z t) in *. set (N := inject_Z n) in *.
  set (y := N * ratio) in *.
  assert (Hy : 0 <= y) by (subst y; nra).
  split.
  - apply round_half_even_nonneg. nra.
  - apply round_half_even_le. fold T. nra.
Qed.

Local Close Scope Q_scope.

(** For sizes below 2^50 the float arithmetic of [scaled_size] raises
    nothing and keeps both scaled dimensions within the canvas. *)
Lemma scaled_size_in_range (tw th iw ih : Z) :
  0 < tw < 2 ^ 50 -> 0 < th < 2 ^ 50 ->
  0 < iw < 2 ^ 50 -> 0 < ih < 2 ^ 50 ->
  exists new_w new_h,
    scaled_size tw th iw ih = Ok (new_w, new_h)
    /\ 0 <= new_w <= tw /\ 0 <= new_h <= th.
Proof.
  intros Htw Hth Hiw Hih. unfold scaled_size.
  destruct (int_truediv_near tw iw Htw Hiw) as (rw & Hrw & Hrwlo & Hrwhi).
  destruct (int_truediv_near th ih Hth Hih) as (rh & Hrh & Hrhlo & Hrhhi).
  rewrite Hrw, Hrh. cbn [rbind].
  assert (Hratio : ((1 # 2251799813685248) <= Float.fmin rw rh
                    /\ Float.fmin rw rh <= rw /\ Float.fmin rw rh <= rh)%Q).
  { pose proof (inject_Z_range _ Htw). pose proof (inject_Z_range _ Hth).
    pose proof (inject_Z_range _ Hiw). pose proof (inject_Z_range _ Hih).
    unfold Float.unit_roundoff in *.
    destruct (fmin_spec rw rh) as [[-> Hle] | [-> Hle]];
      repeat split; try lra; try apply Qle_refl; nra. }
  destruct Hratio as (Hlo & Hlew & Hleh).
  destruct (scaled_axis_fits tw iw rw _ Htw Hiw Hrwhi Hlo Hlew)
    as (fw & Hfw & Hnw).
  destruct (scaled_axis_fits th ih rh _ Hth Hih Hrhhi Hlo Hleh)
    as (fh & Hfh & Hnh).
  rewrite Hfw, Hfh. cbn [rbind].
  exists (Float.round_half_even fw), (Float.round_half_even fh).
  now repeat split.
Qed.

(** C10 (as amended): for a raster and a target pixel size whose four
    dimensions are positive and below 2^50, [scaled_size] raises nothing and
    the rounded scaled width and height are between 0 and the canvas width
    and height, so both centring offsets are non-negative and the pasted
    image lies within the canvas; this is the page [compose_page] builds. *)
Theorem scaled_image_within_canvas (tw th iw ih : Z) :
  0 < tw < 2 ^ 50 -> 0 < th < 2 ^ 50 ->
  0 < iw < 2 ^ 50 -> 0 < ih < 2 ^ 50 ->
  exists new_w new_h,
    scaled_size tw th iw ih = Ok (new_w, new_h)
    /\ 0 <= new_w <= tw /\ 0 <= new_h <= th
    /\ 0 <= (tw - new_w) / 2 /\ 0 <= (th - new_h) / 2
    /\ (tw - new_w) / 2 + new_w <= tw
    /\ (th - new_h) / 2 + new_h <= th
    /\ forall img pg,
         size img = (iw, ih) -> compose_page tw th img = Ok pg ->
         pg = Pasted (NewRGB tw th white) (Resized img new_w new_h)
                ((tw - new_w) / 2) ((th - new_h) / 2).
Proof.
  intros Htw Hth Hiw Hih.
  destruct (scaled_size_in_range tw th iw ih Htw Hth Hiw Hih)
    as (new_w & new_h & Hscaled & Hnw & Hnh).
  exists new_w, new_h.
  split; [ exact Hscaled | ].
  split; [ exact Hnw | split; [ exact Hnh | ] ].
  split; [ apply Z.div_pos; lia | split; [ apply Z.div_pos; lia | ] ].
  split; [ pose proof (Z.mul_div_le (tw - new_w) 2); lia | ].
  split; [ pose proof (Z.mul_div_le (th - new_h) 2); lia | ].
  intros img pg Hsz Hpg. apply compose_page_shape in Hpg.
  destruct Hpg as (nw & nh & Hs & ->). rewrite Hsz in Hs.
  cbn [fst snd] in Hs. rewrite Hscaled in Hs. now injection Hs as <- <-.
Qed.

(** *** When the composer returns *)

(** The target pixel size of a positive physical size: no exception, and a
    size in the range of [scaled_size_in_range]. *)
Lemma target_px_in_range (pt dpi : Z) :
  72 <= pt * dpi < 72 * 2 ^ 49 ->
  exists t, target_px pt dpi = Ok t /\ 0 < t < 2 ^ 50.
Proof.
  intros [Hlo Hhi]. unfold target_px, Float.int_div_float, Float.of_int.
  assert (HN : (72 <= inject_Z (pt * dpi) <= 40532396646334464)%Q).
  { split.
    - change 72%Q with (inject_Z 72). rewrite <- Zle_Qle. lia.
    - change 40532396646334464%Q with (inject_Z (72 * 2 ^ 49)).
      rewrite <- Zle_Qle. lia. }
  set (N := inject_Z (pt * dpi)) in *.
  destruct (to_float_near N) as (x & -> & Hxlo & Hxhi); [ lra | ].
  cbn [rbind]. change (Qeq_bool 72 0) with false. cbv iota.
  unfold Float.unit_roundoff in *.
  assert (Hq : (72 * (x / 72) == x)%Q) by (apply Qmult_div_r; discriminate).
  set (q := (x / 72)%Q) in *.
  destruct (to_float_near q) as (y & -> & Hylo & Hyhi); [ split; lra | ].
  cbn [rbind]. unfold Float.unit_roundoff in *.
  exists (Float.round_half_even y). split; [ reflexivity | ].
  pose proof (round_half_even_near y) as [Hn1 Hn2].
  split.
  - rewrite Zlt_Qlt. change (inject_Z 0) with 0%Q.
    assert (Hpos : (-1 < Float.round_half_even y)%Z).
    { rewrite Zlt_Qlt. change (inject_Z (-1)) with (-1)%Q. lra. }
    assert (Hne : Float.round_half_even y <> 0).
    { intros H0. rewrite H0 in Hn1. change (inject_Z 0) with 0%Q in Hn1. lra. }
    assert (0 < Float.round_half_even y) by lia.
    now rewrite <- (Zlt_Qlt 0).
  - rewrite Zlt_Qlt. change (inject_Z (2 ^ 50)) with 1125899906842624%Q. lra.
Qed.

Lemma compose_loop_returns (tw th : Z) (images : list Image) :
  0 < tw < 2 ^ 50 -> 0 < th < 2 ^ 50 ->
  Forall (fun img => 0 < fst (size img) < 2 ^ 50
                     /\ 0 < snd (size img) < 2 ^ 50) images ->
  (forall img, pillow_raises img = None) ->
  forall pages,
  exists news,
    compose_loop tw th images pages = Ok (pages ++ news)
    /\ List.length news = List.length images.
Proof.
  intros Htw Hth Himgs Hpil.
  induction Himgs as [ | img images [Hiw Hih] _ IH]; intros pages.
  - exists []. cbn [compose_loop]. now rewrite app_nil_r.
  - cbn [compose_loop]. unfold compose_page.
    destruct (size img) as [iw ih]. cbn [fst snd] in Hiw, Hih.
    destruct (scaled_size_in_range tw th iw ih Htw Hth Hiw Hih)
      as (new_w & new_h & -> & _). cbn [rbind]. unfold pil.
    rewrite !Hpil. cbn [rbind]. rewrite Hpil. cbn [rbind].
    destruct (IH (pages ++ [Pasted (NewRGB tw th white)
                              (Resized img new_w new_h)
                              ((tw - new_w) / 2) ((th - new_h) / 2)]))
      as (news & -> & Hlen).
    eexists (_ :: news). rewrite <- app_assoc. cbn [app List.length].
    split; [ reflexivity | now rewrite Hlen ].
Qed.

(** The composer returns a document for a non-empty list of images when the
    sizes are positive and moderate and neither Pillow nor the encoder
    raises. *)
Lemma compose_returns (images : list Image)
    (target_w_pt target_h_pt dpi jpeg_quality : Z) :
  images <> [] ->
  72 <= target_w_pt * dpi < 72 * 2 ^ 49 ->
  72 <= target_h_pt * dpi < 72 * 2 ^ 49 ->
  Forall (fun img => 0 < fst (size img) < 2 ^ 50
                     /\ 0 < snd (size img) < 2 ^ 50) images ->
  (forall img, pillow_raises img = None) ->
  (forall first options, exists b, save_pdf first options = Ok b) ->
  exists b,
    compose_images_to_target_size images target_w_pt target_h_pt dpi
      jpeg_quality = Ok b.
Proof.
  intros Hne Hw Hh Himgs Hpil Hsave. unfold compose_images_to_target_size.
  destruct (target_px_in_range _ _ Hw) as (tw & -> & Htw).
  destruct (target_px_in_range _ _ Hh) as (th & -> & Hth).
  cbn [rbind].
  destruct (compose_loop_returns tw th images Htw Hth Himgs Hpil [])
    as (news & -> & Hlen).
  cbn [rbind app]. destruct news as [ | first rest].
  - destruct images; [ now contradiction Hne | discriminate Hlen ].
  - apply Hsave.
Qed.

Lemma fmin_near_exact (tw th iw ih : Z) :
  0 < tw < 2 ^ 50 -> 0 < th < 2 ^ 50 ->
  0 < iw < 2 ^ 50 -> 0 < ih < 2 ^ 50 ->
  exists rw rh,
    Float.int_truediv tw iw = Ok rw /\ Float.int_truediv th ih = Ok rh
    /\ (Qmin (inject_Z tw / inject_Z iw) (inject_Z th / inject_Z ih)
        * (1 - Float.unit_roundoff)
        <= Float.fmin rw rh
        <= Qmin (inject_Z tw / inject_Z iw) (inject_Z th / inject_Z ih)
           * (1 + Float.unit_roundoff))%Q.
Proof.
  intros Htw Hth Hiw Hih.
  destruct (int_truediv_near tw iw Htw Hiw) as (rw & Hrw & Hrwlo & Hrwhi).
  destruct (int_truediv_near th ih Hth Hih) as (rh & Hrh & Hrhlo & Hrhhi).
  exists rw, rh. split; [ exact Hrw | split; [ exact Hrh | ] ].
  apply inject_Z_range in Htw, Hth, Hiw, Hih.
  assert (Ha : (inject_Z iw * (inject_Z tw / inject_Z iw) == inject_Z tw)%Q)
    by (apply Qmult_div_r; lra).
  assert (Hb : (inject_Z ih * (inject_Z th / inject_Z ih) == inject_Z th)%Q)
    by (apply Qmult_div_r; lra).
  set (a := (inject_Z tw / inject_Z iw)%Q) in *.
  set (b := (inject_Z th / inject_Z ih)%Q) in *.
  set (TW := inject_Z tw) in *. set (TH := inject_Z th) in *.
  set (IW := inject_Z iw) in *. set (IH := inject_Z ih) in *.
  unfold Float.unit_roundoff in *.
  assert (Hrw' : (a * (1 - (1 # 9007199254740992)) <= rw
                  <= a * (1 + (1 # 9007199254740992)))%Q).
  { split; apply (Qmult_le_l _ _ IW); try lra; nra. }
  assert (Hrh' : (b * (1 - (1 # 9007199254740992)) <= rh
                  <= b * (1 + (1 # 9007199254740992)))%Q).
  { split; apply (Qmult_le_l _ _ IH); try lra; nra. }
  destruct (Q.min_spec a b) as [[Hab ->] | [Hab ->]];
    destruct (fmin_spec rw rh) as [[-> Hle] | [-> Hle]]; split; nra.
Qed.

(** C6: the page [compose_page] builds for an image of size (w, h) is a
    canvas of the target pixel size filled with white, the colour
    (255, 255, 255), on which the image, resized to
    ([round(w * ratio)], [round(h * ratio)]) with the one factor
    [ratio = min(target_w_px / w, target_h_px / h)] for both axes, is pasted
    at the offsets (target - scaled) / 2 rounded down.  Each rounded
    dimension is an integer nearest to the product it rounds; for sizes
    below 2^50 the factor is the exact minimum of the two quotients up to the
    unit roundoff.  A 1000 by 1000 raster with the target 595 by 842 at
    resolution 150 meets a canvas of 1240 by 1754 and is scaled to 1240 by
    1240 and pasted at (0, 257). *)
Theorem compose_page_geometry :
  (forall tw th img pg,
      compose_page tw th img = Ok pg ->
      exists rw rh fw fh,
        Float.int_truediv tw (fst (size img)) = Ok rw
        /\ Float.int_truediv th (snd (size img)) = Ok rh
        /\ Float.int_mul_float (fst (size img)) (Float.fmin rw rh) = Ok fw
        /\ Float.int_mul_float (snd (size img)) (Float.fmin rw rh) = Ok fh
        /\ (Float.fmin rw rh <= rw /\ Float.fmin rw rh <= rh
            /\ (Float.fmin rw rh = rw \/ Float.fmin rw rh = rh))%Q
        /\ (- (1 # 2) <= inject_Z (Float.round_half_even fw) - fw <= 1 # 2)%Q
        /\ (- (1 # 2) <= inject_Z (Float.round_half_even fh) - fh <= 1 # 2)%Q
        /\ exists left top,
             pg = Pasted (NewRGB tw th (255, 255, 255))
                    (Resized img (Float.round_half_even fw)
                       (Float.round_half_even fh)) left top
             /\ 2 * left <= tw - Float.round_half_even fw < 2 * left + 2
             /\ 2 * top <= th - Float.round_half_even fh < 2 * top + 2)
  /\ (forall tw th iw ih,
        0 < tw < 2 ^ 50 -> 0 < th < 2 ^ 50 ->
        0 < iw < 2 ^ 50 -> 0 < ih < 2 ^ 50 ->
        exists rw rh,
          Float.int_truediv tw iw = Ok rw /\ Float.int_truediv th ih = Ok rh
          /\ (Qmin (inject_Z tw / inject_Z iw) (inject_Z th / inject_Z ih)
              * (1 - Float.unit_roundoff)
              <= Float.fmin rw rh
              <= Qmin (inject_Z tw / inject_Z iw) (inject_Z th / inject_Z ih)
                 * (1 + Float.unit_roundoff))%Q)
  /\ (target_px 595 150 = Ok 1240 /\ target_px 842 150 = Ok 1754
      /\ forall pixels pg,
           compose_page 1240 1754 (Raster pixels 1000 1000) = Ok pg ->
           pg = Pasted (NewRGB 1240 1754 (255, 255, 255))
                  (Resized (Raster pixels 1000 1000) 1240 1240) 0 257).
Proof.
  split; [ | split; [ exact fmin_near_exact | ] ].
  - intros tw th img pg Hpg. apply compose_page_shape in Hpg.
    destruct Hpg as (new_w & new_h & Hs & ->). unfold scaled_size in Hs.
    destruct (Float.int_truediv tw (fst (size img))) as [rw | ] eqn:Hrw;
      [ | discriminate ].
    destruct (Float.int_truediv th (snd (size img))) as [rh | ] eqn:Hrh;
      [ | discriminate ].
    cbn [rbind] in Hs.
    destruct (Float.int_mul_float (fst (size img)) (Float.fmin rw rh))
      as [fw | ] eqn:Hfw; [ | discriminate ].
    cbn [rbind] in Hs.
    destruct (Float.int_mul_float (snd (size img)) (Float.fmin rw rh))
      as [fh | ] eqn:Hfh; [ | discriminate ].
    cbn [rbind] in Hs. injection Hs as <- <-.
    exists rw, rh, fw, fh.
    split; [ reflexivity | split; [ reflexivity | ] ].
    split; [ exact Hfw | split; [ exact Hfh | ] ].
    split.
    { destruct (fmin_spec rw rh) as [[-> H] | [-> H]]; repeat split;
        try apply Qle_refl; try exact H; auto. }
    split; [ apply round_half_even_near | ].
    split; [ apply round_half_even_near | ].
    eexists _, _. split; [ reflexivity | ].
    split; [ set (x := tw - Float.round_half_even fw)
           | set (x := th - Float.round_half_even fh) ];
      pose proof (Z.mul_div_le x 2); pose proof (Z.mul_succ_div_gt x 2); lia.
  - split; [ vm_compute; reflexivity | split; [ vm_compute; reflexivity | ] ].
    intros pixels pg Hpg. apply compose_page_shape in Hpg.
    destruct Hpg as (new_w & new_h & Hs & ->). cbn [size fst snd] in Hs.
    vm_compute in Hs. now injection Hs as <- <-.
Qed.

(** ** Further facts about the search loop *)

Lemma quality_row_bounds (d : Z) (n : nat) :
  0 < QUALITY_STEP cfg ->
  forall q p,
    In p (quality_row d q n) ->
    fst p = d /\ q - Z.of_nat n * QUALITY_STEP cfg <= snd p <= q.
Proof.
  intros Hq. induction n as [ | n IH]; intros q p; cbn [quality_row].
  - intros [<- | []]. cbn [fst snd Z.of_nat]. lia.
  - intros [<- | Hin]; [ cbn [fst snd]; nia | ].
    destruct (IH _ _ Hin) as [Hf Hs]. split; [ exact Hf | nia ].
Qed.

Lemma grid_from_bounds (m : nat) :
  0 < DPI_STEP cfg -> 0 < QUALITY_STEP cfg ->
  forall d p,
    In p (grid_from d m) ->
    d - Z.of_nat m * DPI_STEP cfg <= fst p <= d
    /\ START_JPEG_QUALITY cfg
       - Z.of_nat (steps_left (START_JPEG_QUALITY cfg) (MIN_JPEG_QUALITY cfg)
                     (QUALITY_STEP cfg)) * QUALITY_STEP cfg
       <= snd p <= START_JPEG_QUALITY cfg.
Proof.
  intros Hd Hq. induction m as [ | m IH]; intros d p; cbn [grid_from];
    intros Hin; apply in_app_or in Hin; destruct Hin as [Hin | Hin].
  - apply (quality_row_bounds d _ Hq) in Hin. cbn [Z.of_nat]. lia.
  - destruct Hin.
  - apply (quality_row_bounds d _ Hq) in Hin. nia.
  - destruct (IH _ _ Hin) as [Hf Hs]. split; [ nia | exact Hs ].
Qed.

Lemma descent_path_bounds (p : Z * Z) :
  0 < DPI_STEP cfg -> 0 < QUALITY_STEP cfg ->
  MIN_DPI cfg <= START_DPI cfg ->
  MIN_JPEG_QUALITY cfg <= START_JPEG_QUALITY cfg ->
  In p descent_path ->
  MIN_DPI cfg <= fst p <= START_DPI cfg
  /\ MIN_JPEG_QUALITY cfg <= snd p <= START_JPEG_QUALITY cfg.
Proof.
  intros Hd Hq Hsd Hsq Hin. unfold descent_path in Hin.
  apply (grid_from_bounds _ Hd Hq) in Hin. unfold steps_left in Hin.
  rewrite !Z2Nat.id in Hin by (apply Z.div_pos; lia).
  pose proof (Z.mul_div_le (START_DPI cfg - MIN_DPI cfg) _ Hd).
  pose proof (Z.mul_div_le
                (START_JPEG_QUALITY cfg - MIN_JPEG_QUALITY cfg) _ Hq).
  lia.
Qed.

(** X1: with start >= min and positive steps no attempt of a run is made
    outside the configured ranges: every printed attempt, and the pair
    returned with the result, has MIN_DPI <= dpi <= START_DPI and
    MIN_JPEG_QUALITY <= quality <= START_JPEG_QUALITY. *)
Theorem attempts_within_configured_range (path : string) (w : World)
    (fuel : nat) r w' :
  0 < DPI_STEP cfg -> 0 < QUALITY_STEP cfg ->
  MIN_DPI cfg <= START_DPI cfg ->
  MIN_JPEG_QUALITY cfg <= START_JPEG_QUALITY cfg ->
  iterative_compress_to_limit fuel path w = Some (r, w') ->
  (exists new,
      printed w' = printed w ++ new
      /\ Forall (fun t =>
                   MIN_DPI cfg <= try_dpi t <= START_DPI cfg
                   /\ MIN_JPEG_QUALITY cfg <= try_quality t
                      <= START_JPEG_QUALITY cfg) new)
  /\ forall b sz d q,
       r = Ok (b, sz, d, q) ->
       MIN_DPI cfg <= d <= START_DPI cfg
       /\ MIN_JPEG_QUALITY cfg <= q <= START_JPEG_QUALITY cfg.
Proof.
  intros Hd Hq Hsd Hsq Hrun.
  destruct (run_spec path w Hd Hq)
    as (r0 & vpre & last & tl & Hp & Hpre & He & Hr).
  rewrite Hr in Hrun.
  destruct (S (List.length vpre) <=? fuel)%nat; [ | discriminate ].
  injection Hrun as <- <-. split.
  - exists (lines path (vpre ++ [last])). split; [ reflexivity | ].
    destruct (lines_line_of path vpre last Hpre) as (v & Hv & Hor).
    assert (Hin : forall p, In p v -> In p descent_path).
    { intros p Hp'. rewrite Hp.
      destruct Hor as [-> | ->].
      - apply in_or_app. now left.
      - apply in_app_or in Hp'. apply in_or_app.
        destruct Hp' as [Hp' | [<- | []]]; [ now left | right; now left ]. }
    clear Hor. induction Hv as [ | p t v ts [Ht1 Ht2] _ IH]; constructor.
    + rewrite Ht1, Ht2.
      apply (descent_path_bounds p Hd Hq Hsd Hsq). apply Hin. now left.
    + apply IH. intros p' Hp'. apply Hin. now right.
  - intros b sz d q ->. cbn [ended] in He. destruct He as (Hl & _).
    apply (descent_path_bounds (d, q) Hd Hq Hsd Hsq).
    rewrite Hp, Hl. apply in_or_app. right. now left.
Qed.

(** X2: however a run of the search ends (a result within budget, the best
    effort, or an exception of an attempt), the open document handles are
    those it started with, and every attempt opened at most one handle. *)
Theorem search_leaves_no_handle_open (fuel : nat) (path : string) :
  forall (d q : Z) (w : World) r w',
    search_loop fuel path d q w = Some (r, w') ->
    live w' = live w
    /\ (next_handle w <= next_handle w' <= next_handle w + fuel)%nat.
Proof.
  induction fuel as [ | fuel IH]; intros d q w r w' Hrun; [ discriminate | ].
  rewrite search_loop_step in Hrun.
  assert (Hn : (next_handle w <= next_handle (after_render path w)
                <= next_handle w + 1)%nat).
  { unfold after_render. destruct (fitz_open path); cbn [next_handle]; lia. }
  destruct (attempt path d q) as [b | e].
  - cbv zeta in Hrun.
    destruct (len b <=? MAX_TARGET_BYTES cfg).
    + injection Hrun as <- <-. cbn [print_try live next_handle].
      rewrite live_after_render. split; [ reflexivity | lia ].
    + destruct (next_pair (d, q)) as [p' | ].
      * apply IH in Hrun. cbn [print_try live next_handle] in Hrun.
        rewrite live_after_render in Hrun. split; [ apply Hrun | lia ].
      * injection Hrun as <- <-. cbn [print_try live next_handle].
        rewrite live_after_render. split; [ reflexivity | lia ].
  - injection Hrun as <- <-. rewrite live_after_render.
    split; [ reflexivity | lia ].
Qed.

(** X3: with the start quality at least the minimum quality, a quality
    step that is zero or negative never ends the loop on a document that
    stays over the budget: when the attempts at the start resolution and
    the qualities start, start - step, start - 2 step, ... all return bytes
    above the budget, no amount of fuel gives a result. *)
Theorem nonpositive_quality_step_never_returns (path : string) :
  QUALITY_STEP cfg <= 0 ->
  MIN_JPEG_QUALITY cfg <= START_JPEG_QUALITY cfg ->
  (forall k : nat,
      over_budget path
        (START_DPI cfg,
         START_JPEG_QUALITY cfg - Z.of_nat k * QUALITY_STEP cfg)) ->
  forall (fuel : nat) (w : World),
    iterative_compress_to_limit fuel path w = None.
Proof.
  intros Hq Hsq Hover.
  assert (Hloop : forall (fuel k : nat) (w : World),
             search_loop fuel path (START_DPI cfg)
               (START_JPEG_QUALITY cfg - Z.of_nat k * QUALITY_STEP cfg) w
             = None).
  { induction fuel as [ | fuel IH]; intros k w; [ reflexivity | ].
    rewrite search_loop_step.
    destruct (Hover k) as (b & Hb & Hlt). cbn [fst snd] in Hb. rewrite Hb.
    cbv zeta.
    destruct (Z.leb_spec (len b) (MAX_TARGET_BYTES cfg)); [ lia | ].
    unfold next_pair; cbn [fst snd].
    destruct (Z.leb_spec (MIN_JPEG_QUALITY cfg)
                (START_JPEG_QUALITY cfg - Z.of_nat k * QUALITY_STEP cfg
                 - QUALITY_STEP cfg)) as [_ | Hlt']; [ | nia ].
    replace (START_JPEG_QUALITY cfg - Z.of_nat k * QUALITY_STEP cfg
             - QUALITY_STEP cfg)
      with (START_JPEG_QUALITY cfg - Z.of_nat (S k) * QUALITY_STEP cfg)
      by lia.
    apply IH. }
  intros fuel w. unfold iterative_compress_to_limit.
  specialize (Hloop fuel 0%nat w). cbn [Z.of_nat] in Hloop.
  now rewrite Z.mul_0_l, Z.sub_0_r in Hloop.
Qed.

(** With the quality step 0 a pair whose attempt is over the budget is
    attempted again and again: the loop does not end there. *)
Lemma search_loop_never_ends (fuel : nat) (path : string) (d q : Z)
    (w : World) :
  QUALITY_STEP cfg = 0 -> MIN_JPEG_QUALITY cfg <= q ->
  over_budget path (d, q) ->
  search_loop fuel path d q w = None.
Proof.
  intros Hq Hm (b & Hb & Hlt). cbn [fst snd] in Hb. revert w.
  induction fuel as [ | fuel IH]; intros w; [ reflexivity | ].
  rewrite search_loop_step, Hb. cbv zeta.
  destruct (Z.leb_spec (len b) (MAX_TARGET_BYTES cfg)); [ lia | ].
  unfold next_pair; cbn [fst snd]. rewrite Hq, Z.sub_0_r.
  destruct (Z.leb_spec (MIN_JPEG_QUALITY cfg) q); [ | lia ].
  cbn [fst snd]. apply IH.
Qed.

(** ** Further facts about the rasterizer *)

Lemma render_loop_images (doc : Document) (dpi : Z) (ps : list nat) :
  forall images out,
    render_loop doc dpi ps images = Ok out ->
    exists news,
      out = images ++ news
      /\ Forall2 (fun p img =>
                    exists page zoom,
                      load_page doc p = Ok page
                      /\ Float.int_div_float dpi 72 = Ok zoom
                      /\ get_image page zoom = Ok img) ps news.
Proof.
  induction ps as [ | p ps IH]; intros images out; cbn [render_loop].
  - intros [= <-]. exists []. split; [ now rewrite app_nil_r | constructor ].
  - destruct (load_page doc p) as [page | ] eqn:Hpage; [ | discriminate ].
    cbn [rbind].
    destruct (Float.int_div_float dpi 72) as [zoom | ] eqn:Hzoom;
      [ | discriminate ].
    cbn [rbind].
    destruct (get_image page zoom) as [img | ] eqn:Himg; [ | discriminate ].
    cbn [rbind]. intros H. apply IH in H. destruct H as (news & -> & Hn).
    exists (img :: news). split; [ now rewrite <- app_assoc | ].
    constructor; [ now exists page, zoom | exact Hn ].
Qed.

(** X4: when [render_pages_to_images] returns, it returns exactly one image
    for every page of the document, in page order, each the image of that
    page under the zoom factor dpi / 72.0; a page that cannot be loaded or
    decoded makes the whole call raise, so a shorter list is never
    returned. *)
Theorem render_one_image_per_page (path : string) (dpi : Z) (w : World)
    (images : list Image) :
  fst (render_pages_to_images path dpi w) = Ok images ->
  exists doc,
    fitz_open path = Ok doc
    /\ List.length images = page_count doc
    /\ Forall2 (fun p img =>
                  exists page zoom,
                    load_page doc p = Ok page
                    /\ Float.int_div_float dpi 72 = Ok zoom
                    /\ get_image page zoom = Ok img)
         (seq 0 (page_count doc)) images.
Proof.
  rewrite render_run. cbn [fst]. unfold rendered.
  destruct (fitz_open path) as [doc | ]; [ | discriminate ].
  cbn [rbind]. intros H. apply render_loop_images in H.
  destruct H as (news & -> & Hn). cbn [app] in *.
  exists doc. split; [ reflexivity | split; [ | exact Hn ] ].
  apply Forall2_length in Hn. now rewrite length_seq in Hn.
Qed.

(** ** Further facts about the composer *)

Lemma compose_loop_raises (tw th : Z) (pre : list Image) (img : Image)
    (post : list Image) (e : exn) :
  Forall (fun i => exists pg, compose_page tw th i = Ok pg) pre ->
  compose_page tw th img = Raise e ->
  forall pages, compose_loop tw th (pre ++ img :: post) pages = Raise e.
Proof.
  intros Hpre Himg. induction Hpre as [ | i pre (pg & Hpg) _ IH];
    intros pages; cbn [app compose_loop].
  - now rewrite Himg.
  - rewrite Hpg. cbn [rbind]. apply IH.
Qed.

(** X5: an image whose width is 0, or whose height is 0 while the width
    quotient can be computed, makes [compose_images_to_target_size] raise
    ZeroDivisionError when the images before it were composed; the encoder
    is not reached and no document is returned. *)
Theorem compose_zero_size_raises (pre : list Image) (img : Image)
    (post : list Image) (target_w_pt target_h_pt dpi jpeg_quality tw th : Z) :
  target_px target_w_pt dpi = Ok tw ->
  target_px target_h_pt dpi = Ok th ->
  Forall (fun i => exists pg, compose_page tw th i = Ok pg) pre ->
  fst (size img) = 0
  \/ (snd (size img) = 0
      /\ exists rw, Float.int_truediv tw (fst (size img)) = Ok rw) ->
  compose_images_to_target_size (pre ++ img :: post) target_w_pt target_h_pt
    dpi jpeg_quality
  = Raise ZeroDivisionError.
Proof.
  intros Htw Hth Hpre Hzero. unfold compose_images_to_target_size.
  rewrite Htw, Hth. cbn [rbind].
  rewrite (compose_loop_raises tw th pre img post ZeroDivisionError Hpre);
    [ reflexivity | ].
  unfold compose_page, scaled_size. destruct (size img) as [iw ih].
  cbn [fst snd] in Hzero.
  destruct Hzero as [-> | [-> [rw Hrw]]].
  - reflexivity.
  - rewrite Hrw. reflexivity.
Qed.

Local Open Scope Q_scope.

Lemma round_half_even_exact (f : Q) (n : Z) :
  inject_Z n - (1 # 2) < f < inject_Z n + (1 # 2) ->
  Float.round_half_even f = n.
Proof.
  intros [Hlo Hhi]. pose proof (round_half_even_near f) as [Hn1 Hn2].
  assert (H1 : (Float.round_half_even f < n + 1)%Z).
  { rewrite Zlt_Qlt, inject_Z_plus. change (inject_Z 1) with 1. lra. }
  assert (H2 : (n - 1 < Float.round_half_even f)%Z).
  { rewrite Zlt_Qlt. replace (n - 1)%Z with (n + -1)%Z by lia.
    rewrite inject_Z_plus. change (inject_Z (-1)) with (-1 # 1). lra. }
  lia.
Qed.

(** The axis whose quotient is the ratio is filled exactly. *)
Lemma scaled_axis_exact (t n : Z) (rt : Q) :
  (0 < t < 2 ^ 50)%Z -> (0 < n < 2 ^ 50)%Z ->
  inject_Z t * (1 - Float.unit_roundoff) <= inject_Z n * rt
  <= inject_Z t * (1 + Float.unit_roundoff) ->
  exists f,
    Float.int_mul_float n rt = Ok f /\ Float.round_half_even f = t.
Proof.
  intros Ht Hn [Hlo Hhi].
  apply inject_Z_range in Ht as HT. apply inject_Z_range in Hn as HN.
  unfold Float.unit_roundoff in *.
  assert (Hrt : (1 # 2251799813685248) <= rt) by nra.
  destruct (int_mul_float_near n rt Hn Hrt) as (f & Hf & Hflo & Hfhi);
    [ lra | ].
  exists f. split; [ exact Hf | ].
  unfold Float.unit_roundoff in *.
  set (T := inject_Z t) in *. set (N := inject_Z n) in *.
  set (y := N * rt) in *.
  apply round_half_even_exact. fold T. split; nra.
Qed.

Local Close Scope Q_scope.

(** X6: for a raster and a canvas with dimensions below 2^50 the scaled
    image fills the canvas exactly along at least one axis (its width is the
    canvas width or its height the canvas height), and it is centred: on
    each axis the margin after the image is the margin before it, or one
    pixel more. *)
Theorem scaled_image_fills_one_axis (tw th iw ih : Z) :
  0 < tw < 2 ^ 50 -> 0 < th < 2 ^ 50 ->
  0 < iw < 2 ^ 50 -> 0 < ih < 2 ^ 50 ->
  exists new_w new_h,
    scaled_size tw th iw ih = Ok (new_w, new_h)
    /\ (new_w = tw \/ new_h = th)
    /\ 0 <= (tw - new_w - (tw - new_w) / 2) - (tw - new_w) / 2 <= 1
    /\ 0 <= (th - new_h - (th - new_h) / 2) - (th - new_h) / 2 <= 1.
Proof.
  intros Htw Hth Hiw Hih.
  assert (Hmargin : forall x, 0 <= x - x / 2 - x / 2 <= 1).
  { intros x. pose proof (Z.mul_div_le x 2).
    pose proof (Z.mul_succ_div_gt x 2). lia. }
  unfold scaled_size.
  destruct (int_truediv_near tw iw Htw Hiw) as (rw & Hrw & Hrwlo & Hrwhi).
  destruct (int_truediv_near th ih Hth Hih) as (rh & Hrh & Hrhlo & Hrhhi).
  rewrite Hrw, Hrh. cbn [rbind].
  assert (Hrwmin : ((1 # 2251799813685248) <= rw)%Q).
  { pose proof (inject_Z_range _ Htw). pose proof (inject_Z_range _ Hiw).
    unfold Float.unit_roundoff in *. nra. }
  assert (Hrhmin : ((1 # 2251799813685248) <= rh)%Q).
  { pose proof (inject_Z_range _ Hth). pose proof (inject_Z_range _ Hih).
    unfold Float.unit_roundoff in *. nra. }
  destruct (fmin_spec rw rh) as [[-> Hle] | [-> Hle]].
  - destruct (scaled_axis_exact tw iw rw Htw Hiw (conj Hrwlo Hrwhi))
      as (fw & -> & Hfw).
    destruct (scaled_axis_fits th ih rh rw Hth Hih Hrhhi Hrwmin Hle)
      as (fh & -> & _).
    cbn [rbind]. eexists _, _. split; [ reflexivity | ].
    split; [ now left | split; apply Hmargin ].
  - destruct (scaled_axis_fits tw iw rw rh Htw Hiw Hrwhi Hrhmin Hle)
      as (fw & -> & _).
    destruct (scaled_axis_exact th ih rh Hth Hih (conj Hrhlo Hrhhi))
      as (fh & -> & Hfh).
    cbn [rbind]. eexists _, _. split; [ reflexivity | ].
    split; [ now right | split; apply Hmargin ].
Qed.

Local Open Scope Q_scope.

(** The rounded product is within four fifths of a pixel of the exact
    product of the dimension and the ratio. *)
Lemma scaled_axis_near (t n : Z) (rt ratio : Q) :
  (0 < t < 2 ^ 50)%Z -> (0 < n < 2 ^ 50)%Z ->
  inject_Z n * rt <= inject_Z t * (1 + Float.unit_roundoff) ->
  (1 # 2251799813685248) <= ratio -> ratio <= rt ->
  exists f,
    Float.int_mul_float n ratio = Ok f
    /\ - (4 # 5) <= inject_Z (Float.round_half_even f) - inject_Z n * ratio
       <= 4 # 5.
Proof.
  intros Ht Hn Hrt Hlo Hle.
  apply inject_Z_range in Ht as HT. apply inject_Z_range in Hn as HN.
  unfold Float.unit_roundoff in *.
  assert (Hprod : inject_Z n * ratio
                  <= inject_Z t * (1 + (1 # 9007199254740992))) by nra.
  destruct (int_mul_float_near n ratio Hn Hlo) as (f & Hf & Hflo & Hfhi);
    [ lra | ].
  exists f. split; [ exact Hf | ].
  unfold Float.unit_roundoff in *.
  pose proof (round_half_even_near f) as [Hr1 Hr2].
  assert (Hpos : 0 <= inject_Z n * ratio) by nra.
  set (X := inject_Z n * ratio) in *.
  set (T := inject_Z t) in *.
  split; lra.
Qed.

Local Close Scope Q_scope.

(** X24: for a raster and a canvas with dimensions below 2^50 the scaled
    image keeps the proportions of the raster to the pixel: the cross
    products of the two sizes differ by at most one width plus one height
    ([new_w] and [new_h] are each within a pixel of the raster's width and
    height times one common ratio). *)
Theorem scaled_image_keeps_proportions (tw th iw ih : Z) :
  0 < tw < 2 ^ 50 -> 0 < th < 2 ^ 50 ->
  0 < iw < 2 ^ 50 -> 0 < ih < 2 ^ 50 ->
  exists new_w new_h,
    scaled_size tw th iw ih = Ok (new_w, new_h)
    /\ Z.abs (new_w * ih - new_h * iw) <= iw + ih.
Proof.
  intros Htw Hth Hiw Hih.
  unfold scaled_size.
  destruct (int_truediv_near tw iw Htw Hiw) as (rw & Hrw & Hrwlo & Hrwhi).
  destruct (int_truediv_near th ih Hth Hih) as (rh & Hrh & Hrhlo & Hrhhi).
  rewrite Hrw, Hrh. cbn [rbind].
  assert (Hrwmin : ((1 # 2251799813685248) <= rw)%Q).
  { pose proof (inject_Z_range _ Htw). pose proof (inject_Z_range _ Hiw).
    unfold Float.unit_roundoff in *. nra. }
  assert (Hrhmin : ((1 # 2251799813685248) <= rh)%Q).
  { pose proof (inject_Z_range _ Hth). pose proof (inject_Z_range _ Hih).
    unfold Float.unit_roundoff in *. nra. }
  assert (Hmin : ((1 # 2251799813685248) <= Float.fmin rw rh)%Q).
  { destruct (fmin_spec rw rh) as [[-> _] | [-> _]]; assumption. }
  assert (Hlew : (Float.fmin rw rh <= rw)%Q).
  { destruct (fmin_spec rw rh) as [[-> H] | [-> H]];
      [ apply Qle_refl | exact H ]. }
  assert (Hleh : (Float.fmin rw rh <= rh)%Q).
  { destruct (fmin_spec rw rh) as [[-> H] | [-> H]];
      [ exact H | apply Qle_refl ]. }
  destruct (scaled_axis_near tw iw rw _ Htw Hiw Hrwhi Hmin Hlew)
    as (fw & -> & Hw1 & Hw2).
  destruct (scaled_axis_near th ih rh _ Hth Hih Hrhhi Hmin Hleh)
    as (fh & -> & Hh1 & Hh2).
  cbn [rbind]. eexists _, _. split; [ reflexivity | ].
  set (r := Float.fmin rw rh) in *.
  set (nw := Float.round_half_even fw) in *.
  set (nh := Float.round_half_even fh) in *.
  pose proof (inject_Z_range _ Hiw) as HW.
  pose proof (inject_Z_range _ Hih) as HH.
  assert (Hq : (- (inject_Z iw + inject_Z ih)
                <= inject_Z nw * inject_Z ih - inject_Z nh * inject_Z iw
                <= inject_Z iw + inject_Z ih)%Q).
  { set (W := inject_Z iw) in *. set (H := inject_Z ih) in *.
    set (a := inject_Z nw) in *. set (b := inject_Z nh) in *.
    split; nra. }
  destruct Hq as [Hq1 Hq2].
  rewrite <- !inject_Z_mult, <- inject_Z_plus in Hq1, Hq2.
  rewrite <- inject_Z_opp in Hq1.
  unfold Qminus in Hq1, Hq2.
  rewrite <- inject_Z_opp, <- inject_Z_plus in Hq1, Hq2.
  rewrite <- Zle_Qle in Hq1, Hq2.
  lia.
Qed.

End Core.

(** ** The budget *)

(** A configuration with another value of [MAX_TARGET_BYTES]. *)
Definition with_budget (cfg : Config) (budget : Z) : Config :=
  {| MAX_TARGET_BYTES := budget;
     TARGET_WIDTH_PT := TARGET_WIDTH_PT cfg;
     TARGET_HEIGHT_PT := TARGET_HEIGHT_PT cfg;
     START_DPI := START_DPI cfg; MIN_DPI := MIN_DPI cfg;
     START_JPEG_QUALITY := START_JPEG_QUALITY cfg;
     MIN_JPEG_QUALITY := MIN_JPEG_QUALITY cfg;
     DPI_STEP := DPI_STEP cfg; QUALITY_STEP := QUALITY_STEP cfg |}.

Section Budgets.

Variable Document Page : Type.
Variable fitz_open : string -> result Document.
Variable page_count : Document -> nat.
Variable load_page : Document -> nat -> result Page.
Variable get_image : Page -> Q -> result Image.
Variable pillow_raises : Image -> option exn.
Variable save_pdf : Image -> SaveOptions -> result bytes.

Local Abbreviation search cfg :=
  (search_loop Document Page fitz_open page_count load_page get_image
     pillow_raises save_pdf cfg).

(** The search only adds lines to what is printed. *)
Lemma search_loop_printed_grows (cfg : Config) (fuel : nat) (path : string) :
  forall (d q : Z) (w : World) r w1,
    search cfg fuel path d q w = Some (r, w1) ->
    exists rest, printed w1 = printed w ++ rest.
Proof.
  induction fuel as [ | fuel IH]; intros d q w r w1; [ discriminate | ].
  rewrite search_loop_step.
  destruct (attempt _ _ _ _ _ _ _ _ _ _ _ _) as [b | e].
  2: { intros [= <- <-]. exists []. rewrite printed_after_render.
       now rewrite app_nil_r. }
  cbv zeta.
  assert (Hstop : printed (print_try d q (len b)
                             (after_render Document fitz_open path w))
                  = printed w ++ [mkTry d q (len b)]).
  { cbn [print_try printed]. now rewrite printed_after_render. }
  destruct (len b <=? MAX_TARGET_BYTES cfg).
  - intros [= <- <-]. eexists. exact Hstop.
  - destruct (next_pair cfg (d, q)) as [p' | ].
    + intros Hrun. apply IH in Hrun. destruct Hrun as [rest ->].
      rewrite Hstop, <- app_assoc. eexists. reflexivity.
    + intros [= <- <-]. eexists. exact Hstop.
Qed.

(** X25: a larger budget never costs more attempts.  When the search ends
    under a budget, it ends under every larger budget too, with the same
    fuel, and the attempts it prints there are the first of the attempts
    printed under the smaller budget: the same pairs with the same sizes, in
    the same order. *)
Theorem larger_budget_ends_sooner (cfg : Config) (budget : Z) (fuel : nat)
    (path : string) :
  MAX_TARGET_BYTES cfg <= budget ->
  forall (d q : Z) (w : World) r w1,
    search cfg fuel path d q w = Some (r, w1) ->
    exists r' w1' rest,
      search (with_budget cfg budget) fuel path d q w = Some (r', w1')
      /\ printed w1 = printed w1' ++ rest.
Proof.
  intros Hb.
  induction fuel as [ | fuel IH]; intros d q w r w1; [ discriminate | ].
  rewrite !search_loop_step.
  change (attempt Document Page fitz_open page_count load_page get_image
            pillow_raises save_pdf (with_budget cfg budget) path d q)
    with (attempt Document Page fitz_open page_count load_page get_image
            pillow_raises save_pdf cfg path d q).
  change (next_pair (with_budget cfg budget) (d, q))
    with (next_pair cfg (d, q)).
  destruct (attempt _ _ _ _ _ _ _ _ _ _ _ _) as [b | e].
  2: { intros [= <- <-]. eexists _, _, []. split; [ reflexivity | ].
       now rewrite app_nil_r. }
  cbv zeta. cbn [MAX_TARGET_BYTES with_budget].
  destruct (Z.leb_spec (len b) (MAX_TARGET_BYTES cfg)) as [Hfit | Hover].
  - destruct (Z.leb_spec (len b) budget); [ | lia ].
    intros [= <- <-]. eexists _, _, []. split; [ reflexivity | ].
    now rewrite app_nil_r.
  - destruct (Z.leb_spec (len b) budget) as [Hfit' | Hover'].
    + (* the larger budget stops here, the smaller one goes on *)
      intros Hrun.
      destruct (next_pair cfg (d, q)) as [p' | ].
      * destruct (search_loop_printed_grows _ _ _ _ _ _ _ _ Hrun)
          as [rest ->].
        eexists _, _, rest. split; reflexivity.
      * injection Hrun as _ <-. eexists _, _, []. split; [ reflexivity | ].
        now rewrite app_nil_r.
    + destruct (next_pair cfg (d, q)) as [p' | ].
      * apply IH.
      * intros [= <- <-]. eexists _, _, []. split; [ reflexivity | ].
        now rewrite app_nil_r.
Qed.

End Budgets.

(** ** Sheet columns, file names and Drive links: what the code guarantees *)

(** Boolean tests on character codes, decided by linear arithmetic. *)
Ltac code_arith :=
  cbv beta zeta in *;
  repeat rewrite ?orb_false_r in *;
  repeat rewrite ?orb_true_iff, ?orb_false_iff, ?andb_true_iff,
    ?andb_false_iff, ?negb_true_iff, ?negb_false_iff,
    ?Z.leb_le, ?Z.leb_gt, ?Z.eqb_eq, ?Z.eqb_neq in *;
  lia.

Section Names.

Local Open Scope string_scope.

Lemma append_nil_r (s : string) : s ++ "" = s.
Proof. induction s as [ | c s IH]; cbn; [ reflexivity | now rewrite IH ]. Qed.

Lemma append_assoc (a b c : string) : (a ++ b) ++ c = a ++ (b ++ c).
Proof. induction a as [ | x a IH]; cbn; [ reflexivity | now rewrite IH ]. Qed.

Lemma length_append (a b : string) :
  String.length (a ++ b) = (String.length a + String.length b)%nat.
Proof. induction a as [ | x a IH]; cbn; [ reflexivity | now rewrite IH ]. Qed.

Lemma chars_append (a b : string) :
  list_ascii_of_string (a ++ b)
  = (list_ascii_of_string a ++ list_ascii_of_string b)%list.
Proof. induction a as [ | x a IH]; cbn; [ reflexivity | now rewrite IH ]. Qed.

(** *** Column letters *)

(** The number a string of column letters stands for: bijective base 26. *)
Fixpoint column_index_from (acc : Z) (s : string) : Z :=
  match s with
  | EmptyString => acc
  | String c r => column_index_from (acc * 26 + (Str.ord c - 64)) r
  end.

Definition column_index (s : string) : Z := column_index_from 0 s.

Definition is_upper (c : ascii) : Prop := 65 <= Str.ord c <= 90.

Lemma column_index_from_acc (s : string) :
  forall acc,
    column_index_from acc s
    = acc * 26 ^ Z.of_nat (String.length s) + column_index s.
Proof.
  unfold column_index. induction s as [ | c s IH]; intros acc.
  - cbn. lia.
  - cbn [column_index_from String.length]. rewrite IH, (IH (0 * 26 + _)).
    rewrite Nat2Z.inj_succ, Z.pow_succ_r by lia. ring.
Qed.

Lemma ord_chr_letter (rem : Z) :
  0 <= rem < 26 -> Str.ord (Str.chr (65 + rem)) = 65 + rem.
Proof.
  intros H. unfold Str.ord, Str.chr.
  rewrite N_ascii_embedding; [ lia | ].
  change 256%N with (Z.to_N 256). apply Z2N.inj_lt; lia.
Qed.

(** The loop from [idx] prepends the letters of [idx] to the accumulator and
    takes one turn for each letter and one to leave. *)
Lemma col_letter_loop_spec (n : nat) :
  forall idx,
    (Z.to_nat idx <= n)%nat ->
    exists t,
      Forall is_upper (list_ascii_of_string t)
      /\ (t = "" <-> idx <= 0)
      /\ (0 <= idx -> column_index t = idx)
      /\ forall fuel acc,
           col_letter_loop fuel idx acc
           = if (String.length t <? fuel)%nat then Some (t ++ acc) else None.
Proof.
  assert (Hstop : forall idx, idx <= 0 ->
            exists t,
              Forall is_upper (list_ascii_of_string t)
              /\ (t = "" <-> idx <= 0)
              /\ (0 <= idx -> column_index t = idx)
              /\ forall fuel acc,
                   col_letter_loop fuel idx acc
                   = if (String.length t <? fuel)%nat
                     then Some (t ++ acc) else None).
  { intros idx Hle. exists "".
    split; [ constructor | ]. split; [ tauto | ].
    split; [ intros H0; cbn; lia | ].
    intros [ | fuel] acc; [ reflexivity | ]. cbn [col_letter_loop].
    destruct (Z.ltb_spec 0 idx); [ lia | reflexivity ]. }
  induction n as [ | n IH]; intros idx Hn.
  - apply Hstop. lia.
  - destruct (Z_lt_le_dec 0 idx) as [Hpos | Hle]; [ | now apply Hstop ].
    assert (Hq : 0 <= (idx - 1) / 26) by (apply Z.div_pos; lia).
      assert (Hlt : (idx - 1) / 26 < idx).
      { apply Z.div_lt_upper_bound; lia. }
      pose proof (Z.mod_pos_bound (idx - 1) 26 ltac:(lia)) as Hrem.
      pose proof (Z.div_mod (idx - 1) 26 ltac:(lia)) as Hdm.
      destruct (IH ((idx - 1) / 26)) as (t & Hup & Hemp & Hval & Hloop);
        [ lia | ].
      exists (t ++ String (Str.chr (65 + (idx - 1) mod 26)) "").
      split; [ | split; [ | split ] ].
      * rewrite chars_append. apply Forall_app. split; [ exact Hup | ].
        constructor; [ | constructor ].
        unfold is_upper. rewrite ord_chr_letter by lia. lia.
      * split; [ intros H | lia ]. apply (f_equal String.length) in H.
        rewrite length_append in H. cbn in H. lia.
      * intros _. unfold column_index.
        assert (Happ : forall a u v,
                   column_index_from a (u ++ v)
                   = column_index_from (column_index_from a u) v).
        { intros a u. revert a. induction u as [ | c u IHu]; intros a v;
            cbn; [ reflexivity | apply IHu ]. }
        rewrite Happ. fold (column_index t). rewrite (Hval Hq).
        cbn [column_index_from]. rewrite ord_chr_letter by lia. lia.
      * intros [ | fuel] acc; [ reflexivity | ].
        cbn [col_letter_loop].
        destruct (Z.ltb_spec 0 idx); [ | lia ].
        cbv zeta. rewrite Hloop, length_append, append_assoc.
        cbn [String.length append].
        replace (String.length t + 1)%nat with (S (String.length t)) by lia.
        reflexivity.
Qed.

(** X7: [col_letter] ends for every index: it takes one turn of the loop
    for each letter and one more, the result holds capital letters A to Z
    only, and it is the empty string exactly for an index that is zero or
    negative. *)
Theorem col_letter_letters (idx : Z) :
  exists s,
    (forall fuel,
        col_letter fuel idx
        = if (String.length s <? fuel)%nat then Some s else None)
    /\ Forall is_upper (list_ascii_of_string s)
    /\ (s = "" <-> idx <= 0).
Proof.
  destruct (col_letter_loop_spec (Z.to_nat idx) idx (le_n _))
    as (t & Hup & Hemp & _ & Hloop).
  exists t. split; [ | split; assumption ].
  intros fuel. unfold col_letter. rewrite Hloop. now rewrite append_nil_r.
Qed.

(** X8: the letters of a column determine the column: read as a number in
    bijective base 26 (A = 1, ..., Z = 26) they give the index back, so two
    different positive indexes never get the same letters. *)
Theorem col_letter_round_trip (fuel : nat) (idx : Z) (s : string) :
  0 <= idx -> col_letter fuel idx = Some s ->
  column_index s = idx
  /\ forall fuel' idx',
       0 <= idx' -> col_letter fuel' idx' = Some s -> idx' = idx.
Proof.
  assert (Hrt : forall f i t, 0 <= i -> col_letter f i = Some t ->
                              column_index t = i).
  { intros f i t Hi Hc.
    destruct (col_letter_loop_spec (Z.to_nat i) i (le_n _))
      as (u & _ & _ & Hval & Hloop).
    unfold col_letter in Hc. rewrite Hloop, append_nil_r in Hc.
    destruct (String.length u <? f)%nat; [ | discriminate ].
    injection Hc as <-. now apply Hval. }
  intros Hidx Hc. split; [ now apply (Hrt fuel) | ].
  intros fuel' idx' Hidx' Hc'.
  rewrite <- (Hrt fuel idx s Hidx Hc). symmetry. now apply (Hrt fuel').
Qed.

Lemma column_index_bounds (s : string) :
  Forall is_upper (list_ascii_of_string s) ->
  26 ^ Z.of_nat (String.length s) - 1 <= 25 * column_index s
  <= 26 ^ (Z.of_nat (String.length s) + 1) - 26.
Proof.
  induction s as [ | c s IH]; intros Hup.
  - cbn. lia.
  - cbn [list_ascii_of_string] in Hup. inversion Hup as [ | ? ? Hc Hs]; subst.
    specialize (IH Hs). unfold column_index. cbn [column_index_from].
    rewrite column_index_from_acc. cbn [String.length].
    rewrite Nat2Z.inj_succ.
    rewrite !Z.pow_add_r, !Z.pow_succ_r in * by lia.
    unfold is_upper in Hc.
    assert (0 < 26 ^ Z.of_nat (String.length s)) by (apply Z.pow_pos_nonneg; lia).
    nia.
Qed.

(** X9: the number of letters grows with the index as in a spreadsheet: an
    index with k letters lies between (26^k - 1)/25 and 26 (26^k - 1)/25,
    which is 1..26 for one letter, 27..702 for two and 703..18278 for
    three. *)
Theorem col_letter_length (fuel : nat) (idx : Z) (s : string) :
  0 <= idx -> col_letter fuel idx = Some s ->
  26 ^ Z.of_nat (String.length s) - 1 <= 25 * idx
  <= 26 ^ (Z.of_nat (String.length s) + 1) - 26.
Proof.
  intros Hidx Hc.
  destruct (col_letter_loop_spec (Z.to_nat idx) idx (le_n _))
    as (u & Hup & _ & Hval & Hloop).
  unfold col_letter in Hc. rewrite Hloop, append_nil_r in Hc.
  destruct (String.length u <? fuel)%nat; [ | discriminate ].
  injection Hc as <-. rewrite <- (Hval Hidx).
  now apply column_index_bounds.
Qed.

(** *** File names *)

Definition chars (s : string) : list ascii := list_ascii_of_string s.

Lemma of_uint_digits (d : Decimal.uint) :
  Forall (fun c => 48 <= Str.ord c <= 57) (chars (NilEmpty.string_of_uint d)).
Proof.
  induction d; cbn; constructor; try assumption; cbv; split; discriminate.
Qed.

(** [str(n)] is not empty and holds digits and the minus sign only. *)
Lemma of_int_chars (n : Z) :
  Str.of_int n <> ""
  /\ Forall (fun c => 48 <= Str.ord c <= 57 \/ Str.ord c = 45)
       (chars (Str.of_int n)).
Proof.
  unfold Str.of_int.
  assert (Hu : forall d, NilZero.string_of_uint d <> ""
                         /\ Forall (fun c => 48 <= Str.ord c <= 57)
                              (chars (NilZero.string_of_uint d))).
  { intros d. unfold NilZero.string_of_uint.
    destruct d; try (split; [ discriminate | apply (of_uint_digits (_ _)) ]).
    split; [ discriminate | ].
    constructor; [ cbv; split; discriminate | constructor ]. }
  destruct (Z.to_int n) as [d | d]; cbn [NilZero.string_of_int];
    destruct (Hu d) as [Hne Hd].
  - split; [ exact Hne | ].
    eapply Forall_impl; [ | exact Hd ]. intros c Hc. now left.
  - split; [ discriminate | ].
    constructor; [ right; reflexivity | ].
    eapply Forall_impl; [ | exact Hd ]. intros c Hc. now left.
Qed.

Lemma sub_forbidden_clean (s : string) :
  Forall (fun c => forbidden c = false) (chars (sub_forbidden s)).
Proof.
  induction s as [ | c s IH]; unfold chars in *;
    cbn [sub_forbidden list_ascii_of_string]; constructor; [ | exact IH ].
  destruct (forbidden c) eqn:H; [ reflexivity | exact H ].
Qed.

Lemma sub_forbidden_id (s : string) :
  Forall (fun c => forbidden c = false) (chars s) -> sub_forbidden s = s.
Proof.
  induction s as [ | c s IH]; unfold chars in *;
    cbn [sub_forbidden list_ascii_of_string]; intros H; [ reflexivity | ].
  inversion H as [ | ? ? Hc Hs]; subst. now rewrite Hc, IH.
Qed.

Lemma endswith_refl (s : string) : Str.endswith s s = true.
Proof. destruct s; cbn [Str.endswith]; now rewrite String.eqb_refl. Qed.

Lemma endswith_append (a b : string) : Str.endswith (a ++ b) b = true.
Proof.
  induction a as [ | c a IH]; cbn [append]; [ apply endswith_refl | ].
  cbn [Str.endswith]. rewrite IH. now destruct (String.eqb _ _).
Qed.

Lemma endswith_suffix (s suf : string) :
  Str.endswith s suf = true -> exists pre, s = pre ++ suf.
Proof.
  induction s as [ | c s IH]; cbn [Str.endswith].
  - destruct (String.eqb_spec "" suf) as [<- | ]; [ | discriminate ].
    now exists "".
  - destruct (String.eqb_spec (String c s) suf) as [<- | ].
    + now exists "".
    + intros H. destruct (IH H) as [pre ->]. now exists (String c pre).
Qed.

Lemma lower_append (a b : string) :
  Str.lower (a ++ b) = Str.lower a ++ Str.lower b.
Proof.
  induction a as [ | c a IH]; cbn [append Str.lower];
    [ reflexivity | now rewrite IH ].
Qed.

(** Every character of the result is a legal file name character. *)
Lemma safe_filename_chars (now : Z) (s : string) :
  Forall (fun c => forbidden c = false) (chars (safe_filename now s)).
Proof.
  unfold safe_filename. cbv zeta.
  set (t := sub_forbidden _).
  pose proof (sub_forbidden_clean
                match Str.strip s with
                | "" => "pdf_" ++ Str.of_int now
                | String _ _ => Str.strip s
                end) as Ht.
  fold t in Ht.
  destruct (Str.endswith (Str.lower t) ".pdf"); [ exact Ht | ].
  unfold chars in *. rewrite chars_append. apply Forall_app.
  split; [ exact Ht | ]. repeat constructor.
Qed.

Lemma safe_filename_pdf (now : Z) (s : string) :
  Str.endswith (Str.lower (safe_filename now s)) ".pdf" = true.
Proof.
  unfold safe_filename. cbv zeta. set (t := sub_forbidden _).
  destruct (Str.endswith (Str.lower t) ".pdf") eqn:H; [ exact H | ].
  rewrite lower_append. apply endswith_append.
Qed.

Lemma safe_filename_nonempty (now : Z) (s : string) :
  safe_filename now s <> "".
Proof.
  intros H. pose proof (safe_filename_pdf now s) as Hp. rewrite H in Hp.
  discriminate Hp.
Qed.

(** X10: the name [safe_filename] returns always ends in .pdf (in any
    letter case), is never empty, and holds none of the characters
    backslash, slash, star, question mark, colon, double quote, less than,
    greater than and bar. *)
Theorem safe_filename_is_safe (now : Z) (s : string) :
  Str.endswith (Str.lower (safe_filename now s)) ".pdf" = true
  /\ safe_filename now s <> ""
  /\ Forall (fun c => forbidden c = false) (chars (safe_filename now s)).
Proof.
  split; [ apply safe_filename_pdf | ].
  split; [ apply safe_filename_nonempty | apply safe_filename_chars ].
Qed.

(** Strings with no white space at either end. *)
Definition trimmed (s : string) : Prop := Str.lstrip s = s /\ Str.rstrip s = s.

Lemma rstrip_cons (c : ascii) (r : string) :
  Str.rstrip (String c r)
  = match Str.rstrip r with
    | "" => if Str.isspace c then "" else String c ""
    | String _ _ => String c (Str.rstrip r)
    end.
Proof. cbn [Str.rstrip]. now destruct (Str.rstrip r). Qed.

Lemma rstrip_idem (s : string) : Str.rstrip (Str.rstrip s) = Str.rstrip s.
Proof.
  induction s as [ | c s IH]; [ reflexivity | ].
  rewrite rstrip_cons. destruct (Str.rstrip s) as [ | d r] eqn:Hr.
  - destruct (Str.isspace c) eqn:Hc; [ reflexivity | ].
    rewrite rstrip_cons. cbn [Str.rstrip]. now rewrite Hc.
  - rewrite rstrip_cons, IH. reflexivity.
Qed.

Lemma lstrip_head (s : string) :
  match Str.lstrip s with
  | "" => True
  | String c _ => Str.isspace c = false
  end.
Proof.
  induction s as [ | c s IH]; cbn [Str.lstrip]; [ exact I | ].
  destruct (Str.isspace c) eqn:Hc; [ exact IH | exact Hc ].
Qed.

Lemma lstrip_fixed (c : ascii) (r : string) :
  Str.isspace c = false -> Str.lstrip (String c r) = String c r.
Proof. intros H. cbn [Str.lstrip]. now rewrite H. Qed.

Lemma rstrip_keeps_head (c : ascii) (r : string) :
  Str.isspace c = false ->
  exists r', Str.rstrip (String c r) = String c r'.
Proof.
  intros H. rewrite rstrip_cons. destruct (Str.rstrip r) as [ | d r'].
  - rewrite H. now exists "".
  - now exists (String d r').
Qed.

Lemma strip_trimmed (s : string) : trimmed (Str.strip s).
Proof.
  unfold trimmed, Str.strip. split; [ | apply rstrip_idem ].
  pose proof (lstrip_head s) as Hh.
  destruct (Str.lstrip s) as [ | c r]; [ reflexivity | ].
  destruct (rstrip_keeps_head c r Hh) as [r' ->]. now apply lstrip_fixed.
Qed.

Lemma trimmed_strip (s : string) : trimmed s -> Str.strip s = s.
Proof. intros [Hl Hr]. unfold Str.strip. now rewrite Hl, Hr. Qed.

Lemma forbidden_not_space (c : ascii) :
  Str.isspace (if forbidden c then "_"%char else c) = Str.isspace c.
Proof.
  destruct (forbidden c) eqn:Hf; [ | reflexivity ].
  unfold forbidden in Hf. cbn [existsb] in Hf. unfold Str.isspace.
  repeat match type of Hf with
         | context [(?a =? ?b)%Z] =>
             destruct (Z.eqb_spec a b) as [He | _];
             [ rewrite He; reflexivity | cbn [orb] in Hf ]
         end.
  discriminate Hf.
Qed.

Lemma sub_forbidden_empty (s : string) : sub_forbidden s = "" -> s = "".
Proof. destruct s; [ reflexivity | discriminate ]. Qed.

Lemma rstrip_sub_forbidden (s : string) :
  Str.rstrip (sub_forbidden s) = sub_forbidden (Str.rstrip s).
Proof.
  induction s as [ | c s IH]; [ reflexivity | ].
  cbn [sub_forbidden]. rewrite !rstrip_cons, IH.
  destruct (Str.rstrip s) as [ | d r]; cbn [sub_forbidden].
  - rewrite forbidden_not_space. now destruct (Str.isspace c).
  - reflexivity.
Qed.

Lemma trimmed_sub_forbidden (s : string) :
  trimmed s -> trimmed (sub_forbidden s).
Proof.
  intros [Hl Hr]. split.
  - destruct s as [ | c r]; [ reflexivity | ].
    pose proof (lstrip_head (String c r)) as Hh. rewrite Hl in Hh.
    cbn [sub_forbidden]. apply lstrip_fixed. now rewrite forbidden_not_space.
  - now rewrite rstrip_sub_forbidden, Hr.
Qed.

Lemma rstrip_append (a b : string) :
  b <> "" -> Str.rstrip b = b -> Str.rstrip (a ++ b) = a ++ b.
Proof.
  intros Hne Hb. induction a as [ | c a IH]; cbn [append]; [ exact Hb | ].
  rewrite rstrip_cons, IH. destruct (a ++ b) eqn:Hab; [ | reflexivity ].
  destruct a; [ now cbn in Hab | discriminate Hab ].
Qed.

Lemma trimmed_append_pdf (s : string) : trimmed s -> trimmed (s ++ ".pdf").
Proof.
  intros [Hl Hr]. split.
  - destruct s as [ | c r]; [ reflexivity | ].
    pose proof (lstrip_head (String c r)) as Hh. rewrite Hl in Hh.
    cbn [append]. now apply lstrip_fixed.
  - apply rstrip_append; [ discriminate | reflexivity ].
Qed.

Lemma no_space_trimmed (s : string) :
  Forall (fun c => Str.isspace c = false) (chars s) -> trimmed s.
Proof.
  intros H. split.
  - destruct s as [ | c r]; [ reflexivity | ].
    inversion H; subst. now apply lstrip_fixed.
  - induction s as [ | c r IH]; [ reflexivity | ].
    inversion H as [ | ? ? Hc Hrest]; subst.
    rewrite rstrip_cons, (IH Hrest). destruct r; [ now rewrite Hc | reflexivity ].
Qed.

Lemma default_name_chars (now : Z) :
  Forall (fun c => Str.isspace c = false /\ forbidden c = false)
    (chars ("pdf_" ++ Str.of_int now)).
Proof.
  unfold chars. rewrite chars_append. apply Forall_app. split.
  - repeat constructor.
  - destruct (of_int_chars now) as [_ H].
    eapply Forall_impl; [ | exact H ].
    intros c Hc. unfold Str.isspace, forbidden. cbn [existsb].
    split; code_arith.
Qed.

Lemma safe_filename_trimmed (now : Z) (s : string) :
  trimmed (safe_filename now s).
Proof.
  unfold safe_filename. cbv zeta.
  assert (Ht : trimmed match Str.strip s with
                       | "" => "pdf_" ++ Str.of_int now
                       | String _ _ => Str.strip s
                       end).
  { pose proof (strip_trimmed s) as Hs.
    destruct (Str.strip s); [ | exact Hs ].
    apply no_space_trimmed.
    eapply Forall_impl; [ | apply default_name_chars ]. now intros c [H _]. }
  apply trimmed_sub_forbidden in Ht.
  destruct (Str.endswith _ ".pdf"); [ exact Ht | ].
  now apply trimmed_append_pdf.
Qed.

(** X11: [safe_filename] is idempotent: a name it returned is returned
    unchanged when it is passed through again, at any later time. *)
Theorem safe_filename_idempotent (now later : Z) (s : string) :
  safe_filename later (safe_filename now s) = safe_filename now s.
Proof.
  pose proof (safe_filename_pdf now s) as Hpdf.
  pose proof (safe_filename_nonempty now s) as Hne.
  pose proof (safe_filename_chars now s) as Hchars.
  pose proof (safe_filename_trimmed now s) as Htr.
  set (r := safe_filename now s) in *.
  unfold safe_filename. cbv zeta. rewrite (trimmed_strip r Htr).
  destruct r as [ | c r'] eqn:Hr; [ now contradiction Hne | ].
  rewrite (sub_forbidden_id _ Hchars). now rewrite Hpdf.
Qed.

Lemma last_app_nonempty {A} (l1 l2 : list A) (d : A) :
  l2 <> [] -> last (l1 ++ l2)%list d = last l2 d.
Proof.
  intros Hne. induction l1 as [ | x l1 IH]; [ reflexivity | ].
  cbn [app last]. rewrite IH. destruct (l1 ++ l2)%list eqn:H; [ | reflexivity ].
  apply app_eq_nil in H. now destruct H.
Qed.

(** X12: a name that is empty or white space only becomes pdf_ followed by
    the decimal time and .pdf. *)
Theorem safe_filename_blank (now : Z) (s : string) :
  Str.strip s = "" ->
  safe_filename now s = "pdf_" ++ Str.of_int now ++ ".pdf".
Proof.
  intros Hs. unfold safe_filename. cbv zeta. rewrite Hs.
  assert (Hc : Forall (fun c => forbidden c = false)
                 (chars ("pdf_" ++ Str.of_int now))).
  { eapply Forall_impl; [ | apply default_name_chars ]. now intros c [_ H]. }
  rewrite (sub_forbidden_id _ Hc).
  destruct (Str.endswith (Str.lower ("pdf_" ++ Str.of_int now)) ".pdf")
    eqn:He; [ exfalso | now rewrite append_assoc ].
  apply endswith_suffix in He. destruct He as [pre He].
  apply (f_equal chars) in He. unfold chars in He.
  rewrite lower_append, !chars_append in He.
  destruct (of_int_chars now) as [Hne Hd].
  assert (Hlast : forall l : list ascii, l <> [] ->
                    Forall (fun c => 48 <= Str.ord c <= 57 \/ Str.ord c = 45) l ->
                    last (map Str.lower_char l) "0"%char <> "f"%char).
  { intros l Hl Hall. induction Hall as [ | c l Hcd Hall IH];
      [ now contradiction Hl | ].
    destruct l as [ | d l].
    - cbn [map last]. unfold Str.lower_char. cbv zeta.
      assert (Hup : ((65 <=? Str.ord c)%Z && (Str.ord c <=? 90)%Z
                     || (192 <=? Str.ord c)%Z && (Str.ord c <=? 222)%Z
                        && negb (Str.ord c =? 215)%Z) = false) by code_arith.
      rewrite Hup. intros ->. change (Str.ord "f") with 102 in Hcd. lia.
    - cbn [map last] in *. apply IH. discriminate. }
  assert (Hmap : forall t, list_ascii_of_string (Str.lower t)
                           = map Str.lower_char (list_ascii_of_string t)).
  { induction t as [ | c t IH]; cbn; [ reflexivity | now rewrite IH ]. }
  apply (f_equal (fun l => last l "0"%char)) in He.
  rewrite !Hmap in He.
  rewrite (last_app_nonempty _
             (map Str.lower_char (list_ascii_of_string (Str.of_int now))))
    in He.
  - change (list_ascii_of_string ".pdf") with ["."; "p"; "d"; "f"]%char in He.
    rewrite last_app_nonempty in He by discriminate. cbn [last] in He.
    refine (Hlast _ _ Hd He).
    intros Hnil. apply Hne.
    destruct (Str.of_int now); [ reflexivity | discriminate Hnil ].
  - intros Hnil. apply map_eq_nil in Hnil. apply Hne.
    destruct (Str.of_int now); [ reflexivity | discriminate Hnil ].
Qed.

(** *** Drive links *)

Lemma strip_prefix_spec (p s r : string) :
  Str.strip_prefix p s = Some r <-> s = p ++ r.
Proof.
  revert s. induction p as [ | a p IH]; intros s; cbn.
  - split; [ now intros [= ->] | now intros -> ].
  - destruct s as [ | b s].
    + split; discriminate.
    + destruct (Ascii.eqb_spec a b) as [-> | Hab].
      * rewrite IH. split; [ now intros -> | now intros [= ->] ].
      * split; [ discriminate | intros [= Hb _]; now symmetry in Hb ].
Qed.

(** The strings the three patterns start with: [/file/d/], [?id=], [&id=],
    [openid=], and [open], a backslash, [id=]. *)
Definition markers : list string :=
  ["/file/d/"; "?id="; "&id="; "openid=";
   "open" ++ String (Str.chr 92) "id="].

Lemma marker_file_d_spec (t r : string) :
  marker_file_d t = Some r <-> t = "/file/d/" ++ r.
Proof. apply strip_prefix_spec. Qed.

Lemma marker_query_id_spec (t r : string) :
  marker_query_id t = Some r <-> t = "?id=" ++ r \/ t = "&id=" ++ r.
Proof.
  unfold marker_query_id. destruct t as [ | c t].
  - split; [ discriminate | intros [H | H]; discriminate H ].
  - destruct (Ascii.eqb_spec c "?") as [-> | Hq]; cbn [orb].
    + rewrite strip_prefix_spec. split.
      * intros ->. now left.
      * intros [[= ->] | [= ]]. reflexivity.
    + destruct (Ascii.eqb_spec c "&") as [-> | Ha].
      * rewrite strip_prefix_spec. split.
        -- intros ->. now right.
        -- intros [[= ] | [= ->]]. reflexivity.
      * split; [ discriminate | ].
        intros [[= Hc _] | [= Hc _]]; congruence.
Qed.

Lemma marker_open_id_spec (t r : string) :
  marker_open_id t = Some r
  <-> t = "openid=" ++ r \/ t = "open" ++ String (Str.chr 92) "id=" ++ r.
Proof.
  unfold marker_open_id.
  destruct (Str.strip_prefix "open" t) as [r0 | ] eqn:Ho.
  - apply strip_prefix_spec in Ho. subst t.
    destruct r0 as [ | c r0].
    + split; [ discriminate | intros [H | H]; discriminate H ].
    + destruct (Ascii.eqb_spec c (Str.chr 92)) as [-> | Hc].
      * rewrite strip_prefix_spec. split.
        -- intros ->. now right.
        -- intros [H | H]; [ discriminate H | ].
           now injection H as ->.
      * rewrite strip_prefix_spec. split.
        -- intros ->. now left.
        -- intros [H | H]; [ now injection H as -> -> | ].
           injection H as Hb _. congruence.
  - split; [ discriminate | ].
    intros [-> | ->]; discriminate Ho.
Qed.

(** Every pattern starts with one of the markers. *)
Definition is_marker (marker : string -> option string) : Prop :=
  forall t r, marker t = Some r -> exists m, In m markers /\ t = m ++ r.

Lemma marker_file_d_marker : is_marker marker_file_d.
Proof.
  intros t r H. apply marker_file_d_spec in H.
  exists "/file/d/". split; [ cbn; tauto | exact H ].
Qed.

Lemma marker_query_id_marker : is_marker marker_query_id.
Proof.
  intros t r H. apply marker_query_id_spec in H. destruct H as [H | H].
  - exists "?id=". split; [ cbn; tauto | exact H ].
  - exists "&id=". split; [ cbn; tauto | exact H ].
Qed.

Lemma marker_open_id_marker : is_marker marker_open_id.
Proof.
  intros t r H. apply marker_open_id_spec in H. destruct H as [H | H].
  - exists "openid=". split; [ cbn; tauto | exact H ].
  - exists ("open" ++ String (Str.chr 92) "id=").
    split; [ cbn; tauto | exact H ].
Qed.

(** The run of id characters: all of them id characters, and followed by
    the end of the string or by another character. *)
Lemma id_run_spec (s : string) :
  Forall (fun c => is_id_char c = true) (chars (id_run s))
  /\ exists post,
       s = id_run s ++ post
       /\ match post with
          | String c _ => is_id_char c = false
          | EmptyString => True
          end.
Proof.
  induction s as [ | c s [IHa (post & IHe & IHp)]].
  - split; [ constructor | ]. now exists "".
  - cbn [id_run]. destruct (is_id_char c) eqn:Hc.
    + split; [ now constructor | ].
      exists post. split; [ | exact IHp ].
      cbn [append]. now rewrite <- IHe.
    + split; [ constructor | ].
      exists (String c s). split; [ reflexivity | exact Hc ].
Qed.

Lemma id_run_append (g post : string) :
  Forall (fun c => is_id_char c = true) (chars g) ->
  (String.length g <= String.length (id_run (g ++ post)))%nat.
Proof.
  induction g as [ | c g IH]; intros Hall; cbn; [ lia | ].
  apply Forall_cons_iff in Hall. destruct Hall as [Hc Hall].
  rewrite Hc. cbn. specialize (IH Hall). lia.
Qed.

Lemma re_search_sound (marker : string -> option string) (url g : string) :
  re_search marker url = Some g ->
  exists pre t r,
    url = pre ++ t /\ marker t = Some r /\ g = id_run r
    /\ (10 <= String.length g)%nat.
Proof.
  induction url as [ | c url IH]; cbn [re_search]; unfold group_at.
  - destruct (marker "") as [r | ] eqn:Hm; [ | discriminate ].
    cbv zeta. destruct (Nat.leb_spec 10 (String.length (id_run r)));
      [ | discriminate ].
    intros [= <-]. now exists "", "", r.
  - destruct (marker (String c url)) as [r | ] eqn:Hm.
    + cbv zeta. destruct (Nat.leb_spec 10 (String.length (id_run r))).
      * intros [= <-]. now exists "", (String c url), r.
      * intros Hs. destruct (IH Hs) as (pre & t & r' & -> & Ht).
        now exists (String c pre), t, r'.
    + intros Hs. destruct (IH Hs) as (pre & t & r' & -> & Ht).
      now exists (String c pre), t, r'.
Qed.

Lemma re_search_complete (marker : string -> option string)
    (pre t r : string) :
  marker t = Some r -> (10 <= String.length (id_run r))%nat ->
  re_search marker (pre ++ t) <> None.
Proof.
  intros Hm Hlen.
  assert (Hhere : re_search marker t <> None).
  { destruct t; cbn [re_search]; unfold group_at; rewrite Hm; cbv zeta;
      destruct (Nat.leb_spec 10 (String.length (id_run r)));
      try discriminate; lia. }
  induction pre as [ | c pre IH]; [ exact Hhere | ].
  cbn [append re_search].
  destruct (group_at (marker (String c (pre ++ t)))); [ discriminate | ].
  exact IH.
Qed.

(** X13: an id that [extract_drive_file_id] returns stands in the link right
    after one of the markers, has ten or more characters, all of them
    letters, digits, underscores or hyphens, and is the whole run of such
    characters there. *)
Theorem extract_drive_file_id_sound (url g : string) :
  extract_drive_file_id url = Some g ->
  (10 <= String.length g)%nat
  /\ Forall (fun c => is_id_char c = true) (chars g)
  /\ exists pre m post,
       In m markers /\ url = pre ++ m ++ g ++ post
       /\ match post with
          | String c _ => is_id_char c = false
          | EmptyString => True
          end.
Proof.
  assert (Hone : forall marker, is_marker marker ->
            re_search marker url = Some g ->
            (10 <= String.length g)%nat
            /\ Forall (fun c => is_id_char c = true) (chars g)
            /\ exists pre m post,
                 In m markers /\ url = pre ++ m ++ g ++ post
                 /\ match post with
                    | String c _ => is_id_char c = false
                    | EmptyString => True
                    end).
  { intros marker Hmk Hs.
    destruct (re_search_sound _ _ _ Hs) as (pre & t & r & -> & Hm & -> & Hlen).
    destruct (Hmk _ _ Hm) as (m & Hin & ->).
    destruct (id_run_spec r) as (Hall & post & Hr & Hpost).
    split; [ exact Hlen | ]. split; [ exact Hall | ].
    exists pre, m, post. repeat split; try assumption.
    now rewrite <- Hr. }
  unfold extract_drive_file_id. destruct url as [ | c url]; [ discriminate | ].
  destruct (re_search marker_file_d (String c url)) as [g1 | ] eqn:H1.
  - intros [= ->]. exact (Hone _ marker_file_d_marker H1).
  - destruct (re_search marker_query_id (String c url)) as [g2 | ] eqn:H2.
    + intros [= ->]. exact (Hone _ marker_query_id_marker H2).
    + intros H3. exact (Hone _ marker_open_id_marker H3).
Qed.

(** X14: a link that holds one of the markers followed by ten or more id
    characters always yields an id. *)
Theorem extract_drive_file_id_complete (pre m g post : string) :
  In m markers ->
  (10 <= String.length g)%nat ->
  Forall (fun c => is_id_char c = true) (chars g) ->
  exists g', extract_drive_file_id (pre ++ m ++ g ++ post) = Some g'.
Proof.
  intros Hin Hlen Hall.
  pose proof (id_run_append g post Hall) as Hrun.
  assert (Hne : pre ++ m ++ g ++ post <> "").
  { destruct pre; [ | discriminate ]. cbn [append].
    cbn in Hin. decompose [or] Hin; subst; try discriminate. contradiction. }
  assert (Hsome : re_search marker_file_d (pre ++ m ++ g ++ post) <> None
                  \/ re_search marker_query_id (pre ++ m ++ g ++ post) <> None
                  \/ re_search marker_open_id (pre ++ m ++ g ++ post) <> None).
  { cbn in Hin. decompose [or] Hin; subst; try contradiction.
    - left. apply re_search_complete with (r := g ++ post); [ | lia ].
      now apply marker_file_d_spec.
    - right; left. apply re_search_complete with (r := g ++ post); [ | lia ].
      apply marker_query_id_spec. now left.
    - right; left. apply re_search_complete with (r := g ++ post); [ | lia ].
      apply marker_query_id_spec. now right.
    - right; right. apply re_search_complete with (r := g ++ post); [ | lia ].
      apply marker_open_id_spec. now left.
    - right; right. apply re_search_complete with (r := g ++ post); [ | lia ].
      apply marker_open_id_spec. right. reflexivity. }
  unfold extract_drive_file_id.
  destruct (pre ++ m ++ g ++ post) as [ | c u] eqn:Hu; [ now contradiction Hne | ].
  destruct (re_search marker_file_d (String c u)) as [g1 | ]; [ now exists g1 | ].
  destruct (re_search marker_query_id (String c u)) as [g2 | ];
    [ now exists g2 | ].
  destruct (re_search marker_open_id (String c u)) as [g3 | ];
    [ now exists g3 | ].
  decompose [or] Hsome; congruence.
Qed.

End Names.

(** ** The runner

    [read_column], [read_cell], [write_cell], [download_drive_file_by_id],
    [download_url_to_file], [set_public_anyone] and [run] from the reading of
    the two columns on (the check of the configuration before it is left
    out).  The sheet, Drive, the network, the clock, the file system and
    standard output are one external state [Ext]; every request is a
    section variable that may raise and may change that state.  The lines
    printed are requests too: an exception of a print that stands outside
    the [try] of a row leaves the loop, one of a print inside it is handled
    as every other exception of the row.  The line that the search loop
    prints for an attempt is kept in the world of the search. *)

(** A line printed, with the values it shows. *)
Inductive Line : Type :=
| FallbackWarning (e : exn)        (* in [download_url_to_file] *)
| PublicFailed (e : exn)           (* in [set_public_anyone] *)
| FoundRows (rows_count : nat) (start_row : Z)
| WarningReadingL (e : exn)
| RowStart (row : Z) (url inv : string)
| Downloaded (size : Z)
| Compressing (max_target_bytes : Z)
| ResultSize (final_size used_dpi used_q : Z)
| Uploaded (file_id : string) (uploaded_size : Z)
| RowDone (row : Z)
| RowError (e : exn)
| AlsoFailed (ee : exn)
| AllProcessed.

(** The lines of a row that are printed outside the body of every [try]:
    in the handler of the read of column L, at the start of the row, and in
    the two handlers of the row. *)
Definition outside_try (line : Line) : Prop :=
  match line with
  | WarningReadingL _ | RowStart _ _ _ | RowError _ | AlsoFailed _ => True
  | _ => False
  end.

(** Those, and the lines printed before and after the loop. *)
Definition unguarded (line : Line) : Prop :=
  match line with
  | FoundRows _ _ | AllProcessed => True
  | _ => outside_try line
  end.

(** The requests sent to the outside.  [DriveGetMedia] stands for one call
    of [download_drive_file_by_id], with the chunks it fetches. *)
Inductive Call : Type :=
| ValuesGet (rng : string)
| ValuesUpdate (rng value : string)
| NamedTemporaryFile
| DriveGetMedia (file_id out_path : string)
| HttpGet (url out_path : string)
| DriveCreate (pdf_bytes : bytes) (filename folder_id : string)
| PermissionsCreate (file_id : string)
| OsRemove (path : string)
| Print (line : Line).

Definition COL_URL : Z := 9.
Definition COL_INVOICE : Z := 7.
Definition COL_OUTPUT : Z := 12.
Definition COL_FLAG : Z := 13.

(** [s.split(sep)[0]] for a separator of one character. *)
Fixpoint before_char (sep : ascii) (s : string) : string :=
  match s with
  | EmptyString => EmptyString
  | String c r =>
      if Ascii.eqb c sep then EmptyString else String c (before_char sep r)
  end.

Fixpoint has_char (sep : ascii) (s : string) : bool :=
  match s with
  | EmptyString => false
  | String c r => Ascii.eqb c sep || has_char sep r
  end.

(** [os.path.basename(p)] on POSIX: what follows the last slash. *)
Fixpoint basename (p : string) : string :=
  match p with
  | EmptyString => EmptyString
  | String c r =>
      if has_char "/" r then basename r
      else if Ascii.eqb c "/" then r else p
  end.

(** [vals[0][0] if vals and vals[0] else ""] *)
Definition first_cell (vals : list (list string)) : string :=
  match vals with
  | (v :: _) :: _ => v
  | _ => EmptyString
  end.

(** [r[0].strip() if r and r[0] else ""] *)
Definition row_text (r : list string) : string :=
  match r with
  | String c v :: _ => Str.strip (String c v)
  | _ => EmptyString
  end.

(** [safe_filename(inv) if inv else
    safe_filename(os.path.basename(url.split('?')[0]))] at the time [now]. *)
Definition file_name (now : Z) (url inv : string) : string :=
  match inv with
  | EmptyString => safe_filename now (basename (before_char "?" url))
  | _ => safe_filename now inv
  end.

(** [inv or '[no name]'] *)
Definition name_or_none (inv : string) : string :=
  match inv with
  | EmptyString => "[no name]"%string
  | _ => inv
  end.

Definition view_url (file_id : string) : string :=
  ("https://drive.google.com/uc?export=view&id=" ++ file_id)%string.

Declare Scope run_scope.
Delimit Scope run_scope with run.

Section Runner.

Variable Ext : Type.

Variable Document Page : Type.
Variable fitz_open : Ext -> string -> result Document.
Variable page_count : Document -> nat.
Variable load_page : Document -> nat -> result Page.
Variable get_image : Page -> Q -> result Image.
Variable pillow_raises : Image -> option exn.
Variable save_pdf : Image -> SaveOptions -> result bytes.
Variable cfg : Config.

Variable SHEET_NAME DEST_FOLDER_ID : string.
Variable START_ROW MAX_ROWS_TO_CHECK : Z.

(** [spreadsheets().values().get(...).execute().get("values", [])] and
    [spreadsheets().values().update(...).execute()] of a range. *)
Variable values_get : string -> Ext -> result (list (list string)) * Ext.
Variable values_update : string -> string -> Ext -> result unit * Ext.
(** [tempfile.NamedTemporaryFile(delete=False, suffix=".pdf")], closed: the
    name of the new file. *)
Variable named_temporary_file : Ext -> result string * Ext.
(** [drive.files().get_media(fileId=file_id)], [io.FileIO(out_path, "wb")],
    [MediaIoBaseDownload(fh, request)], [downloader.next_chunk()] with the
    [done] it reports, the closing of the file at the end of [with], and
    [os.path.getsize(out_path)]. *)
Variable get_media : string -> Ext -> result unit * Ext.
Variable file_open : string -> Ext -> result unit * Ext.
Variable media_io_base_download : string -> string -> Ext -> result unit * Ext.
Variable next_chunk : string -> string -> Ext -> result bool * Ext.
Variable file_close : string -> Ext -> result unit * Ext.
Variable getsize : string -> Ext -> result Z * Ext.
(** The HTTP branch of [download_url_to_file] as one request:
    [requests.get], [raise_for_status], the copy of the chunks into the
    file and [os.path.getsize]; it gives the size of the file or raises. *)
Variable http_download : string -> string -> Ext -> result Z * Ext.
(** The id and the size Drive reports for an upload. *)
Variable upload_pdf_bytes_to_drive :
  bytes -> string -> string -> Ext -> result (string * Z) * Ext.
Variable permissions_create : string -> Ext -> result unit * Ext.
Variable path_exists : string -> Ext -> bool.
Variable os_remove : string -> Ext -> result unit * Ext.
(** [print] of a line, [int(time.time())] and [str(e)]. *)
Variable print_line : Line -> Ext -> result unit * Ext.
Variable time_now : Ext -> Z.
Variable str_exn : exn -> string.

Record Env : Type := mkEnv {
  world : World;          (* document handles and the search loop's lines *)
  ext : Ext;              (* everything outside the process *)
  calls : list Call       (* the requests made, oldest first *)
}.

(** Statements of the runner: a value or an exception and the state after
    them, or [None] for a loop still running when the fuel is spent. *)
Definition Run (A : Type) : Type := Env -> option (result A * Env).

Definition unit_run {A} (a : A) : Run A := fun s => Some (Ok a, s).

Definition bind_run {A B} (m : Run A) (k : A -> Run B) : Run B :=
  fun s => match m s with
           | None => None
           | Some (Raise e, s1) => Some (Raise e, s1)
           | Some (Ok a, s1) => k a s1
           end.

Notation "x <- m ;; k" := (bind_run m (fun x => k))
  (at level 61, m at next level, right associativity) : run_scope.
Notation "' pat <- m ;; k" :=
  (bind_run m (fun x => match x with pat => k end))
  (at level 61, pat pattern, m at next level, right associativity) : run_scope.

(** [try: m except Exception as e: handler(e)] *)
Definition catch {A} (m : Run A) (handler : exn -> Run A) : Run A :=
  fun s => match m s with
           | None => None
           | Some (Raise e, s1) => handler e s1
           | Some (Ok a, s1) => Some (Ok a, s1)
           end.

(** [try: m finally: cleanup], and [with]: the cleanup runs on both exits
    and the exit of [m] is kept, unless the cleanup raises itself. *)
Definition finally {A} (m : Run A) (cleanup : Run unit) : Run A :=
  fun s => match m s with
           | None => None
           | Some (r, s1) =>
               match cleanup s1 with
               | None => None
               | Some (Ok _, s2) => Some (r, s2)
               | Some (Raise e, s2) => Some (Raise e, s2)
               end
           end.

(** One request: its answer, the new outside state, one more entry in the
    list of calls. *)
Definition call {A} (c : Call) (f : Ext -> result A * Ext) (s : Env)
  : result A * Env :=
  let (r, x) := f (ext s) in
  (r, {| world := world s; ext := x; calls := calls s ++ [c] |}).

Definition request {A} (c : Call) (f : Ext -> result A * Ext) : Run A :=
  fun s => Some (call c f s).

(** A step of a request that is under way: no new entry. *)
Definition step {A} (f : Ext -> result A * Ext) : Run A :=
  fun s => let (r, x) := f (ext s) in
           Some (r, {| world := world s; ext := x; calls := calls s |}).

Definition print (line : Line) : Run unit :=
  request (Print line) (print_line line).

(** [f"{SHEET_NAME}!{col_letter(col_idx)}{row}"] *)
Definition cell_range (fuel : nat) (col_idx row : Z) : option string :=
  match col_letter fuel col_idx with
  | Some l => Some (SHEET_NAME ++ "!" ++ l ++ Str.of_int row)%string
  | None => None
  end.

Definition read_column (fuel : nat) (col_idx start_row : Z) (s : Env)
  : option (result (list string) * Env) :=
  match col_letter fuel col_idx with
  | None => None
  | Some l =>
      let rng := (SHEET_NAME ++ "!" ++ l ++ Str.of_int start_row ++ ":" ++ l
                  ++ Str.of_int (start_row + MAX_ROWS_TO_CHECK))%string in
      match call (ValuesGet rng) (values_get rng) s with
      | (Ok vals, s1) => Some (Ok (map row_text vals), s1)
      | (Raise e, s1) => Some (Raise e, s1)
      end
  end.

Definition read_cell (fuel : nat) (row col_idx : Z) (s : Env)
  : option (result string * Env) :=
  match cell_range fuel col_idx row with
  | None => None
  | Some rng =>
      match call (ValuesGet rng) (values_get rng) s with
      | (Ok vals, s1) => Some (Ok (first_cell vals), s1)
      | (Raise e, s1) => Some (Raise e, s1)
      end
  end.

Definition write_cell (fuel : nat) (row col_idx : Z) (value : string)
    (s : Env) : option (result unit * Env) :=
  match cell_range fuel col_idx row with
  | None => None
  | Some rng => Some (call (ValuesUpdate rng value) (values_update rng value) s)
  end.

(** [while not done: _, done = downloader.next_chunk()], one unit of fuel
    for each turn. *)
Fixpoint chunk_loop (fuel : nat) (file_id out_path : string) : Run unit :=
  match fuel with
  | O => fun _ => None
  | S fuel' =>
      (done <- step (next_chunk file_id out_path) ;;
       if (done : bool) then unit_run tt
       else chunk_loop fuel' file_id out_path)%run
  end.

Definition download_drive_file_by_id (fuel : nat) (file_id out_path : string)
  : Run Z :=
  (_ <- request (DriveGetMedia file_id out_path) (get_media file_id) ;;
   _ <- step (file_open out_path) ;;
   _ <- finally
          (_ <- step (media_io_base_download file_id out_path) ;;
           chunk_loop fuel file_id out_path)
          (step (file_close out_path)) ;;
   step (getsize out_path))%run.

Definition http (url out_path : string) : Run Z :=
  request (HttpGet url out_path) (http_download url out_path).

Definition download_url_to_file (fuel : nat) (url out_path : string)
  : Run Z :=
  if is_drive_share_url url then
    match extract_drive_file_id url with
    | Some (String _ _ as fid) =>
        catch (download_drive_file_by_id fuel fid out_path)
          (fun e =>
             (_ <- print (FallbackWarning e) ;;
              http url out_path)%run)                       (* fallback *)
    | _ => http url out_path
    end
  else http url out_path.

(** The exception of the request is printed and dropped. *)
Definition set_public_anyone (file_id : string) : Run unit :=
  catch (request (PermissionsCreate file_id) (permissions_create file_id))
    (fun e => print (PublicFailed e)).

(** The search on the file as it is outside at the time of the call. *)
Definition compress (fuel : nat) (path : string) (s : Env)
  : option (result Compressed * Env) :=
  match iterative_compress_to_limit Document Page (fitz_open (ext s))
          page_count load_page get_image pillow_raises save_pdf cfg
          fuel path (world s) with
  | None => None
  | Some (r, w) => Some (r, {| world := w; ext := ext s; calls := calls s |})
  end.

Definition flag_text (uploaded_size used_dpi used_q : Z) : string :=
  ((if (uploaded_size <=? MAX_TARGET_BYTES cfg)%Z then "COMPRESSED"
    else "LARGE_FILE")
   ++ " dpi=" ++ Str.of_int used_dpi ++ " q=" ++ Str.of_int used_q
   ++ " size=" ++ Str.of_int uploaded_size)%string.

Definition upload_name (url inv : string) (s : Env) : string :=
  file_name (time_now (ext s)) url inv.

(** The body of the [try] of a row. *)
Definition row_try (fuel : nat) (row : Z) (url inv tmp : string) : Run unit :=
  (size <- download_url_to_file fuel url tmp ;;
   _ <- print (Downloaded size) ;;
   _ <- print (Compressing (MAX_TARGET_BYTES cfg)) ;;
   ' (pdf_bytes, final_size, used_dpi, used_q) <- compress fuel tmp ;;
   _ <- print (ResultSize final_size used_dpi used_q) ;;
   filename <- (fun s => Some (Ok (upload_name url inv s), s)) ;;
   ' (file_id, uploaded_size) <-
       request (DriveCreate pdf_bytes filename DEST_FOLDER_ID)
         (upload_pdf_bytes_to_drive pdf_bytes filename DEST_FOLDER_ID) ;;
   _ <- print (Uploaded file_id uploaded_size) ;;
   _ <- set_public_anyone file_id ;;
   _ <- write_cell fuel row COL_OUTPUT (view_url file_id) ;;
   _ <- write_cell fuel row COL_FLAG
          (flag_text uploaded_size used_dpi used_q) ;;
   print (RowDone row))%run.

(** [f"ERROR: {str(e)[:250]}"] *)
Definition error_text (e : exn) : string :=
  ("ERROR: " ++ substring 0 250 (str_exn e))%string.

(** The [finally] of a row; what [os.remove] raises is dropped. *)
Definition cleanup (tmp : string) (s : Env) : Env :=
  if path_exists tmp (ext s)
  then snd (call (OsRemove tmp) (os_remove tmp) s)
  else s.

(** [try: ... except Exception as e: ... finally: ...] of a row. *)
Definition row_guarded (fuel : nat) (row : Z) (url inv tmp : string)
  : Run unit :=
  finally
    (catch (row_try fuel row url inv tmp)
       (fun e =>
          (_ <- print (RowError e) ;;
           catch (write_cell fuel row COL_FLAG (error_text e))
             (fun ee => print (AlsoFailed ee)))%run))
    (fun s => Some (Ok tt, cleanup tmp s)).

(** The body of [for idx in range(rows_count)]. *)
Definition row_body (fuel : nat) (urls invoices : list string) (idx : nat)
  : Run unit :=
  let row := START_ROW + Z.of_nat idx in
  let url := Str.strip (nth idx urls EmptyString) in
  let inv := Str.strip (nth idx invoices EmptyString) in
  match url with
  | EmptyString => unit_run tt                              (* continue *)
  | _ =>
      (filled <-
         catch (v <- read_cell fuel row COL_OUTPUT ;;
                unit_run match v with
                         | EmptyString => false
                         | _ => true
                         end)
           (fun e => _ <- print (WarningReadingL e) ;; unit_run false) ;;
       if (filled : bool) then unit_run tt                  (* continue *)
       else
         (_ <- print (RowStart row url (name_or_none inv)) ;;
          tmp <- request NamedTemporaryFile named_temporary_file ;;
          row_guarded fuel row url inv tmp))%run
  end.

Fixpoint rows_loop (fuel : nat) (urls invoices : list string)
    (idxs : list nat) : Run unit :=
  match idxs with
  | [] => unit_run tt
  | idx :: idxs' =>
      (_ <- row_body fuel urls invoices idx ;;
       rows_loop fuel urls invoices idxs')%run
  end.

Definition rows_count (urls invoices : list string) : nat :=
  Nat.max (List.length urls) (List.length invoices).

(** [run], from [urls = read_column(...)] to the end. *)
Definition run (fuel : nat) : Run unit :=
  (urls <- read_column fuel COL_URL START_ROW ;;
   invoices <- read_column fuel COL_INVOICE START_ROW ;;
   _ <- print (FoundRows (rows_count urls invoices) START_ROW) ;;
   _ <- rows_loop fuel urls invoices (seq 0 (rows_count urls invoices)) ;;
   print AllProcessed)%run.

(** *** Reasoning about statements *)

Lemma call_calls {A} (c : Call) (f : Ext -> result A * Ext) (s : Env) :
  calls (snd (call c f s)) = calls s ++ [c]
  /\ world (snd (call c f s)) = world s
  /\ (fst (call c f s), ext (snd (call c f s))) = f (ext s).
Proof. unfold call. destruct (f (ext s)) as [r x]. now cbn. Qed.

(** The calls of [s'] are those of [s] and then calls that satisfy [P]. *)
Definition extends (P : Call -> Prop) (s s' : Env) : Prop :=
  exists new, calls s' = calls s ++ new /\ Forall P new.

Lemma extends_refl (P : Call -> Prop) (s : Env) : extends P s s.
Proof. exists []. now rewrite app_nil_r. Qed.

Lemma extends_trans (P : Call -> Prop) (s1 s2 s3 : Env) :
  extends P s1 s2 -> extends P s2 s3 -> extends P s1 s3.
Proof.
  intros (n1 & H1 & F1) (n2 & H2 & F2). exists (n1 ++ n2). split.
  - now rewrite H2, H1, app_assoc.
  - now apply Forall_app.
Qed.

Lemma extends_call {A} (P : Call -> Prop) (c : Call)
    (f : Ext -> result A * Ext) (s : Env) r s' :
  P c -> call c f s = (r, s') -> extends P s s'.
Proof.
  intros Hc Hcall. exists [c]. split; [ | now constructor ].
  pose proof (call_calls c f s) as (H & _). now rewrite Hcall in H.
Qed.

(** A statement that makes only calls that satisfy [P] and returns only
    values that satisfy [Q]. *)
Definition keeps {A} (P : Call -> Prop) (Q : A -> Prop) (m : Run A) : Prop :=
  forall s r s',
    m s = Some (r, s') ->
    extends P s s' /\ forall a, r = Ok a -> Q a.

Lemma keeps_weaken {A} (P : Call -> Prop) (Q Q' : A -> Prop) (m : Run A) :
  (forall a, Q a -> Q' a) -> keeps P Q m -> keeps P Q' m.
Proof.
  intros HQ Hm s r s' Hrun. destruct (Hm s r s' Hrun) as [He Ha].
  split; [ exact He | intros a Hr; apply HQ, Ha, Hr ].
Qed.

Lemma keeps_unit {A} (P : Call -> Prop) (Q : A -> Prop) (a : A) :
  Q a -> keeps P Q (unit_run a).
Proof.
  intros Ha s r s' [= <- <-]. split; [ apply extends_refl | ].
  now intros a' [= <-].
Qed.

Lemma keeps_bind {A B} (P : Call -> Prop) (Q : A -> Prop) (Q' : B -> Prop)
    (m : Run A) (k : A -> Run B) :
  keeps P Q m -> (forall a, Q a -> keeps P Q' (k a)) ->
  keeps P Q' (bind_run m k).
Proof.
  intros Hm Hk s r s'. unfold bind_run.
  destruct (m s) as [[[a | e] s1] | ] eqn:Hms; [ | | discriminate ].
  - destruct (Hm s _ _ Hms) as [He Ha]. intros Hks.
    destruct (Hk a (Ha a eq_refl) s1 r s' Hks) as [He' Hb].
    split; [ exact (extends_trans P _ _ _ He He') | exact Hb ].
  - intros [= <- <-]. destruct (Hm s _ _ Hms) as [He _].
    split; [ exact He | discriminate ].
Qed.

Lemma keeps_catch {A} (P : Call -> Prop) (Q Q0 : A -> Prop) (m : Run A)
    (handler : exn -> Run A) :
  keeps P Q0 m -> (forall a, Q0 a -> Q a) ->
  (forall e, keeps P Q (handler e)) ->
  keeps P Q (catch m handler).
Proof.
  intros Hm HQ Hh s r s'. unfold catch.
  destruct (m s) as [[[a | e] s1] | ] eqn:Hms; [ | | discriminate ].
  - intros [= <- <-]. destruct (Hm s _ _ Hms) as [He Ha].
    split; [ exact He | ]. intros a' [= <-]. apply HQ, Ha. reflexivity.
  - destruct (Hm s _ _ Hms) as [He _]. intros Hhs.
    destruct (Hh e s1 r s' Hhs) as [He' Hb].
    split; [ exact (extends_trans P _ _ _ He He') | exact Hb ].
Qed.

Lemma keeps_finally {A} (P : Call -> Prop) (Q : A -> Prop) (m : Run A)
    (c : Run unit) :
  keeps P Q m -> keeps P (fun _ => True) c -> keeps P Q (finally m c).
Proof.
  intros Hm Hc s r s'. unfold finally.
  destruct (m s) as [[r1 s1] | ] eqn:Hms; [ | discriminate ].
  destruct (Hm s _ _ Hms) as [He Ha].
  destruct (c s1) as [[[u | e] s2] | ] eqn:Hcs; [ | | discriminate ].
  - intros [= <- <-]. destruct (Hc s1 _ _ Hcs) as [He' _].
    split; [ exact (extends_trans P _ _ _ He He') | exact Ha ].
  - intros [= <- <-]. destruct (Hc s1 _ _ Hcs) as [He' _].
    split; [ exact (extends_trans P _ _ _ He He') | discriminate ].
Qed.

Lemma keeps_request {A} (P : Call -> Prop) (c : Call)
    (f : Ext -> result A * Ext) :
  P c ->
  keeps P (fun a => exists x x', f x = (Ok a, x')) (request c f).
Proof.
  intros Hc s r s' [= Hcall]. split.
  - exact (extends_call P _ _ _ _ _ Hc Hcall).
  - intros a ->. pose proof (call_calls c f s) as (_ & _ & Hr).
    rewrite Hcall in Hr. cbn [fst snd] in Hr. eexists _, _. symmetry. exact Hr.
Qed.

Lemma keeps_step {A} (P : Call -> Prop) (f : Ext -> result A * Ext) :
  keeps P (fun _ => True) (step f).
Proof.
  intros s r s'. unfold step. destruct (f (ext s)) as [r0 x].
  intros [= <- <-]. split; [ | trivial ].
  exists []. cbn [calls]. split; [ now rewrite app_nil_r | constructor ].
Qed.

Lemma keeps_print (P : Call -> Prop) (line : Line) :
  P (Print line) -> keeps P (fun _ => True) (print line).
Proof.
  intros HP. eapply keeps_weaken; [ | exact (keeps_request P _ _ HP) ].
  trivial.
Qed.

(** *** What the runner guarantees *)

Lemma col_letter_output (fuel : nat) (l : string) :
  col_letter fuel COL_OUTPUT = Some l -> l = "L"%string.
Proof.
  destruct fuel as [ | [ | fuel]]; try discriminate.
  vm_compute. now intros [= <-].
Qed.

Lemma col_letter_flag (fuel : nat) (l : string) :
  col_letter fuel COL_FLAG = Some l -> l = "M"%string.
Proof.
  destruct fuel as [ | [ | fuel]]; try discriminate.
  vm_compute. now intros [= <-].
Qed.

Lemma col_letter_fuel (fuel : nat) (col_idx : Z) :
  (2 <= fuel)%nat -> 0 < col_idx <= 26 ->
  exists l, col_letter fuel col_idx = Some l.
Proof.
  intros Hf Hc. destruct fuel as [ | [ | fuel]]; try lia.
  unfold col_letter. cbn [col_letter_loop].
  destruct (Z.ltb_spec 0 col_idx); [ | lia ]. cbv zeta.
  replace ((col_idx - 1) / 26) with 0
    by (symmetry; apply Z.div_small; lia).
  cbn. eexists. reflexivity.
Qed.

Lemma substring_length (m : nat) (s : string) :
  (String.length (substring 0 m s) <= m)%nat.
Proof.
  revert s. induction m as [ | m IH]; intros [ | c s]; cbn; try lia.
  specialize (IH s). lia.
Qed.

(** The A1 name of a cell of the sheet, from the letters of its column. *)
Definition cell (letters : string) (row : Z) : string :=
  (SHEET_NAME ++ "!" ++ letters ++ Str.of_int row)%string.

Lemma cell_range_output (fuel : nat) (row : Z) (rng : string) :
  cell_range fuel COL_OUTPUT row = Some rng -> rng = cell "L" row.
Proof.
  unfold cell_range. destruct (col_letter fuel COL_OUTPUT) as [l | ] eqn:Hl;
    [ | discriminate ].
  apply col_letter_output in Hl. subst l. now intros [= <-].
Qed.

Lemma cell_range_flag (fuel : nat) (row : Z) (rng : string) :
  cell_range fuel COL_FLAG row = Some rng -> rng = cell "M" row.
Proof.
  unfold cell_range. destruct (col_letter fuel COL_FLAG) as [l | ] eqn:Hl;
    [ | discriminate ].
  apply col_letter_flag in Hl. subst l. now intros [= <-].
Qed.

(** Where the values of a request come from: the text of a URL cell of one
    of the [n] rows, trimmed and not empty; a name the creation of a
    temporary file returned; an id and a size an upload to the destination
    folder returned; bytes, resolution and quality the search returned for
    a temporary file. *)
Definition url_text (n : nat) (urls : list string) (url : string) : Prop :=
  exists idx,
    (idx < n)%nat /\ url = Str.strip (nth idx urls EmptyString)
    /\ url <> EmptyString.

Definition temp_name (path : string) : Prop :=
  exists x x', named_temporary_file x = (Ok path, x').

Definition uploaded (file_id : string) (uploaded_size : Z) : Prop :=
  exists pdf_bytes filename x x',
    upload_pdf_bytes_to_drive pdf_bytes filename DEST_FOLDER_ID x
    = (Ok (file_id, uploaded_size), x').

Definition compressed (pdf_bytes : bytes) (used_dpi used_q : Z) : Prop :=
  exists path x fuel w final_size w',
    temp_name path
    /\ iterative_compress_to_limit Document Page (fitz_open x) page_count
         load_page get_image pillow_raises save_pdf cfg fuel path w
       = Some (Ok (pdf_bytes, final_size, used_dpi, used_q), w').

(** What a request of the row loop over [n] rows looks like. *)
Definition well_formed (n : nat) (urls invoices : list string) (c : Call)
  : Prop :=
  match c with
  | ValuesGet rng =>
      exists row,
        START_ROW <= row < START_ROW + Z.of_nat n /\ rng = cell "L" row
  | ValuesUpdate rng value =>
      exists row,
        START_ROW <= row < START_ROW + Z.of_nat n
        /\ ((rng = cell "L" row
             /\ exists file_id uploaded_size,
                  uploaded file_id uploaded_size /\ value = view_url file_id)
            \/ (rng = cell "M" row
                /\ ((exists file_id uploaded_size pdf_bytes used_dpi used_q,
                        uploaded file_id uploaded_size
                        /\ compressed pdf_bytes used_dpi used_q
                        /\ value = flag_text uploaded_size used_dpi used_q)
                    \/ exists e, value = error_text e)))
  | NamedTemporaryFile => True
  | DriveGetMedia file_id out_path =>
      (exists url,
          url_text n urls url /\ is_drive_share_url url = true
          /\ extract_drive_file_id url = Some file_id)
      /\ temp_name out_path
  | HttpGet url out_path => url_text n urls url /\ temp_name out_path
  | DriveCreate pdf_bytes filename folder_id =>
      folder_id = DEST_FOLDER_ID
      /\ (exists used_dpi used_q, compressed pdf_bytes used_dpi used_q)
      /\ (exists now idx,
             (idx < n)%nat
             /\ filename = file_name now
                             (Str.strip (nth idx urls EmptyString))
                             (Str.strip (nth idx invoices EmptyString)))
      /\ Str.endswith (Str.lower filename) ".pdf" = true
      /\ Forall (fun c => forbidden c = false) (chars filename)
  | PermissionsCreate file_id =>
      exists uploaded_size, uploaded file_id uploaded_size
  | OsRemove path => temp_name path
  | Print _ => True
  end.

(** The text written after ERROR has at most 250 characters. *)
Lemma error_text_length (e : exn) :
  exists m, error_text e = ("ERROR: " ++ m)%string
            /\ (String.length m <= 250)%nat.
Proof.
  exists (substring 0 250 (str_exn e)).
  split; [ reflexivity | apply substring_length ].
Qed.

Lemma file_name_safe (now : Z) (url inv : string) :
  Str.endswith (Str.lower (file_name now url inv)) ".pdf" = true
  /\ Forall (fun c => forbidden c = false) (chars (file_name now url inv)).
Proof.
  unfold file_name.
  destruct inv; split;
    first [ apply safe_filename_pdf | apply safe_filename_chars ].
Qed.

Section Kept.

Variable P : Call -> Prop.

Lemma keeps_chunk_loop (fuel : nat) (file_id out_path : string) :
  keeps P (fun _ => True) (chunk_loop fuel file_id out_path).
Proof.
  induction fuel as [ | fuel IH]; [ intros s r s'; discriminate | ].
  cbn [chunk_loop]. eapply keeps_bind; [ apply keeps_step | ].
  intros [ | ] _; [ now apply keeps_unit | exact IH ].
Qed.

Lemma keeps_download_drive_file_by_id (fuel : nat)
    (file_id out_path : string) :
  P (DriveGetMedia file_id out_path) ->
  keeps P (fun _ => True) (download_drive_file_by_id fuel file_id out_path).
Proof.
  intros HP. unfold download_drive_file_by_id.
  eapply keeps_bind; [ exact (keeps_request P _ _ HP) | intros _ _ ].
  eapply keeps_bind; [ apply keeps_step | intros _ _ ].
  eapply keeps_bind; [ | intros _ _; apply keeps_step ].
  apply keeps_finally; [ | apply keeps_step ].
  eapply keeps_bind; [ apply keeps_step | intros _ _ ].
  apply keeps_chunk_loop.
Qed.

Lemma keeps_http (url out_path : string) :
  P (HttpGet url out_path) ->
  keeps P (fun _ => True) (http url out_path).
Proof.
  intros HP. eapply keeps_weaken; [ | exact (keeps_request P _ _ HP) ].
  trivial.
Qed.

Lemma keeps_download_url_to_file (fuel : nat) (url out_path : string) :
  (forall line, P (Print line)) ->
  P (HttpGet url out_path) ->
  (forall fid,
      is_drive_share_url url = true ->
      extract_drive_file_id url = Some fid ->
      P (DriveGetMedia fid out_path)) ->
  keeps P (fun _ => True) (download_url_to_file fuel url out_path).
Proof.
  intros Hp Hh Hd. unfold download_url_to_file.
  destruct (is_drive_share_url url) eqn:Hds;
    [ | apply (keeps_http url out_path Hh) ].
  destruct (extract_drive_file_id url) as [[ | c fid] | ] eqn:Hid;
    try apply (keeps_http url out_path Hh).
  eapply keeps_catch.
  - exact (keeps_download_drive_file_by_id fuel _ _ (Hd _ eq_refl eq_refl)).
  - trivial.
  - intros e. eapply keeps_bind; [ apply keeps_print, Hp | intros _ _ ].
    apply (keeps_http url out_path Hh).
Qed.

Lemma keeps_compress (fuel : nat) (path : string) :
  temp_name path ->
  keeps P (fun c => let '(pdf_bytes, _, used_dpi, used_q) := c in
                    compressed pdf_bytes used_dpi used_q)
    (compress fuel path).
Proof.
  intros Htmp s r s'. unfold compress.
  destruct (iterative_compress_to_limit _ _ _ _ _ _ _ _ _ _ _ _)
    as [[r0 w] | ] eqn:Hrun; [ | discriminate ].
  intros [= <- <-]. split.
  - exists []. cbn [calls]. split; [ now rewrite app_nil_r | constructor ].
  - intros [[[pdf_bytes final_size] used_dpi] used_q] ->.
    now exists path, (ext s), fuel, (world s), final_size, w.
Qed.

Lemma keeps_write_cell (fuel : nat) (row col_idx : Z) (value : string) :
  (forall rng, cell_range fuel col_idx row = Some rng ->
               P (ValuesUpdate rng value)) ->
  keeps P (fun _ => True) (write_cell fuel row col_idx value).
Proof.
  intros HP s r s'. unfold write_cell.
  destruct (cell_range fuel col_idx row) as [rng | ]; [ | discriminate ].
  intros [= Hc]. split; [ | trivial ].
  exact (extends_call P _ _ _ _ _ (HP _ eq_refl) Hc).
Qed.

Lemma keeps_read_cell (fuel : nat) (row col_idx : Z) :
  (forall rng, cell_range fuel col_idx row = Some rng -> P (ValuesGet rng)) ->
  keeps P (fun _ => True) (read_cell fuel row col_idx).
Proof.
  intros HP s r s'. unfold read_cell.
  destruct (cell_range fuel col_idx row) as [rng | ]; [ | discriminate ].
  destruct (call _ _ s) as [[vals | e] s1] eqn:Hc; intros [= <- <-];
    (split; [ exact (extends_call P _ _ _ _ _ (HP _ eq_refl) Hc) | trivial ]).
Qed.

Lemma keeps_set_public_anyone (file_id : string) :
  (forall line, P (Print line)) ->
  P (PermissionsCreate file_id) ->
  keeps P (fun _ => True) (set_public_anyone file_id).
Proof.
  intros Hp HP. unfold set_public_anyone. eapply keeps_catch.
  - exact (keeps_request P _ _ HP).
  - trivial.
  - intros e. apply keeps_print, Hp.
Qed.

Lemma keeps_cleanup (tmp : string) :
  P (OsRemove tmp) ->
  keeps P (fun _ => True) (fun s => Some (Ok tt, cleanup tmp s)).
Proof.
  intros HP s r s' [= <- <-]. split; [ | trivial ].
  unfold cleanup. destruct (path_exists tmp (ext s)).
  - destruct (call _ _ s) as [r s1] eqn:Hc. cbn [snd].
    exact (extends_call P _ _ _ _ _ HP Hc).
  - apply extends_refl.
Qed.

End Kept.

Section Rows.

Variable n : nat.
Variable urls invoices : list string.
Variable idx : nat.
Hypothesis idx_in_range : (idx < n)%nat.

Let row := START_ROW + Z.of_nat idx.
Let url := Str.strip (nth idx urls EmptyString).
Let inv := Str.strip (nth idx invoices EmptyString).
Let wf := well_formed n urls invoices.

Hypothesis url_not_empty : url <> EmptyString.

Lemma row_in_range : START_ROW <= row < START_ROW + Z.of_nat n.
Proof. unfold row. lia. Qed.

Lemma url_is_text : url_text n urls url.
Proof. exists idx. repeat split; [ exact idx_in_range | exact url_not_empty ]. Qed.

Lemma keeps_row_try (fuel : nat) (tmp : string) :
  temp_name tmp ->
  keeps wf (fun _ => True) (row_try fuel row url inv tmp).
Proof.
  intros Htmp. unfold row_try.
  eapply keeps_bind.
  { apply keeps_download_url_to_file.
    - intros line; exact I.
    - split; [ exact url_is_text | exact Htmp ].
    - intros fid Hds Hid. split; [ | exact Htmp ].
      exists url. split; [ exact url_is_text | now split ]. }
  intros size _.
  eapply keeps_bind; [ now apply keeps_print | intros _ _ ].
  eapply keeps_bind; [ now apply keeps_print | intros _ _ ].
  eapply keeps_bind; [ exact (keeps_compress wf fuel tmp Htmp) | ].
  intros [[[pdf_bytes final_size] used_dpi] used_q] Hcomp.
  eapply keeps_bind; [ now apply keeps_print | intros _ _ ].
  eapply keeps_bind with
    (Q := fun filename => exists now, filename = file_name now url inv).
  { intros s r s' [= <- <-]. split; [ apply extends_refl | ].
    intros a [= <-]. now exists (time_now (ext s)). }
  intros filename [now ->].
  eapply keeps_bind.
  { apply keeps_request. split; [ reflexivity | ].
    split; [ now exists used_dpi, used_q | ].
    split; [ now exists now, idx | apply file_name_safe ]. }
  intros [file_id uploaded_size] (x & x' & Hup).
  assert (Hupl : uploaded file_id uploaded_size)
    by (now exists pdf_bytes, (file_name now url inv), x, x').
  eapply keeps_bind; [ now apply keeps_print | intros _ _ ].
  eapply keeps_bind.
  { apply keeps_set_public_anyone;
      [ intros line; exact I | now exists uploaded_size ]. }
  intros _ _.
  eapply keeps_bind.
  { apply keeps_write_cell. intros rng Hr. apply cell_range_output in Hr.
    exists row. split; [ exact row_in_range | left ].
    split; [ exact Hr | now exists file_id, uploaded_size ]. }
  intros _ _.
  eapply keeps_bind; [ | intros _ _; now apply keeps_print ].
  apply keeps_write_cell. intros rng Hr. apply cell_range_flag in Hr.
  exists row. split; [ exact row_in_range | right ].
  split; [ exact Hr | left ].
  now exists file_id, uploaded_size, pdf_bytes, used_dpi, used_q.
Qed.

Lemma keeps_row_guarded (fuel : nat) (tmp : string) :
  temp_name tmp ->
  keeps wf (fun _ => True) (row_guarded fuel row url inv tmp).
Proof.
  intros Htmp. unfold row_guarded.
  apply keeps_finally; [ | now apply keeps_cleanup ].
  eapply keeps_catch; [ exact (keeps_row_try fuel tmp Htmp) | trivial | ].
  intros e. eapply keeps_bind; [ now apply keeps_print | intros _ _ ].
  eapply keeps_catch; [ | trivial | intros ee; now apply keeps_print ].
  apply keeps_write_cell. intros rng Hr. apply cell_range_flag in Hr.
  exists row. split; [ exact row_in_range | right ].
  split; [ exact Hr | right ]. now exists e.
Qed.

End Rows.

Lemma keeps_row_body (n : nat) (fuel : nat) (urls invoices : list string)
    (idx : nat) :
  (idx < n)%nat ->
  keeps (well_formed n urls invoices) (fun _ => True)
    (row_body fuel urls invoices idx).
Proof.
  intros Hidx. unfold row_body. cbv zeta.
  destruct (Str.strip (nth idx urls EmptyString)) as [ | c url] eqn:Hu;
    [ now apply keeps_unit | ].
  assert (Hne : Str.strip (nth idx urls EmptyString) <> EmptyString)
    by (rewrite Hu; discriminate).
  eapply keeps_bind with (Q := fun _ => True).
  { eapply keeps_catch with (Q0 := fun _ => True); [ | trivial | ].
    - eapply keeps_bind; [ | intros v _; now apply keeps_unit ].
      apply keeps_read_cell. intros rng Hr. apply cell_range_output in Hr.
      exists (START_ROW + Z.of_nat idx). split; [ lia | exact Hr ].
    - intros e. eapply keeps_bind; [ now apply keeps_print | ].
      intros _ _. now apply keeps_unit. }
  intros [ | ] _; [ now apply keeps_unit | ].
  eapply keeps_bind; [ now apply keeps_print | intros _ _ ].
  eapply keeps_bind; [ now apply keeps_request | ].
  intros tmp Htmp. rewrite <- Hu.
  exact (keeps_row_guarded n urls invoices idx Hidx Hne fuel tmp Htmp).
Qed.

(** X15: every request the row loop makes, prints aside, is well formed.
    The sheet is read at column L and written at columns L and M only, in
    the rows of the loop; column L receives the view link of an id an upload
    returned, column M a flag line (of the size an upload returned and the
    resolution and quality the search returned) or the error text of an
    exception; a download, over HTTP or from Drive, is of the trimmed,
    non-empty text of a URL cell of the loop (for Drive: of the id
    extracted from it) into a file the creation of a temporary file named;
    an upload is of bytes the search returned for such a file, to the
    destination folder, under the name [file_name] gives the URL and invoice
    texts of a row, which ends in .pdf and holds no forbidden character; the
    sharing request is for an id an upload returned; only such temporary
    files are removed. *)
Theorem row_loop_requests_well_formed (fuel : nat)
    (urls invoices : list string) (s s' : Env) r :
  rows_loop fuel urls invoices (seq 0 (rows_count urls invoices)) s
  = Some (r, s') ->
  exists new,
    calls s' = calls s ++ new
    /\ Forall (well_formed (rows_count urls invoices) urls invoices) new.
Proof.
  set (n := rows_count urls invoices).
  assert (Hin : Forall (fun i => (i < n)%nat) (seq 0 n)).
  { apply Forall_forall. intros i Hi. apply in_seq in Hi. lia. }
  assert (Hloop : forall idxs,
            Forall (fun i => (i < n)%nat) idxs ->
            keeps (well_formed n urls invoices) (fun _ => True)
              (rows_loop fuel urls invoices idxs)).
  { induction idxs as [ | idx idxs IH]; intros Hall; cbn [rows_loop].
    - now apply keeps_unit.
    - apply Forall_cons_iff in Hall. destruct Hall as [Hidx Hall].
      eapply keeps_bind; [ exact (keeps_row_body n fuel urls invoices idx Hidx) | ].
      intros _ _. exact (IH Hall). }
  intros Hrun. exact (proj1 (Hloop _ Hin s r s' Hrun)).
Qed.

(** *** Rows are isolated from each other *)

(** A statement that raises only exceptions that satisfy [Q]. *)
Definition contains {A} (Q : exn -> Prop) (m : Run A) : Prop :=
  forall s e s', m s = Some (Raise e, s') -> Q e.

Lemma contains_unit {A} (Q : exn -> Prop) (a : A) : contains Q (unit_run a).
Proof. intros s e s'. discriminate. Qed.

Lemma contains_bind {A B} (Q : exn -> Prop) (m : Run A) (k : A -> Run B) :
  contains Q m -> (forall a, contains Q (k a)) -> contains Q (bind_run m k).
Proof.
  intros Hm Hk s e s'. unfold bind_run.
  destruct (m s) as [[[a | e0] s1] | ] eqn:Hms; [ | | discriminate ].
  - apply Hk.
  - intros [= <- <-]. exact (Hm _ _ _ Hms).
Qed.

Lemma contains_catch {A} (Q : exn -> Prop) (m : Run A)
    (handler : exn -> Run A) :
  (forall e, contains Q (handler e)) -> contains Q (catch m handler).
Proof.
  intros Hh s e s'. unfold catch.
  destruct (m s) as [[[a | e0] s1] | ]; [ discriminate | | discriminate ].
  apply Hh.
Qed.

Lemma contains_finally {A} (Q : exn -> Prop) (m : Run A) (c : Run unit) :
  contains Q m -> contains Q c -> contains Q (finally m c).
Proof.
  intros Hm Hc s e s'. unfold finally.
  destruct (m s) as [[r1 s1] | ] eqn:Hms; [ | discriminate ].
  destruct (c s1) as [[[u | e0] s2] | ] eqn:Hcs; [ | | discriminate ].
  - intros [= -> <-]. exact (Hm _ _ _ Hms).
  - intros [= <- <-]. exact (Hc _ _ _ Hcs).
Qed.

Lemma contains_request {A} (Q : exn -> Prop) (c : Call)
    (f : Ext -> result A * Ext) :
  (forall e x x', f x = (Raise e, x') -> Q e) -> contains Q (request c f).
Proof.
  intros Hf s e s' [= Hcall].
  pose proof (call_calls c f s) as (_ & _ & Hr). rewrite Hcall in Hr.
  cbn [fst snd] in Hr. symmetry in Hr. exact (Hf _ _ _ Hr).
Qed.

(** An exception of the creation of the temporary file, or of a print of a
    row that stands outside the [try] bodies. *)
Definition raised_outside (e : exn) : Prop :=
  (exists x x', named_temporary_file x = (Raise e, x'))
  \/ exists line x x',
       outside_try line /\ print_line line x = (Raise e, x').

Lemma contains_print (line : Line) :
  outside_try line -> contains raised_outside (print line).
Proof.
  intros Hl. apply contains_request. intros e x x' Hp.
  right. now exists line, x, x'.
Qed.

Lemma contains_row_guarded (fuel : nat) (row : Z) (url inv tmp : string) :
  contains raised_outside (row_guarded fuel row url inv tmp).
Proof.
  unfold row_guarded. apply contains_finally; [ | intros s e s'; discriminate ].
  apply contains_catch. intros e.
  apply contains_bind; [ now apply contains_print | intros _ ].
  apply contains_catch. intros ee. now apply contains_print.
Qed.

Lemma contains_row_body (fuel : nat) (urls invoices : list string)
    (idx : nat) :
  contains raised_outside (row_body fuel urls invoices idx).
Proof.
  unfold row_body. cbv zeta.
  destruct (Str.strip (nth idx urls EmptyString)) as [ | c url];
    [ apply contains_unit | ].
  apply contains_bind.
  { apply contains_catch. intros e.
    apply contains_bind; [ now apply contains_print | intros _ ].
    apply contains_unit. }
  intros [ | ]; [ apply contains_unit | ].
  apply contains_bind; [ now apply contains_print | intros _ ].
  apply contains_bind; [ | intros tmp; apply contains_row_guarded ].
  apply contains_request. intros e x x' Hx. left. now exists x, x'.
Qed.

(** X16: an exception leaves the row loop only when it was raised by the
    creation of the temporary file or by one of the four prints of a row
    that stand outside the [try] bodies (the warning after a failed read of
    column L, the first line of the row, and the two lines of the
    handlers).  Whatever the downloads, the search, the upload, the sharing
    request, the reads and writes of the sheet, the other prints and the
    removal of the file raise is kept inside the row. *)
Theorem only_unguarded_failures_escape (fuel : nat)
    (urls invoices : list string) (idxs : list nat) (s s' : Env) (e : exn) :
  rows_loop fuel urls invoices idxs s = Some (Raise e, s') ->
  (exists x x', named_temporary_file x = (Raise e, x'))
  \/ exists line x x',
       outside_try line /\ print_line line x = (Raise e, x').
Proof.
  assert (Hloop : contains raised_outside (rows_loop fuel urls invoices idxs)).
  { induction idxs as [ | idx idxs IH]; cbn [rows_loop];
      [ apply contains_unit | ].
    apply contains_bind; [ apply contains_row_body | intros _; exact IH ]. }
  exact (Hloop s e s').
Qed.

(** A statement that ends, and one that ends without an exception. *)
Definition ends {A} (m : Run A) : Prop :=
  forall s, exists r s', m s = Some (r, s').

Definition ends_well {A} (m : Run A) : Prop :=
  forall s, exists a s', m s = Some (Ok a, s').

Lemma ends_well_ends {A} (m : Run A) : ends_well m -> ends m.
Proof. intros H s. destruct (H s) as (a & s' & ->). now eexists _, _. Qed.

Lemma ends_bind {A B} (m : Run A) (k : A -> Run B) :
  ends m -> (forall a, ends (k a)) -> ends (bind_run m k).
Proof.
  intros Hm Hk s. unfold bind_run.
  destruct (Hm s) as ([a | e] & s1 & ->); [ apply Hk | now eexists _, _ ].
Qed.

Lemma ends_well_bind {A B} (m : Run A) (k : A -> Run B) :
  ends_well m -> (forall a, ends_well (k a)) -> ends_well (bind_run m k).
Proof.
  intros Hm Hk s. unfold bind_run. destruct (Hm s) as (a & s1 & ->). apply Hk.
Qed.

Lemma ends_catch {A} (m : Run A) (handler : exn -> Run A) :
  ends m -> (forall e, ends (handler e)) -> ends (catch m handler).
Proof.
  intros Hm Hh s. unfold catch.
  destruct (Hm s) as ([a | e] & s1 & ->); [ now eexists _, _ | apply Hh ].
Qed.

Lemma ends_well_catch {A} (m : Run A) (handler : exn -> Run A) :
  ends m -> (forall e, ends_well (handler e)) -> ends_well (catch m handler).
Proof.
  intros Hm Hh s. unfold catch.
  destruct (Hm s) as ([a | e] & s1 & ->); [ now eexists _, _ | apply Hh ].
Qed.

Lemma ends_finally {A} (m : Run A) (c : Run unit) :
  ends m -> ends c -> ends (finally m c).
Proof.
  intros Hm Hc s. unfold finally. destruct (Hm s) as (r & s1 & ->).
  destruct (Hc s1) as ([u | e] & s2 & ->); now eexists _, _.
Qed.

Lemma ends_well_finally {A} (m : Run A) (c : Run unit) :
  ends_well m -> ends_well c -> ends_well (finally m c).
Proof.
  intros Hm Hc s. unfold finally. destruct (Hm s) as (a & s1 & ->).
  destruct (Hc s1) as (u & s2 & ->). now eexists _, _.
Qed.

Lemma ends_request {A} (c : Call) (f : Ext -> result A * Ext) :
  ends (request c f).
Proof. intros s. unfold request. destruct (call c f s). now eexists _, _. Qed.

Lemma ends_step {A} (f : Ext -> result A * Ext) : ends (step f).
Proof. intros s. unfold step. destruct (f (ext s)). now eexists _, _. Qed.

Lemma ends_well_unit {A} (a : A) : ends_well (unit_run a).
Proof. intros s. now eexists _, _. Qed.

Section Completes.

Hypothesis dpi_step_pos : 0 < DPI_STEP cfg.
Hypothesis quality_step_pos : 0 < QUALITY_STEP cfg.
Hypothesis dpi_range : MIN_DPI cfg <= START_DPI cfg.
Hypothesis quality_range : MIN_JPEG_QUALITY cfg <= START_JPEG_QUALITY cfg.

Variable fuel : nat.
Hypothesis fuel_letters : (2 <= fuel)%nat.
Hypothesis fuel_attempts : attempts_bound cfg <= Z.of_nat fuel.

(** Every download from Drive comes to an end: done is reported, or an
    exception raised, within the fuel. *)
Hypothesis chunks_end :
  forall file_id out_path, ends (chunk_loop fuel file_id out_path).

Lemma ends_compress (path : string) : ends (compress fuel path).
Proof.
  intros s. unfold compress.
  destruct (run_spec Document Page (fitz_open (ext s)) page_count load_page
              get_image pillow_raises save_pdf cfg path (world s)
              dpi_step_pos quality_step_pos)
    as (r & pre & last & tl & Hp & _ & _ & Hrun).
  rewrite Hrun.
  assert (Hlen : (S (List.length pre) <= fuel)%nat).
  { assert (Hd : Z.of_nat (List.length (descent_path cfg))
                 <= attempts_bound cfg).
    { unfold descent_path, attempts_bound. rewrite grid_from_length.
      rewrite Nat2Z.inj_mul.
      pose proof (levels_bound_ge _ _ _ dpi_step_pos dpi_range).
      pose proof (levels_bound_ge _ _ _ quality_step_pos quality_range).
      apply Z.mul_le_mono_nonneg; lia. }
    rewrite Hp, length_app in Hd. cbn [List.length] in Hd. lia. }
  destruct (Nat.leb_spec (S (List.length pre)) fuel); [ | lia ].
  eexists _, _. reflexivity.
Qed.

Lemma ends_write_cell (row col_idx : Z) (value : string) :
  0 < col_idx <= 26 -> ends (write_cell fuel row col_idx value).
Proof.
  intros Hc s. unfold write_cell, cell_range.
  destruct (col_letter_fuel fuel col_idx fuel_letters Hc) as [l ->].
  destruct (call _ _ s) as [r s']. now exists r, s'.
Qed.

Lemma ends_read_cell (row col_idx : Z) :
  0 < col_idx <= 26 -> ends (read_cell fuel row col_idx).
Proof.
  intros Hc s. unfold read_cell, cell_range.
  destruct (col_letter_fuel fuel col_idx fuel_letters Hc) as [l ->].
  destruct (call _ _ s) as [[vals | e] s']; eexists _, _; reflexivity.
Qed.

Lemma ends_download_url_to_file (url out_path : string) :
  ends (download_url_to_file fuel url out_path).
Proof.
  unfold download_url_to_file, http.
  destruct (is_drive_share_url url); [ | apply ends_request ].
  destruct (extract_drive_file_id url) as [[ | c fid] | ];
    try apply ends_request.
  apply ends_catch.
  - unfold download_drive_file_by_id.
    apply ends_bind; [ apply ends_request | intros _ ].
    apply ends_bind; [ apply ends_step | intros _ ].
    apply ends_bind; [ | intros _; apply ends_step ].
    apply ends_finally; [ | apply ends_step ].
    apply ends_bind; [ apply ends_step | intros _; apply chunks_end ].
  - intros e. apply ends_bind; [ apply ends_request | intros _ ].
    apply ends_request.
Qed.

Lemma ends_row_try (row : Z) (url inv tmp : string) :
  ends (row_try fuel row url inv tmp).
Proof.
  unfold row_try.
  apply ends_bind; [ apply ends_download_url_to_file | intros size ].
  apply ends_bind; [ apply ends_request | intros _ ].
  apply ends_bind; [ apply ends_request | intros _ ].
  apply ends_bind; [ apply ends_compress | ].
  intros [[[pdf_bytes final_size] used_dpi] used_q].
  apply ends_bind; [ apply ends_request | intros _ ].
  apply ends_bind; [ intros s; now eexists _, _ | intros filename ].
  apply ends_bind; [ apply ends_request | intros [file_id uploaded_size] ].
  apply ends_bind; [ apply ends_request | intros _ ].
  apply ends_bind.
  { apply ends_catch; [ apply ends_request | intros e; apply ends_request ]. }
  intros _.
  apply ends_bind;
    [ apply ends_write_cell; unfold COL_OUTPUT; lia | intros _ ].
  apply ends_bind;
    [ apply ends_write_cell; unfold COL_FLAG; lia | intros _ ].
  apply ends_request.
Qed.

Hypothesis temp_file_created :
  forall x, exists name x', named_temporary_file x = (Ok name, x').

(** Standard output takes the lines printed outside the [try] bodies. *)
Hypothesis outside_printed :
  forall line x,
    outside_try line -> exists x', print_line line x = (Ok tt, x').

Lemma ends_well_print (line : Line) :
  outside_try line -> ends_well (print line).
Proof.
  intros Hl s. unfold print, request, call.
  destruct (outside_printed line (ext s) Hl) as (x' & ->). now eexists _, _.
Qed.

Lemma ends_well_row_guarded (row : Z) (url inv tmp : string) :
  ends_well (row_guarded fuel row url inv tmp).
Proof.
  unfold row_guarded.
  apply ends_well_finally; [ | intros s; now eexists _, _ ].
  apply ends_well_catch; [ apply ends_row_try | intros e ].
  apply ends_well_bind; [ now apply ends_well_print | intros _ ].
  apply ends_well_catch;
    [ apply ends_write_cell; unfold COL_FLAG; lia | intros ee ].
  now apply ends_well_print.
Qed.

Lemma ends_well_row_body (urls invoices : list string) (idx : nat) :
  ends_well (row_body fuel urls invoices idx).
Proof.
  unfold row_body. cbv zeta.
  destruct (Str.strip (nth idx urls EmptyString)) as [ | c url];
    [ apply ends_well_unit | ].
  apply ends_well_bind.
  { apply ends_well_catch.
    - apply ends_bind; [ apply ends_read_cell; unfold COL_OUTPUT; lia | ].
      intros v. apply ends_well_ends, ends_well_unit.
    - intros e. apply ends_well_bind; [ now apply ends_well_print | ].
      intros _. apply ends_well_unit. }
  intros [ | ]; [ apply ends_well_unit | ].
  apply ends_well_bind; [ now apply ends_well_print | intros _ ].
  apply ends_well_bind; [ | intros tmp; apply ends_well_row_guarded ].
  intros s. unfold request, call.
  destruct (temp_file_created (ext s)) as (name & x' & ->). now eexists _, _.
Qed.

End Completes.


(** X18: rows whose URL cell is blank cost nothing: when every URL cell is
    empty or white space, the loop makes no request and changes nothing,
    however many rows and invoice cells there are. *)
Theorem blank_rows_make_no_request (fuel : nat) (urls invoices : list string)
    (idxs : list nat) (s : Env) :
  Forall (fun u => Str.strip u = EmptyString) urls ->
  rows_loop fuel urls invoices idxs s = Some (Ok tt, s).
Proof.
  intros Hblank.
  assert (Hnth : forall idx, Str.strip (nth idx urls EmptyString)
                             = EmptyString).
  { intros idx. destruct (nth_in_or_default idx urls EmptyString) as [Hin | ->];
      [ | reflexivity ].
    rewrite Forall_forall in Hblank. now apply Hblank. }
  induction idxs as [ | idx idxs IH]; cbn [rows_loop]; [ reflexivity | ].
  unfold bind_run, row_body. cbv zeta. rewrite Hnth. exact IH.
Qed.

(** X19: however the work on a row ends, normally or with an exception of
    a handler, the temporary file is dealt with: after the [try] statement
    of the row either the file does not exist, or the last request made was
    its removal. *)
Theorem temp_file_removed (fuel : nat) (row : Z) (url inv tmp : string)
    (s s' : Env) r :
  row_guarded fuel row url inv tmp s = Some (r, s') ->
  path_exists tmp (ext s') = false
  \/ exists pre, calls s' = pre ++ [OsRemove tmp].
Proof.
  assert (Hclean : forall s0,
            path_exists tmp (ext (cleanup tmp s0)) = false
            \/ exists pre, calls (cleanup tmp s0) = pre ++ [OsRemove tmp]).
  { intros s0. unfold cleanup.
    destruct (path_exists tmp (ext s0)) eqn:Hp; [ right | now left ].
    exists (calls s0). apply call_calls. }
  unfold row_guarded, finally.
  destruct (catch _ _ s) as [[r1 s1] | ]; [ | discriminate ].
  intros [= _ <-]. apply Hclean.
Qed.

(** A statement that makes no request. *)
Definition quiet {A} (m : Run A) : Prop :=
  forall s r s', m s = Some (r, s') -> calls s' = calls s.

Lemma quiet_bind {A B} (m : Run A) (k : A -> Run B) :
  quiet m -> (forall a, quiet (k a)) -> quiet (bind_run m k).
Proof.
  intros Hm Hk s r s'. unfold bind_run.
  destruct (m s) as [[[a | e] s1] | ] eqn:Hms; [ | | discriminate ].
  - intros Hks. rewrite (Hk _ _ _ _ Hks). exact (Hm _ _ _ Hms).
  - intros [= <- <-]. exact (Hm _ _ _ Hms).
Qed.

Lemma quiet_finally {A} (m : Run A) (c : Run unit) :
  quiet m -> quiet c -> quiet (finally m c).
Proof.
  intros Hm Hc s r s'. unfold finally.
  destruct (m s) as [[r1 s1] | ] eqn:Hms; [ | discriminate ].
  destruct (c s1) as [[[u | e] s2] | ] eqn:Hcs; [ | | discriminate ];
    intros [= _ <-]; rewrite (Hc _ _ _ Hcs); exact (Hm _ _ _ Hms).
Qed.

Lemma quiet_step {A} (f : Ext -> result A * Ext) : quiet (step f).
Proof.
  intros s r s'. unfold step. destruct (f (ext s)). now intros [= <- <-].
Qed.

Lemma quiet_chunk_loop (fuel : nat) (file_id out_path : string) :
  quiet (chunk_loop fuel file_id out_path).
Proof.
  induction fuel as [ | fuel IH]; [ intros s r s'; discriminate | ].
  cbn [chunk_loop]. apply quiet_bind; [ apply quiet_step | ].
  intros [ | ]; [ now intros s r s' [= <- <-] | exact IH ].
Qed.

(** A download from Drive is one request, however many chunks it takes. *)
Lemma download_drive_calls (fuel : nat) (file_id out_path : string)
    (s s' : Env) r :
  download_drive_file_by_id fuel file_id out_path s = Some (r, s') ->
  calls s' = calls s ++ [DriveGetMedia file_id out_path].
Proof.
  unfold download_drive_file_by_id, bind_run at 1, request.
  pose proof (call_calls (DriveGetMedia file_id out_path)
                (get_media file_id) s) as (Hc & _ & _).
  destruct (call _ _ s) as [[u | e] s1]; cbn [snd] in Hc.
  - intros Hrest. rewrite <- Hc. revert Hrest.
    apply quiet_bind; [ apply quiet_step | intros _ ].
    apply quiet_bind; [ | intros _; apply quiet_step ].
    apply quiet_finally; [ | apply quiet_step ].
    apply quiet_bind; [ apply quiet_step | intros _ ].
    apply quiet_chunk_loop.
  - now intros [= _ <-].
Qed.

(** X20: [download_url_to_file] asks Drive only for a Drive link that holds
    an id, and falls back to HTTP when Drive raises: whenever it returns,
    it has made the HTTP request alone, the Drive request alone (and then
    returns its size), or the Drive request, the print of the warning and,
    when that print returned, the HTTP request; an exception it raises is
    one the HTTP download raised or one the print of the warning raised. *)
Theorem download_falls_back_to_http (fuel : nat) (url out_path : string)
    (s s' : Env) r :
  download_url_to_file fuel url out_path s = Some (r, s') ->
  exists new,
    calls s' = calls s ++ new
    /\ (new = [HttpGet url out_path]
        \/ exists fid,
             is_drive_share_url url = true
             /\ extract_drive_file_id url = Some fid
             /\ ((new = [DriveGetMedia fid out_path]
                  /\ exists size, r = Ok size)
                 \/ exists e0,
                      (new = [DriveGetMedia fid out_path;
                              Print (FallbackWarning e0)]
                       /\ exists e x x',
                            r = Raise e
                            /\ print_line (FallbackWarning e0) x
                               = (Raise e, x'))
                      \/ new = [DriveGetMedia fid out_path;
                                Print (FallbackWarning e0);
                                HttpGet url out_path]))
    /\ forall e,
         r = Raise e ->
         (exists x x', http_download url out_path x = (Raise e, x'))
         \/ exists e0 x x',
              print_line (FallbackWarning e0) x = (Raise e, x').
Proof.
  assert (Hreq : forall A (c : Call) (f : Ext -> result A * Ext) s0 r0 s1,
            request c f s0 = Some (r0, s1) ->
            calls s1 = calls s0 ++ [c] /\ f (ext s0) = (r0, ext s1)).
  { intros A c f s0 r0 s1 [= Hc].
    pose proof (call_calls c f s0) as (Hcalls & _ & Hr).
    rewrite Hc in Hcalls, Hr. now split. }
  assert (Hplain : http url out_path s = Some (r, s') ->
            exists new,
              calls s' = calls s ++ new
              /\ (new = [HttpGet url out_path]
                  \/ exists fid,
                       is_drive_share_url url = true
                       /\ extract_drive_file_id url = Some fid
                       /\ ((new = [DriveGetMedia fid out_path]
                            /\ exists size, r = Ok size)
                           \/ exists e0,
                                (new = [DriveGetMedia fid out_path;
                                        Print (FallbackWarning e0)]
                                 /\ exists e x x',
                                      r = Raise e
                                      /\ print_line (FallbackWarning e0) x
                                         = (Raise e, x'))
                                \/ new = [DriveGetMedia fid out_path;
                                          Print (FallbackWarning e0);
                                          HttpGet url out_path]))
              /\ forall e,
                   r = Raise e ->
                   (exists x x', http_download url out_path x = (Raise e, x'))
                   \/ exists e0 x x',
                        print_line (FallbackWarning e0) x = (Raise e, x')).
  { intros Hh. destruct (Hreq _ _ _ _ _ _ Hh) as [Hc Hr].
    exists [HttpGet url out_path].
    split; [ exact Hc | split; [ now left | ] ].
    intros e ->. left. eexists _, _. exact Hr. }
  unfold download_url_to_file.
  destruct (is_drive_share_url url) eqn:Hds; [ | exact Hplain ].
  destruct (extract_drive_file_id url) as [[ | c fid] | ] eqn:Hid;
    try exact Hplain.
  clear Hplain. unfold catch.
  destruct (download_drive_file_by_id fuel (String c fid) out_path s)
    as [[[size | e0] s1] | ] eqn:Hdl; [ | | discriminate ];
    apply download_drive_calls in Hdl.
  - intros [= <- <-]. exists [DriveGetMedia (String c fid) out_path].
    split; [ exact Hdl | split; [ | discriminate ] ].
    right. exists (String c fid).
    split; [ reflexivity | split; [ reflexivity | left ] ].
    split; [ reflexivity | now exists size ].
  - unfold bind_run.
    destruct (print (FallbackWarning e0) s1) as [[[u | e1] s2] | ] eqn:Hpr;
      [ | | discriminate ];
      destruct (Hreq _ _ _ _ _ _ Hpr) as [Hc2 Hr2].
    + intros Hh. destruct (Hreq _ _ _ _ _ _ Hh) as [Hc3 Hr3].
      exists [DriveGetMedia (String c fid) out_path;
              Print (FallbackWarning e0); HttpGet url out_path].
      split; [ | split ].
      * rewrite Hc3, Hc2, Hdl, <- !app_assoc. reflexivity.
      * right. exists (String c fid).
        split; [ reflexivity | split; [ reflexivity | right ] ].
        exists e0. now right.
      * intros e ->. left. eexists _, _. exact Hr3.
    + intros [= <- <-].
      exists [DriveGetMedia (String c fid) out_path;
              Print (FallbackWarning e0)].
      split; [ | split ].
      * rewrite Hc2, Hdl, <- !app_assoc. reflexivity.
      * right. exists (String c fid).
        split; [ reflexivity | split; [ reflexivity | right ] ].
        exists e0. left. split; [ reflexivity | ].
        eexists _, _, _. split; [ reflexivity | exact Hr2 ].
      * intros e [= <-]. right. eexists _, _, _. exact Hr2.
Qed.

Lemma row_text_trimmed (r : list string) : Str.strip (row_text r) = row_text r.
Proof.
  destruct r as [ | [ | c v] r]; try reflexivity.
  cbn [row_text]. apply trimmed_strip, strip_trimmed.
Qed.

(** X21: [read_column] returns one text for every row of the answer, each
    with no white space at either end, so that the [strip] the row loop
    applies to it again changes nothing. *)
Theorem read_column_trimmed (fuel : nat) (col_idx start_row : Z)
    (s s' : Env) (texts : list string) :
  read_column fuel col_idx start_row s = Some (Ok texts, s') ->
  Forall (fun u => Str.strip u = u) texts
  /\ exists rng vals,
       values_get rng (ext s) = (Ok vals, ext s')
       /\ List.length texts = List.length vals
       /\ calls s' = calls s ++ [ValuesGet rng].
Proof.
  unfold read_column.
  destruct (col_letter fuel col_idx) as [l | ]; [ | discriminate ].
  cbv zeta.
  match goal with
  | |- context [call (ValuesGet ?rng) ?f s] =>
      pose proof (call_calls (ValuesGet rng) f s) as (Hc & _ & Hr);
      destruct (call (ValuesGet rng) f s) as [[vals | e] s1];
      [ | discriminate ]; intros [= <- <-]; split;
      [ | exists rng, vals ]
  end.
  - apply Forall_forall. intros u Hu. apply in_map_iff in Hu.
    destruct Hu as (r & <- & _). apply row_text_trimmed.
  - cbn [fst snd] in *. split; [ now symmetry | ].
    split; [ apply length_map | exact Hc ].
Qed.

(** *** Cells and their A1 names *)

Lemma append_inj_l (a b c : string) :
  (a ++ b)%string = (a ++ c)%string -> b = c.
Proof.
  induction a as [ | x a IH]; cbn; [ trivial | ].
  intros [= H]. now apply IH.
Qed.

Lemma of_int_inj (a b : Z) : Str.of_int a = Str.of_int b -> a = b.
Proof.
  assert (Hnil : forall z, Z.to_int z <> Decimal.Pos Decimal.Nil
                           /\ Z.to_int z <> Decimal.Neg Decimal.Nil).
  { intros [ | p | p]; cbn; split; try discriminate;
      intros [= H]; now apply DecimalPos.Unsigned.to_uint_nonnil in H. }
  unfold Str.of_int. intros H.
  apply (f_equal NilZero.int_of_string) in H.
  rewrite !NilZero.isi in H by apply Hnil.
  injection H as H. now apply DecimalZ.to_int_inj.
Qed.

(** Capital letters followed by a number split in one way only. *)
Lemma letters_number_split (l1 l2 : string) (r1 r2 : Z) :
  Forall is_upper (chars l1) -> Forall is_upper (chars l2) ->
  (l1 ++ Str.of_int r1)%string = (l2 ++ Str.of_int r2)%string ->
  l1 = l2 /\ r1 = r2.
Proof.
  assert (Hhead : forall r c t, Str.of_int r = String c t -> ~ is_upper c).
  { intros r c t Hr. destruct (of_int_chars r) as [_ Hd].
    unfold chars in Hd. rewrite Hr in Hd. cbn in Hd.
    apply Forall_cons_iff in Hd. unfold is_upper. lia. }
  revert l2. induction l1 as [ | c1 l1 IH]; intros [ | c2 l2] H1 H2 He;
    cbn [append] in He.
  - split; [ reflexivity | now apply of_int_inj ].
  - exfalso. apply Forall_cons_iff in H2. destruct H2 as [Hu _].
    exact (Hhead _ _ _ He Hu).
  - exfalso. apply Forall_cons_iff in H1. destruct H1 as [Hu _].
    symmetry in He. exact (Hhead _ _ _ He Hu).
  - injection He as -> He.
    apply Forall_cons_iff in H1. apply Forall_cons_iff in H2.
    destruct (IH l2 (proj2 H1) (proj2 H2) He) as [-> ->]. now split.
Qed.

(** X22: two cells never share an A1 name: the name [read_cell] and
    [write_cell] build from a column index that is not negative and a row
    determines both. *)
Theorem cell_range_injective (fuel1 fuel2 : nat) (col1 row1 col2 row2 : Z)
    (rng : string) :
  0 <= col1 -> 0 <= col2 ->
  cell_range fuel1 col1 row1 = Some rng ->
  cell_range fuel2 col2 row2 = Some rng ->
  col1 = col2 /\ row1 = row2.
Proof.
  intros Hc1 Hc2. unfold cell_range, col_letter.
  destruct (col_letter_loop_spec (Z.to_nat col1) col1 (le_n _))
    as (t1 & Hup1 & _ & Hv1 & Hl1).
  destruct (col_letter_loop_spec (Z.to_nat col2) col2 (le_n _))
    as (t2 & Hup2 & _ & Hv2 & Hl2).
  rewrite Hl1, Hl2, !append_nil_r.
  destruct (String.length t1 <? fuel1)%nat; [ | discriminate ].
  destruct (String.length t2 <? fuel2)%nat; [ | discriminate ].
  intros [= <-] [= He].
  apply append_inj_l in He. apply (append_inj_l "!") in He.
  destruct (letters_number_split t2 t1 row2 row1 Hup2 Hup1 He) as [-> ->].
  split; [ | reflexivity ].
  now rewrite <- (Hv1 Hc1), <- (Hv2 Hc2).
Qed.

Lemma read_column_returns (fuel : nat) (col_idx start_row : Z) (s : Env) :
  (2 <= fuel)%nat -> 0 < col_idx <= 26 ->
  exists r s' rng,
    read_column fuel col_idx start_row s = Some (r, s')
    /\ calls s' = calls s ++ [ValuesGet rng]
    /\ forall e, r = Raise e -> values_get rng (ext s) = (Raise e, ext s').
Proof.
  intros Hf Hc. unfold read_column.
  destruct (col_letter_fuel fuel col_idx Hf Hc) as [l ->]. cbv zeta.
  match goal with
  | |- context [call (ValuesGet ?rng) ?f s] =>
      pose proof (call_calls (ValuesGet rng) f s) as (Hcalls & _ & Hr);
      destruct (call (ValuesGet rng) f s) as [[vals | e] s1];
      cbn [fst snd] in Hcalls, Hr; eexists _, _, rng;
      (split; [ reflexivity | split; [ exact Hcalls | ] ])
  end.
  - discriminate.
  - intros e0 [= <-]. now symmetry.
Qed.


(** X26: a sheet that is already processed is only read.  When the sheet
    answers every read of an output cell with a text that is not empty, the
    row loop makes no request but such reads: nothing is downloaded,
    uploaded, written, removed or printed, and the loop ends normally. *)
Theorem processed_rows_are_left_alone (fuel : nat)
    (urls invoices : list string) (idxs : list nat) (s : Env) :
  (2 <= fuel)%nat ->
  (forall rng x,
      exists c v cells rows x',
        values_get rng x = (Ok ((String c v :: cells) :: rows), x')) ->
  exists s' new,
    rows_loop fuel urls invoices idxs s = Some (Ok tt, s')
    /\ calls s' = calls s ++ new
    /\ Forall (fun c => exists row, c = ValuesGet (cell "L" row)) new.
Proof.
  intros Hf Hfilled. revert s.
  induction idxs as [ | idx idxs IH]; intros s; cbn [rows_loop].
  - exists s, []. split; [ reflexivity | ].
    split; [ now rewrite app_nil_r | constructor ].
  - assert (Hrow : exists s1 new1,
               row_body fuel urls invoices idx s = Some (Ok tt, s1)
               /\ calls s1 = calls s ++ new1
               /\ Forall (fun c => exists row, c = ValuesGet (cell "L" row))
                    new1).
    { unfold row_body. cbv zeta.
      destruct (Str.strip (nth idx urls EmptyString)) as [ | c url].
      { exists s, []. split; [ reflexivity | ].
        split; [ now rewrite app_nil_r | constructor ]. }
      unfold bind_run at 1, catch, bind_run at 1, read_cell.
      destruct (cell_range fuel COL_OUTPUT (START_ROW + Z.of_nat idx))
        as [rng | ] eqn:Hrng.
      2: { unfold cell_range in Hrng.
           destruct (col_letter_fuel fuel COL_OUTPUT Hf) as [l Hl];
             [ unfold COL_OUTPUT; lia | ].
           rewrite Hl in Hrng. discriminate Hrng. }
      apply cell_range_output in Hrng. subst rng.
      pose proof (call_calls
                    (ValuesGet (cell "L" (START_ROW + Z.of_nat idx)))
                    (values_get (cell "L" (START_ROW + Z.of_nat idx))) s)
        as (Hc & _ & Hr).
      destruct (Hfilled (cell "L" (START_ROW + Z.of_nat idx)) (ext s))
        as (c1 & v1 & cells & rows & x' & Hget).
      rewrite Hget in Hr.
      destruct (call _ _ s) as [r1 s1]. cbn [fst snd] in Hc, Hr.
      injection Hr as -> _. cbn [first_cell unit_run].
      exists s1, [ValuesGet (cell "L" (START_ROW + Z.of_nat idx))].
      split; [ reflexivity | split; [ exact Hc | ] ].
      constructor; [ now eexists | constructor ]. }
    destruct Hrow as (s1 & new1 & Hrow & Hc1 & Hn1).
    unfold bind_run. rewrite Hrow.
    destruct (IH s1) as (s' & new & -> & Hc & Hn).
    exists s', (new1 ++ new). split; [ reflexivity | ].
    split; [ now rewrite Hc, Hc1, app_assoc | now apply Forall_app ].
Qed.

End Runner.

Arguments mkEnv {Ext} _ _ _.
Arguments world {Ext} _.
Arguments ext {Ext} _.
Arguments calls {Ext} _.
Arguments call {Ext A} _ _ _.

(** ** The theorems at the sample collaborators *)

Abbreviation sample_search cfg :=
  (iterative_compress_to_limit Sample.Document Sample.Page Sample.fitz_open
     Sample.page_count Sample.load_page Sample.get_image Sample.pillow_raises
     Sample.save_pdf cfg).
Abbreviation sample_attempt cfg :=
  (attempt Sample.Document Sample.Page Sample.fitz_open Sample.page_count
     Sample.load_page Sample.get_image Sample.pillow_raises Sample.save_pdf cfg).
Abbreviation sample_fits cfg :=
  (fits Sample.Document Sample.Page Sample.fitz_open Sample.page_count
     Sample.load_page Sample.get_image Sample.pillow_raises Sample.save_pdf cfg).
Abbreviation sample_fitsb cfg :=
  (fitsb Sample.Document Sample.Page Sample.fitz_open Sample.page_count
     Sample.load_page Sample.get_image Sample.pillow_raises Sample.save_pdf cfg).
Abbreviation sample_render :=
  (render_pages_to_images Sample.Document Sample.Page Sample.fitz_open
     Sample.page_count Sample.load_page Sample.get_image).
Abbreviation sample_compose :=
  (compose_images_to_target_size Sample.pillow_raises Sample.save_pdf).

(** Scenario B of the specification: with the defaults the twelve qualities
    85 down to 30 come first at resolution 150, then resolution 140 starts
    again at quality 85; the path has 8 rows of 12 pairs. *)
Example default_descent_begins :
  firstn 13 (descent_path default_config)
  = [(150, 85); (150, 80); (150, 75); (150, 70); (150, 65); (150, 60);
     (150, 55); (150, 50); (150, 45); (150, 40); (150, 35); (150, 30);
     (140, 85)]
  /\ List.length (descent_path default_config) = 96%nat
  /\ floor_pair default_config = (80, 30).
Proof. repeat split; vm_compute; reflexivity. Qed.

Example square_at_default_resolution :
  fst (sample_render "square.pdf" 150 Sample.world0)
  = Ok [Raster 0 1000 1000].
Proof. vm_compute. reflexivity. Qed.

(** With the default resolutions and steps the search ends at 80, not at the
    minimum 72. *)
Example tight_search_ends_at_80 :
  exists b w',
    sample_search Sample.tight_config 96 "square.pdf" Sample.world0
    = Some (Ok (b, 17, 80, 30), w').
Proof. vm_compute. eexists _, _. reflexivity. Qed.

Lemma nothing_fits_tight (p : Z * Z) :
  In p (descent_path Sample.tight_config) ->
  ~ sample_fits Sample.tight_config "square.pdf" p.
Proof.
  intros Hin Hfit. apply fitsb_fits in Hfit.
  assert (Hall : forallb (fun p => negb (sample_fitsb Sample.tight_config
                                           "square.pdf" p))
                   (descent_path Sample.tight_config) = true)
    by (vm_compute; reflexivity).
  rewrite forallb_forall in Hall. specialize (Hall p Hin).
  rewrite Hfit in Hall. discriminate Hall.
Qed.

(** C1, the claim as stated: a run in which no pair of the descent path
    meets the budget does not always return the result computed at
    (MIN_DPI, MIN_JPEG_QUALITY).  With resolutions 150 down to 72 by steps of
    10, qualities 85 down to 30 by steps of 5 and a budget no attempt meets,
    the result is the one computed at (80, 30). *)
Lemma budget_search_not_at_minimum :
  ~ (forall (cfg : Config) (path : string) (w : World) (fuel : nat)
       b sz d q w',
       0 < DPI_STEP cfg -> 0 < QUALITY_STEP cfg ->
       MIN_DPI cfg <= START_DPI cfg ->
       MIN_JPEG_QUALITY cfg <= START_JPEG_QUALITY cfg ->
       sample_search cfg fuel path w = Some (Ok (b, sz, d, q), w') ->
       (forall p, In p (descent_path cfg) -> ~ sample_fits cfg path p) ->
       (d, q) = (MIN_DPI cfg, MIN_JPEG_QUALITY cfg)).
Proof.
  intros H. destruct tight_search_ends_at_80 as (b & w' & Hrun).
  specialize (H Sample.tight_config "square.pdf"%string Sample.world0 96%nat
                b 17 80 30 w').
  assert (Heq : (80, 30) = (72, 30)); [ | discriminate Heq ].
  apply H.
  - reflexivity.
  - reflexivity.
  - discriminate.
  - discriminate.
  - exact Hrun.
  - exact nothing_fits_tight.
Qed.

(** The search with the renderer that gives up above 162 dots per inch. *)
Abbreviation limited_search cfg :=
  (iterative_compress_to_limit Sample.Document Sample.Page Sample.fitz_open
     Sample.page_count Sample.load_page Sample.limited_get_image
     Sample.pillow_raises Sample.save_pdf cfg).

(** With the resolution step -10 the twelve qualities are tried at 150 dots
    per inch, then twelve at 160, and the first attempt at 170 ends the run
    with the renderer's exception. *)
Example negative_step_run :
  exists w' pre a b post,
    limited_search Sample.rising_config 25 "square.pdf" Sample.world0
    = Some (Raise (LibraryError 3), w')
    /\ printed w' = printed Sample.world0 ++ pre ++ a :: b :: post
    /\ (try_dpi a, try_quality a) = (150, 30)
    /\ (try_dpi b, try_quality b) = (160, 85).
Proof.
  vm_compute. eexists _, [_; _; _; _; _; _; _; _; _; _; _], _, _, _.
  split; [ reflexivity | split; [ reflexivity | split; reflexivity ] ].
Qed.

(** C3, the claim as stated: the resolution does rise along the attempts of
    a run when the resolution step is negative, also with start >= min.
    Line 190 of the source tests [dpi - DPI_STEP >= MIN_DPI], which holds
    for 150 + 10, and line 191 makes the resolution 160. *)
Lemma resolution_rises_with_negative_step :
  ~ (forall (cfg : Config) (path : string) (w : World) (fuel : nat)
       r w' pre a b post,
       MIN_DPI cfg <= START_DPI cfg ->
       MIN_JPEG_QUALITY cfg <= START_JPEG_QUALITY cfg ->
       limited_search cfg fuel path w = Some (r, w') ->
       printed w' = printed w ++ pre ++ a :: b :: post ->
       try_dpi b <= try_dpi a).
Proof.
  intros H.
  destruct negative_step_run as (w' & pre & a & b & post & Hrun & Hp & Ha & Hb).
  specialize (H Sample.rising_config "square.pdf"%string Sample.world0 25%nat
                (Raise (LibraryError 3)) w' pre a b post).
  injection Ha as Ha _. injection Hb as Hb _. rewrite Ha, Hb in H.
  enough (Hle : 160 <= 150) by lia.
  apply H.
  - discriminate.
  - discriminate.
  - exact Hrun.
  - exact Hp.
Qed.

(** C9, the claim as stated: with start equal to min for both parameters
    and the quality step 0, the result of the one attempt is never
    returned.  Line 187 of the source tests
    [quality - QUALITY_STEP >= MIN_JPEG_QUALITY], which holds for 30 - 0, so
    the same pair is attempted again; the document stays over the budget
    and no number of turns ends the loop. *)
Lemma zero_step_repeats_at_minimum :
  ~ (forall (cfg : Config) (path : string) (w : World),
       START_DPI cfg = MIN_DPI cfg ->
       START_JPEG_QUALITY cfg = MIN_JPEG_QUALITY cfg ->
       exists fuel : nat,
         sample_search cfg fuel path w
         = match sample_attempt cfg path (START_DPI cfg)
                   (START_JPEG_QUALITY cfg) with
           | Ok b =>
               Some (Ok (b, len b, START_DPI cfg, START_JPEG_QUALITY cfg),
                     print_try (START_DPI cfg) (START_JPEG_QUALITY cfg)
                       (len b)
                       (after_render Sample.Document Sample.fitz_open path w))
           | Raise e =>
               Some (Raise e,
                     after_render Sample.Document Sample.fitz_open path w)
           end).
Proof.
  intros H.
  destruct (H Sample.still_config "square.pdf"%string Sample.world0
              eq_refl eq_refl) as [fuel Hf].
  unfold iterative_compress_to_limit in Hf.
  rewrite search_loop_never_ends in Hf.
  - vm_compute in Hf. discriminate Hf.
  - reflexivity.
  - discriminate.
  - vm_compute. eexists. split; reflexivity.
Qed.

(** The canvas width 6755399441055745 is the target pixel size of 72 points
    at that resolution. *)
Example huge_canvas_target :
  target_px 72 6755399441055745 = Ok 6755399441055745.
Proof. vm_compute. reflexivity. Qed.

(** C10, the claim as stated: positive dimensions alone do not keep the
    scaled size within the canvas.  For a 3 by 3 raster and a square canvas
    of 6755399441055745 pixels, 6755399441055745 / 3 rounds up to a float
    whose product with 3 rounds to 6755399441055746. *)
Lemma scaled_image_exceeds_huge_canvas :
  ~ (forall tw th iw ih new_w new_h,
       0 < tw -> 0 < th -> 0 < iw -> 0 < ih ->
       scaled_size tw th iw ih = Ok (new_w, new_h) ->
       new_w <= tw /\ new_h <= th).
Proof.
  intros H.
  destruct (H 6755399441055745 6755399441055745 3 3
              6755399441055746 6755399441055746) as [Hw _]; try lia.
  vm_compute. reflexivity.
Qed.

(** *** The sample writer reads back what it wrote *)

Lemma get_nat_put (n : nat) (r : bytes) :
  SampleWriter.get_nat (SampleWriter.put_nat n ++ r) = Some (n, r).
Proof.
  unfold SampleWriter.put_nat. induction n as [ | n IH]; [ reflexivity | ].
  cbn [repeat app SampleWriter.get_nat]. cbn [app] in IH. now rewrite IH.
Qed.

Lemma get_Z_put (z : Z) (r : bytes) :
  SampleWriter.get_Z (SampleWriter.put_Z z ++ r) = Some (z, r).
Proof.
  unfold SampleWriter.put_Z.
  destruct (Z.ltb_spec z 0); cbn [app SampleWriter.get_Z];
    rewrite get_nat_put; do 2 f_equal; lia.
Qed.

Lemma put_image_length (img : Image) :
  (0 < List.length (SampleWriter.put_image img))%nat.
Proof. destruct img as [ | | ? ? [[? ?] ?] | ]; cbn; lia. Qed.

(** A frame is read back with fuel above the length of what was written. *)
Lemma get_image_put (img : Image) :
  forall (fuel : nat) (r : bytes),
    (List.length (SampleWriter.put_image img) <= fuel)%nat ->
    SampleWriter.get_image fuel (SampleWriter.put_image img ++ r)
    = Some (img, r).
Proof.
  induction img as [pixels w h | src IH w h | w h [[red green] blue]
                   | canvas IHc src IHs x y];
    intros fuel r Hf; (destruct fuel as [ | fuel]; [ cbn in Hf; lia | ]);
    cbn [SampleWriter.put_image app SampleWriter.get_image];
    cbn [SampleWriter.put_image List.length] in Hf;
    rewrite ?length_app in Hf;
    unfold SampleWriter.then_get; rewrite <- ?app_assoc.
  - now rewrite get_nat_put, !get_Z_put.
  - rewrite IH by lia. now rewrite !get_Z_put.
  - now rewrite !get_Z_put.
  - rewrite IHc by lia. rewrite IHs by lia. now rewrite !get_Z_put.
Qed.

Lemma get_pages_put (pages : list Image) :
  forall fuel,
    (List.length pages <= fuel)%nat ->
    SampleWriter.get_pages fuel (SampleWriter.put_pages pages) = pages.
Proof.
  induction pages as [ | pg pages IH]; intros fuel Hf.
  - destruct fuel; reflexivity.
  - destruct fuel as [ | fuel]; [ cbn in Hf; lia | ].
    cbn [SampleWriter.put_pages flat_map SampleWriter.get_pages].
    rewrite get_image_put by (rewrite length_app; lia).
    fold (SampleWriter.put_pages pages). rewrite IH; [ reflexivity | ].
    cbn in Hf. lia.
Qed.

(** The sample writer keeps the contract of a PDF writer: the document
    holds the frames it was asked to write, one page each, in order. *)
Lemma sample_writer_pages (first : Image) (options : SaveOptions) (b : bytes) :
  SampleWriter.save_pdf first options = Ok b ->
  SampleWriter.pdf_pages b = frames first options.
Proof.
  unfold SampleWriter.save_pdf, SampleWriter.pdf_pages.
  generalize (frames first options) as pages. intros pages [= <-].
  apply get_pages_put.
  induction pages as [ | pg pages IH]; [ cbn; lia | ].
  cbn [SampleWriter.put_pages flat_map List.length]. rewrite length_app.
  fold (SampleWriter.put_pages pages).
  pose proof (put_image_length pg). lia.
Qed.

(** *** The theorems applied to concrete runs *)

(** C1 at the sample document with a budget of 100 bytes. *)
Lemma budget_search_outcome_witness :
  0 < DPI_STEP Sample.loose_config
  /\ 0 < QUALITY_STEP Sample.loose_config
  /\ exists r w',
       sample_search Sample.loose_config 96 "square.pdf" Sample.world0
       = Some (r, w')
       /\ match r with
          | Ok (b, sz, d, q) =>
              In (d, q) (descent_path Sample.loose_config)
              /\ sample_attempt Sample.loose_config "square.pdf" d q = Ok b
              /\ sz = len b
              /\ ((exists p, In p (descent_path Sample.loose_config)
                             /\ sample_fits Sample.loose_config "square.pdf" p)
                  -> sz <= MAX_TARGET_BYTES Sample.loose_config)
              /\ ((forall p, In p (descent_path Sample.loose_config) ->
                             ~ sample_fits Sample.loose_config "square.pdf" p)
                  -> (d, q) = floor_pair Sample.loose_config)
          | Raise e =>
              exists p, In p (descent_path Sample.loose_config)
                        /\ sample_attempt Sample.loose_config "square.pdf"
                             (fst p) (snd p) = Raise e
          end.
Proof.
  split; [ reflexivity | split; [ reflexivity | ] ].
  apply (budget_search_outcome Sample.Document Sample.Page Sample.fitz_open
           Sample.page_count Sample.load_page Sample.get_image
           Sample.pillow_raises Sample.save_pdf Sample.loose_config
           "square.pdf" Sample.world0 96).
  - reflexivity.
  - reflexivity.
  - discriminate.
  - discriminate.
  - vm_compute. lia.
Defined.

(** C2 on the run that passes at (150, 45). *)
Lemma first_success_wins_witness :
  exists r w' new,
    sample_search Sample.loose_config 20 "square.pdf" Sample.world0
    = Some (r, w')
    /\ printed w' = printed Sample.world0 ++ new
    /\ forall pre t post,
         new = pre ++ t :: post ->
         try_size t <= MAX_TARGET_BYTES Sample.loose_config ->
         post = []
         /\ exists b,
              r = Ok (b, try_size t, try_dpi t, try_quality t)
              /\ sample_attempt Sample.loose_config "square.pdf"
                   (try_dpi t) (try_quality t) = Ok b
              /\ len b = try_size t.
Proof.
  assert (Hrun : { rw | sample_search Sample.loose_config 20 "square.pdf"
                          Sample.world0 = Some rw }).
  { vm_compute. eexists. reflexivity. }
  destruct Hrun as [[r w'] Hrun]. exists r, w'.
  destruct (proj2 (first_success_wins Sample.Document Sample.Page
                     Sample.fitz_open Sample.page_count Sample.load_page
                     Sample.get_image Sample.pillow_raises Sample.save_pdf
                     Sample.loose_config "square.pdf")
              20%nat Sample.world0 r w' Hrun) as (new & Hp & Hnew).
  exists new. split; [ exact Hrun | split; [ exact Hp | exact Hnew ] ].
Defined.

(** C3 on the run that goes through all 96 pairs. *)
Lemma descent_order_witness :
  0 < DPI_STEP Sample.tight_config
  /\ 0 < QUALITY_STEP Sample.tight_config
  /\ exists r w' new,
       sample_search Sample.tight_config 96 "square.pdf" Sample.world0
       = Some (r, w')
       /\ printed w' = printed Sample.world0 ++ new
       /\ List.length new = 96%nat
       /\ forall pre a b post,
            new = pre ++ a :: b :: post ->
            try_dpi b <= try_dpi a
            /\ ((try_dpi b = try_dpi a
                 /\ try_quality b
                    = try_quality a - QUALITY_STEP Sample.tight_config
                 /\ MIN_JPEG_QUALITY Sample.tight_config <= try_quality b)
                \/ (try_dpi b = try_dpi a - DPI_STEP Sample.tight_config
                    /\ MIN_DPI Sample.tight_config <= try_dpi b
                    /\ try_quality b = START_JPEG_QUALITY Sample.tight_config
                    /\ try_quality a - QUALITY_STEP Sample.tight_config
                       < MIN_JPEG_QUALITY Sample.tight_config
                    /\ forall k,
                         0 <= k ->
                         MIN_JPEG_QUALITY Sample.tight_config
                         <= START_JPEG_QUALITY Sample.tight_config
                            - k * QUALITY_STEP Sample.tight_config ->
                         exists sz,
                           In (mkTry (try_dpi a)
                                 (START_JPEG_QUALITY Sample.tight_config
                                  - k * QUALITY_STEP Sample.tight_config) sz)
                              (pre ++ [a]))).
Proof.
  split; [ reflexivity | split; [ reflexivity | ] ].
  assert (Hrun : { rw | sample_search Sample.tight_config 96 "square.pdf"
                          Sample.world0 = Some rw
                        /\ List.length (printed (snd rw)) = 96%nat }).
  { vm_compute. eexists. split; reflexivity. }
  destruct Hrun as [[r w'] [Hrun Hlen]]. exists r, w'.
  destruct (descent_order Sample.Document Sample.Page Sample.fitz_open
              Sample.page_count Sample.load_page Sample.get_image
              Sample.pillow_raises Sample.save_pdf Sample.tight_config
              "square.pdf" Sample.world0 96 r w' eq_refl eq_refl Hrun)
    as (new & Hp & Hnew).
  exists new. split; [ exact Hrun | split; [ exact Hp | split ] ].
  - cbn [snd] in Hlen. rewrite Hp in Hlen. exact Hlen.
  - exact Hnew.
Defined.

(** C4 with the default resolutions, qualities and steps: at most 108
    attempts. *)
Lemma budget_search_terminates_witness :
  attempts_bound Sample.tight_config = 108
  /\ exists (n : nat) r w',
       Z.of_nat n <= attempts_bound Sample.tight_config
       /\ (forall fuel, (n <= fuel)%nat ->
             sample_search Sample.tight_config fuel "square.pdf" Sample.world0
             = Some (r, w'))
       /\ (forall fuel, (fuel < n)%nat ->
             sample_search Sample.tight_config fuel "square.pdf" Sample.world0
             = None)
       /\ (List.length (printed w')
           <= List.length (printed Sample.world0) + n)%nat.
Proof.
  split; [ vm_compute; reflexivity | ].
  apply (budget_search_terminates Sample.Document Sample.Page Sample.fitz_open
           Sample.page_count Sample.load_page Sample.get_image
           Sample.pillow_raises Sample.save_pdf Sample.tight_config
           "square.pdf" Sample.world0).
  - reflexivity.
  - reflexivity.
  - discriminate.
  - discriminate.
Defined.


(** C6 on the 1000 by 1000 raster of Scenario A. *)
Lemma compose_page_geometry_witness :
  compose_page Sample.pillow_raises 1240 1754 (Raster 0 1000 1000)
  = Ok (Pasted (NewRGB 1240 1754 (255, 255, 255))
          (Resized (Raster 0 1000 1000) 1240 1240) 0 257).
Proof.
  assert (Hpg : { pg | compose_page Sample.pillow_raises 1240 1754
                         (Raster 0 1000 1000) = Ok pg }).
  { vm_compute. eexists. reflexivity. }
  destruct Hpg as [pg Hpg]. rewrite Hpg. f_equal.
  exact (proj2 (proj2 (proj2 (proj2
                  (compose_page_geometry Sample.pillow_raises))))
           0%nat pg Hpg).
Defined.

(** C7 at the default target size. *)
Lemma compose_empty_raises_witness :
  sample_compose [] 595 842 150 85 = Raise IndexError.
Proof.
  destruct (compose_empty_raises Sample.pillow_raises Sample.save_pdf
              595 842 150 85) as (e & He & _ & Hidx).
  rewrite He. f_equal. apply Hidx. exists 1240, 1754.
  split; vm_compute; reflexivity.
Defined.

(** C8 on a document whose second page cannot be decoded, with two other
    handles open. *)
Lemma document_handle_released_witness :
  fst (sample_render "damaged.pdf" 150 Sample.busy_world)
  = Raise (LibraryError 1)
  /\ live (snd (sample_render "damaged.pdf" 150 Sample.busy_world))
     = live Sample.busy_world.
Proof.
  split; [ vm_compute; reflexivity | ].
  exact (proj1 (document_handle_released Sample.Document Sample.Page
                  Sample.fitz_open Sample.page_count Sample.load_page
                  Sample.get_image "damaged.pdf" 150 Sample.busy_world)).
Defined.

(** C9 with start and minimum both at (72, 30) and a budget out of
    reach. *)
Lemma single_attempt_at_minimum_witness :
  exists b,
    sample_attempt Sample.floor_config "square.pdf" 72 30 = Ok b
    /\ MAX_TARGET_BYTES Sample.floor_config < len b
    /\ sample_search Sample.floor_config 1 "square.pdf" Sample.world0
       = Some (Ok (b, len b, 72, 30),
               {| live := []; next_handle := 1;
                  printed := [mkTry 72 30 (len b)] |}).
Proof.
  assert (Hb : { b | sample_attempt Sample.floor_config "square.pdf" 72 30
                     = Ok b /\ (MAX_TARGET_BYTES Sample.floor_config <? len b)
                               = true }).
  { vm_compute. eexists. split; reflexivity. }
  destruct Hb as [b [Hb Hlt]]. exists b.
  split; [ exact Hb | split; [ now apply Z.ltb_lt | ] ].
  rewrite (single_attempt_at_minimum Sample.Document Sample.Page
             Sample.fitz_open Sample.page_count Sample.load_page
             Sample.get_image Sample.pillow_raises Sample.save_pdf
             Sample.floor_config "square.pdf" Sample.world0 1
             eq_refl eq_refl eq_refl eq_refl (le_n 1)).
  cbn [START_DPI START_JPEG_QUALITY Sample.floor_config].
  rewrite Hb. reflexivity.
Defined.

(** C10 on the sizes of Scenario A. *)
Lemma scaled_image_within_canvas_witness :
  exists new_w new_h,
    scaled_size 1240 1754 1000 1000 = Ok (new_w, new_h)
    /\ 0 <= new_w <= 1240 /\ 0 <= new_h <= 1754
    /\ 0 <= (1240 - new_w) / 2 /\ 0 <= (1754 - new_h) / 2
    /\ (1240 - new_w) / 2 + new_w <= 1240
    /\ (1754 - new_h) / 2 + new_h <= 1754
    /\ forall img pg,
         size img = (1000, 1000) ->
         compose_page Sample.pillow_raises 1240 1754 img = Ok pg ->
         pg = Pasted (NewRGB 1240 1754 white) (Resized img new_w new_h)
                ((1240 - new_w) / 2) ((1754 - new_h) / 2).
Proof.
  apply (scaled_image_within_canvas Sample.pillow_raises 1240 1754 1000 1000);
    split; reflexivity.
Defined.


(** *** The further facts applied to concrete inputs *)

(** The defaults with a quality step of zero and a budget out of reach. *)
Definition stuck_config : Config :=
  {| MAX_TARGET_BYTES := 10;
     TARGET_WIDTH_PT := 595; TARGET_HEIGHT_PT := 842;
     START_DPI := 150; MIN_DPI := 72;
     START_JPEG_QUALITY := 85; MIN_JPEG_QUALITY := 30;
     DPI_STEP := 10; QUALITY_STEP := 0 |}.

(** X1 on the run that passes at (150, 45). *)
Lemma attempts_within_configured_range_witness :
  exists r w' new,
    sample_search Sample.loose_config 20 "square.pdf" Sample.world0
    = Some (r, w')
    /\ printed w' = printed Sample.world0 ++ new
    /\ Forall (fun t => 72 <= try_dpi t <= 150 /\ 30 <= try_quality t <= 85)
         new.
Proof.
  assert (Hrun : { rw | sample_search Sample.loose_config 20 "square.pdf"
                          Sample.world0 = Some rw }).
  { vm_compute. eexists. reflexivity. }
  destruct Hrun as [[r w'] Hrun]. exists r, w'.
  destruct (attempts_within_configured_range Sample.Document Sample.Page
              Sample.fitz_open Sample.page_count Sample.load_page
              Sample.get_image Sample.pillow_raises Sample.save_pdf
              Sample.loose_config "square.pdf" Sample.world0 20 r w'
              eq_refl eq_refl ltac:(discriminate) ltac:(discriminate) Hrun)
    as [(new & Hp & Hnew) _].
  exists new. split; [ exact Hrun | split; [ exact Hp | exact Hnew ] ].
Defined.

(** X2 on the run through all 96 pairs, with two other handles open. *)
Lemma search_leaves_no_handle_open_witness :
  exists r w',
    search_loop Sample.Document Sample.Page Sample.fitz_open
      Sample.page_count Sample.load_page Sample.get_image
      Sample.pillow_raises Sample.save_pdf Sample.tight_config
      96 "square.pdf" 150 85 Sample.busy_world
    = Some (r, w')
    /\ live w' = live Sample.busy_world
    /\ (next_handle Sample.busy_world <= next_handle w'
        <= next_handle Sample.busy_world + 96)%nat.
Proof.
  assert (Hrun : { rw | search_loop Sample.Document Sample.Page
                          Sample.fitz_open Sample.page_count Sample.load_page
                          Sample.get_image Sample.pillow_raises
                          Sample.save_pdf Sample.tight_config
                          96 "square.pdf" 150 85 Sample.busy_world
                        = Some rw }).
  { vm_compute. eexists. reflexivity. }
  destruct Hrun as [[r w'] Hrun]. exists r, w'.
  split; [ exact Hrun | ].
  exact (search_leaves_no_handle_open Sample.Document Sample.Page
           Sample.fitz_open Sample.page_count Sample.load_page
           Sample.get_image Sample.pillow_raises Sample.save_pdf
           Sample.tight_config 96 "square.pdf" 150 85
           Sample.busy_world r w' Hrun).
Defined.

(** X3 with a quality step of zero. *)
Lemma nonpositive_quality_step_never_returns_witness :
  QUALITY_STEP stuck_config <= 0
  /\ forall fuel, sample_search stuck_config fuel "square.pdf" Sample.world0
                  = None.
Proof.
  split; [ discriminate | ]. intros fuel.
  apply (nonpositive_quality_step_never_returns Sample.Document Sample.Page
           Sample.fitz_open Sample.page_count Sample.load_page
           Sample.get_image Sample.pillow_raises Sample.save_pdf
           stuck_config "square.pdf").
  - discriminate.
  - discriminate.
  - intros k.
    replace (START_JPEG_QUALITY stuck_config
             - Z.of_nat k * QUALITY_STEP stuck_config) with 85
      by (cbn [START_JPEG_QUALITY QUALITY_STEP stuck_config]; lia).
    assert (Hb : { b | sample_attempt stuck_config "square.pdf" 150 85 = Ok b
                       /\ (MAX_TARGET_BYTES stuck_config <? len b) = true }).
    { vm_compute. eexists. split; reflexivity. }
    destruct Hb as [b [Hb Hlt]]. exists b.
    split; [ exact Hb | now apply Z.ltb_lt ].
Defined.

(** X4 on the two pages of the letter-size document. *)
Lemma render_one_image_per_page_witness :
  exists images,
    fst (sample_render "letter.pdf" 150 Sample.world0) = Ok images
    /\ List.length images = 2%nat.
Proof.
  assert (Hr : { images | fst (sample_render "letter.pdf" 150 Sample.world0)
                          = Ok images }).
  { vm_compute. eexists. reflexivity. }
  destruct Hr as [images Hr]. exists images. split; [ exact Hr | ].
  destruct (render_one_image_per_page Sample.Document Sample.Page
              Sample.fitz_open Sample.page_count Sample.load_page
              Sample.get_image "letter.pdf" 150 Sample.world0 images Hr)
    as (doc & Hdoc & Hlen & _).
  rewrite Hlen. vm_compute in Hdoc. injection Hdoc as <-. reflexivity.
Defined.

(** X5 on a raster of width 0 after a raster that composes. *)
Lemma compose_zero_size_raises_witness :
  sample_compose [Raster 0 1000 1000; Raster 1 0 500; Raster 2 10 10]
    595 842 150 85
  = Raise ZeroDivisionError.
Proof.
  apply (compose_zero_size_raises Sample.pillow_raises Sample.save_pdf
           [Raster 0 1000 1000] (Raster 1 0 500) [Raster 2 10 10]
           595 842 150 85 1240 1754).
  - vm_compute. reflexivity.
  - vm_compute. reflexivity.
  - constructor; [ | constructor ].
    vm_compute. eexists. reflexivity.
  - left. reflexivity.
Defined.

(** X6 on the sizes of Scenario A: the width is filled. *)
Lemma scaled_image_fills_one_axis_witness :
  exists new_w new_h,
    scaled_size 1240 1754 1000 1000 = Ok (new_w, new_h)
    /\ (new_w = 1240 \/ new_h = 1754)
    /\ 0 <= (1240 - new_w - (1240 - new_w) / 2) - (1240 - new_w) / 2 <= 1
    /\ 0 <= (1754 - new_h - (1754 - new_h) / 2) - (1754 - new_h) / 2 <= 1.
Proof.
  apply (scaled_image_fills_one_axis 1240 1754 1000 1000); split; reflexivity.
Defined.

(** X8 on column 28, which is AB. *)
Lemma col_letter_round_trip_witness :
  col_letter 3 28 = Some "AB"%string
  /\ column_index "AB" = 28
  /\ forall fuel' idx',
       0 <= idx' -> col_letter fuel' idx' = Some "AB"%string -> idx' = 28.
Proof.
  split; [ reflexivity | ].
  apply (col_letter_round_trip 3 28 "AB"); [ discriminate | reflexivity ].
Defined.

(** X9 on column 703, the first with three letters. *)
Lemma col_letter_length_witness :
  col_letter 4 703 = Some "AAA"%string
  /\ 26 ^ 3 - 1 <= 25 * 703 <= 26 ^ 4 - 26.
Proof.
  split; [ reflexivity | ].
  apply (col_letter_length 4 703 "AAA"); [ discriminate | reflexivity ].
Defined.

(** X12 on a name of two spaces. *)
Lemma safe_filename_blank_witness :
  safe_filename 1700000000 "  " = "pdf_1700000000.pdf"%string.
Proof.
  apply (safe_filename_blank 1700000000 "  "). reflexivity.
Defined.

(** X13 on a sharing link. *)
Lemma extract_drive_file_id_sound_witness :
  extract_drive_file_id
    "https://drive.google.com/file/d/1AbC_dEf-GhI234/view?usp=sharing"
  = Some "1AbC_dEf-GhI234"%string
  /\ (10 <= String.length "1AbC_dEf-GhI234")%nat
  /\ Forall (fun c => is_id_char c = true) (chars "1AbC_dEf-GhI234")
  /\ exists pre m post,
       In m markers
       /\ "https://drive.google.com/file/d/1AbC_dEf-GhI234/view?usp=sharing"%string
          = (pre ++ m ++ "1AbC_dEf-GhI234" ++ post)%string
       /\ match post with
          | String c _ => is_id_char c = false
          | EmptyString => True
          end.
Proof.
  split; [ reflexivity | ].
  apply (extract_drive_file_id_sound
           "https://drive.google.com/file/d/1AbC_dEf-GhI234/view?usp=sharing"
           "1AbC_dEf-GhI234").
  reflexivity.
Defined.

(** X14 on a link with the id in the query string. *)
Lemma extract_drive_file_id_complete_witness :
  exists g',
    extract_drive_file_id
      ("https://drive.google.com/uc" ++ "?id=" ++ "1AbC_dEf-GhI234"
       ++ "&export=download")
    = Some g'.
Proof.
  apply (extract_drive_file_id_complete "https://drive.google.com/uc"
           "?id=" "1AbC_dEf-GhI234" "&export=download").
  - right. left. reflexivity.
  - vm_compute. lia.
  - repeat constructor.
Defined.

(** X25 on the run through all 96 pairs under a budget of 10 bytes, and a
    budget of 100 bytes. *)
Lemma larger_budget_ends_sooner_witness :
  exists r w1 r' w1' rest,
    search_loop Sample.Document Sample.Page Sample.fitz_open
      Sample.page_count Sample.load_page Sample.get_image
      Sample.pillow_raises Sample.save_pdf Sample.tight_config
      96 "square.pdf" 150 85 Sample.world0
    = Some (r, w1)
    /\ search_loop Sample.Document Sample.Page Sample.fitz_open
         Sample.page_count Sample.load_page Sample.get_image
         Sample.pillow_raises Sample.save_pdf
         (with_budget Sample.tight_config 100)
         96 "square.pdf" 150 85 Sample.world0
       = Some (r', w1')
    /\ printed w1 = printed w1' ++ rest.
Proof.
  assert (Hrun : { rw | search_loop Sample.Document Sample.Page
                          Sample.fitz_open Sample.page_count Sample.load_page
                          Sample.get_image Sample.pillow_raises
                          Sample.save_pdf Sample.tight_config
                          96 "square.pdf" 150 85 Sample.world0
                        = Some rw }).
  { vm_compute. eexists. reflexivity. }
  destruct Hrun as [[r w1] Hrun]. exists r, w1.
  destruct (larger_budget_ends_sooner Sample.Document Sample.Page
              Sample.fitz_open Sample.page_count Sample.load_page
              Sample.get_image Sample.pillow_raises Sample.save_pdf
              Sample.tight_config 100 96 "square.pdf" ltac:(discriminate)
              150 85 Sample.world0 r w1 Hrun)
    as (r' & w1' & rest & Hrun' & Hp).
  exists r', w1', rest. split; [ exact Hrun | split; [ exact Hrun' | exact Hp ] ].
Defined.

(** X24 on a raster of 1000 by 700 pixels. *)
Lemma scaled_image_keeps_proportions_witness :
  exists new_w new_h,
    scaled_size 1240 1754 1000 700 = Ok (new_w, new_h)
    /\ Z.abs (new_w * 700 - new_h * 1000) <= 1000 + 700.
Proof.
  apply (scaled_image_keeps_proportions 1240 1754 1000 700); split; reflexivity.
Defined.

(** ** A small outside world for the runner

    The sheet S has four rows from row 2 on: a PDF on a web server with an
    invoice number, a blank row, a Drive link that Drive and the web both
    refuse, and a row whose output cell is filled.  One document can be
    fetched; Drive refuses the first chunk of every download; the sharing
    request always fails; standard output takes every line. *)

Module SampleRun.

Record Ext : Type := mkExt {
  files : list (string * Sample.Document);   (* the files on disk *)
  written : list (string * string)           (* the cells written *)
}.

Definition fitz_open (x : Ext) (path : string) : result Sample.Document :=
  match find (fun f => String.eqb (fst f) path) (files x) with
  | Some (_, doc) => Ok doc
  | None => Raise (LibraryError 0)
  end.

Definition values_get (rng : string) (x : Ext)
  : result (list (list string)) * Ext :=
  if String.eqb rng "S!I2:I12" then
    (Ok [["https://example.com/a.pdf?dl=1"]; ["   "];
         [" https://drive.google.com/file/d/1AbC_dEf-GhI234/view "];
         ["https://example.com/b.pdf"]]%string, x)
  else if String.eqb rng "S!G2:G12" then (Ok [[" INV/1 "]]%string, x)
  else if String.eqb rng "S!L5" then (Ok [["done"]]%string, x)
  else if String.eqb rng "S!L4" then (Raise (LibraryError 429), x)
  else (Ok [], x).

(** A sheet whose output cells are all filled. *)
Definition filled_values_get (rng : string) (x : Ext)
  : result (list (list string)) * Ext :=
  (Ok [["done"]]%string, x).

Definition values_update (rng value : string) (x : Ext) : result unit * Ext :=
  (Ok tt, {| files := files x; written := written x ++ [(rng, value)] |}).

Definition named_temporary_file (x : Ext) : result string * Ext :=
  (Ok "/tmp/in.pdf"%string,
   {| files := ("/tmp/in.pdf"%string, []) :: files x; written := written x |}).

(** A disk that is full. *)
Definition no_temporary_file (x : Ext) : result string * Ext :=
  (Raise (LibraryError 28), x).

Definition get_media (file_id : string) (x : Ext) : result unit * Ext :=
  (Ok tt, x).

Definition file_open (out_path : string) (x : Ext) : result unit * Ext :=
  (Ok tt, x).

Definition media_io_base_download (file_id out_path : string) (x : Ext)
  : result unit * Ext :=
  (Ok tt, x).

Definition next_chunk (file_id out_path : string) (x : Ext)
  : result bool * Ext :=
  (Raise (LibraryError 403), x).

(** A Drive that sends a file in three chunks: the file grows by a page
    with each, and the third is the last. *)
Definition three_chunks (file_id out_path : string) (x : Ext)
  : result bool * Ext :=
  match find (fun f => String.eqb (fst f) out_path) (files x) with
  | Some (_, doc) =>
      (Ok (2 <=? List.length doc)%nat,
       {| files := (out_path, (480, 480) :: doc) :: files x;
          written := written x |})
  | None => (Raise (LibraryError 2), x)
  end.

Definition file_close (out_path : string) (x : Ext) : result unit * Ext :=
  (Ok tt, x).

Definition getsize (out_path : string) (x : Ext) : result Z * Ext :=
  match find (fun f => String.eqb (fst f) out_path) (files x) with
  | Some (_, doc) => (Ok (4096 * Z.of_nat (List.length doc)), x)
  | None => (Raise (LibraryError 2), x)
  end.

Definition http_download (url out_path : string) (x : Ext)
  : result Z * Ext :=
  if String.eqb url "https://example.com/a.pdf?dl=1" then
    (Ok 4096, {| files := (out_path, [(480, 480)]) :: files x;
                 written := written x |})
  else (Raise (LibraryError 404), x).

Definition upload_pdf_bytes_to_drive (pdf_bytes : bytes)
    (filename folder_id : string) (x : Ext) : result (string * Z) * Ext :=
  (Ok ("1UploadedFile_0001"%string, len pdf_bytes), x).

Definition permissions_create (file_id : string) (x : Ext)
  : result unit * Ext :=
  (Raise (LibraryError 500), x).

Definition path_exists (path : string) (x : Ext) : bool :=
  existsb (fun f => String.eqb (fst f) path) (files x).

Definition os_remove (path : string) (x : Ext) : result unit * Ext :=
  (Ok tt, {| files := filter (fun f => negb (String.eqb (fst f) path)) (files x);
             written := written x |}).

Definition print_line (line : Line) (x : Ext) : result unit * Ext :=
  (Ok tt, x).

(** A standard output that is closed. *)
Definition closed_output (line : Line) (x : Ext) : result unit * Ext :=
  (Raise (LibraryError 32), x).

Definition time_now (x : Ext) : Z := 1700000000.

Definition str_exn (e : exn) : string :=
  match e with
  | LibraryError 404 => "404 Client Error: Not Found"
  | _ => "error"
  end.

Definition env0 : Env Ext :=
  {| world := Sample.world0;
     ext := {| files := []; written := [] |};
     calls := [] |}.

Definition urls : list string :=
  ["https://example.com/a.pdf?dl=1"; "";
   "https://drive.google.com/file/d/1AbC_dEf-GhI234/view";
   "https://example.com/b.pdf"]%string.

Definition invoices : list string := ["INV/1"]%string.

End SampleRun.

Abbreviation sample_rows_loop temp chunk output :=
  (rows_loop SampleRun.Ext Sample.Document Sample.Page SampleRun.fitz_open
     Sample.page_count Sample.load_page Sample.get_image Sample.pillow_raises
     Sample.save_pdf Sample.loose_config "S" "folder" 2
     SampleRun.values_get SampleRun.values_update temp
     SampleRun.get_media SampleRun.file_open
     SampleRun.media_io_base_download chunk SampleRun.file_close
     SampleRun.getsize SampleRun.http_download
     SampleRun.upload_pdf_bytes_to_drive SampleRun.permissions_create
     SampleRun.path_exists SampleRun.os_remove output SampleRun.time_now
     SampleRun.str_exn).

Abbreviation sample_row_guarded :=
  (row_guarded SampleRun.Ext Sample.Document Sample.Page SampleRun.fitz_open
     Sample.page_count Sample.load_page Sample.get_image Sample.pillow_raises
     Sample.save_pdf Sample.loose_config "S" "folder"
     SampleRun.values_update
     SampleRun.get_media SampleRun.file_open
     SampleRun.media_io_base_download SampleRun.next_chunk
     SampleRun.file_close SampleRun.getsize SampleRun.http_download
     SampleRun.upload_pdf_bytes_to_drive SampleRun.permissions_create
     SampleRun.path_exists SampleRun.os_remove SampleRun.print_line
     SampleRun.time_now SampleRun.str_exn).

Abbreviation sample_download chunk output :=
  (download_url_to_file SampleRun.Ext SampleRun.get_media SampleRun.file_open
     SampleRun.media_io_base_download chunk SampleRun.file_close
     SampleRun.getsize SampleRun.http_download output).

(** The run over the four rows: row 2 is compressed and uploaded, row 3 is
    skipped, row 4 fails on both downloads and is flagged, row 5 is left
    alone; no temporary file is left. *)
Example sample_run_cells :
  option_map (fun rs => (fst rs, SampleRun.written (ext (snd rs)),
                         SampleRun.files (ext (snd rs))))
    (sample_rows_loop SampleRun.named_temporary_file SampleRun.next_chunk
       SampleRun.print_line 108 SampleRun.urls SampleRun.invoices
       [0; 1; 2; 3]%nat SampleRun.env0)
  = Some (Ok tt,
          [("S!L2",
            "https://drive.google.com/uc?export=view&id=1UploadedFile_0001");
           ("S!M2", "COMPRESSED dpi=150 q=45 size=93");
           ("S!M4", "ERROR: 404 Client Error: Not Found")]%string,
          []).
Proof. vm_compute. reflexivity. Qed.

(** The requests of row 4, whose link is a Drive link: the read of L4
    fails and is reported, Drive refuses the download, the web refuses it
    too, the error is written into M4 and the file is removed. *)
Example sample_row_calls :
  option_map (fun rs => calls (snd rs))
    (sample_rows_loop SampleRun.named_temporary_file SampleRun.next_chunk
       SampleRun.print_line 108 SampleRun.urls SampleRun.invoices
       [2]%nat SampleRun.env0)
  = Some [ValuesGet "S!L4";
          Print (WarningReadingL (LibraryError 429));
          Print (RowStart 4
                   "https://drive.google.com/file/d/1AbC_dEf-GhI234/view"
                   "[no name]");
          NamedTemporaryFile;
          DriveGetMedia "1AbC_dEf-GhI234" "/tmp/in.pdf";
          Print (FallbackWarning (LibraryError 403));
          HttpGet "https://drive.google.com/file/d/1AbC_dEf-GhI234/view"
            "/tmp/in.pdf";
          Print (RowError (LibraryError 404));
          ValuesUpdate "S!M4" "ERROR: 404 Client Error: Not Found";
          OsRemove "/tmp/in.pdf"]%string.
Proof. vm_compute. reflexivity. Qed.

(** A download from Drive in three chunks: one request, the size of the
    file at the end. *)
Example three_chunks_download :
  option_map (fun rs => (fst rs, calls (snd rs)))
    (sample_download SampleRun.three_chunks SampleRun.print_line 3
       "https://drive.google.com/file/d/1AbC_dEf-GhI234/view" "/tmp/in.pdf"
       (snd (call NamedTemporaryFile SampleRun.named_temporary_file
               SampleRun.env0)))
  = Some (Ok 12288,
          [NamedTemporaryFile;
           DriveGetMedia "1AbC_dEf-GhI234" "/tmp/in.pdf"]%string).
Proof. vm_compute. reflexivity. Qed.

(** With two units of fuel the same download is still under way. *)
Example three_chunks_fuel :
  sample_download SampleRun.three_chunks SampleRun.print_line 2
    "https://drive.google.com/file/d/1AbC_dEf-GhI234/view" "/tmp/in.pdf"
    (snd (call NamedTemporaryFile SampleRun.named_temporary_file
            SampleRun.env0))
  = None.
Proof. vm_compute. reflexivity. Qed.

(** With standard output closed the first row that is not skipped ends the
    loop: the line that opens the row is printed outside every [try]. *)
Example closed_output_run :
  option_map (fun rs => (fst rs, calls (snd rs)))
    (sample_rows_loop SampleRun.named_temporary_file SampleRun.next_chunk
       SampleRun.closed_output 108 SampleRun.urls SampleRun.invoices
       [0; 1; 2; 3]%nat SampleRun.env0)
  = Some (Raise (LibraryError 32),
          [ValuesGet "S!L2";
           Print (RowStart 2 "https://example.com/a.pdf?dl=1" "INV/1")]%string).
Proof. vm_compute. reflexivity. Qed.

(** X15 on the run over the four rows. *)
Lemma row_loop_requests_well_formed_witness :
  exists r s' new,
    sample_rows_loop SampleRun.named_temporary_file SampleRun.next_chunk
      SampleRun.print_line 108 SampleRun.urls SampleRun.invoices
      (seq 0 (rows_count SampleRun.urls SampleRun.invoices)) SampleRun.env0
    = Some (r, s')
    /\ calls s' = calls SampleRun.env0 ++ new
    /\ Forall (well_formed SampleRun.Ext Sample.Document Sample.Page
                 SampleRun.fitz_open Sample.page_count Sample.load_page
                 Sample.get_image Sample.pillow_raises Sample.save_pdf
                 Sample.loose_config "S" "folder" 2
                 SampleRun.named_temporary_file
                 SampleRun.upload_pdf_bytes_to_drive SampleRun.str_exn
                 (rows_count SampleRun.urls SampleRun.invoices)
                 SampleRun.urls SampleRun.invoices) new.
Proof.
  assert (Hrun : { rs | sample_rows_loop SampleRun.named_temporary_file
                          SampleRun.next_chunk SampleRun.print_line 108
                          SampleRun.urls SampleRun.invoices
                          (seq 0 (rows_count SampleRun.urls
                                    SampleRun.invoices))
                          SampleRun.env0 = Some rs }).
  { vm_compute. eexists. reflexivity. }
  destruct Hrun as [[r s'] Hrun]. exists r, s'.
  pose proof Hrun as Hw. apply row_loop_requests_well_formed in Hw.
  destruct Hw as (new & Hc & Hw).
  exists new. split; [ exact Hrun | split; [ exact Hc | exact Hw ] ].
Defined.

(** X16 on a disk that is full: the first row that needs a file ends the
    loop. *)
Lemma only_unguarded_failures_escape_witness :
  exists s',
    sample_rows_loop SampleRun.no_temporary_file SampleRun.next_chunk
      SampleRun.print_line 108 SampleRun.urls SampleRun.invoices
      [0; 1; 2; 3]%nat SampleRun.env0
    = Some (Raise (LibraryError 28), s')
    /\ ((exists x x',
            SampleRun.no_temporary_file x = (Raise (LibraryError 28), x'))
        \/ exists line x x',
             outside_try line
             /\ SampleRun.print_line line x = (Raise (LibraryError 28), x')).
Proof.
  assert (Hrun : { s' | sample_rows_loop SampleRun.no_temporary_file
                          SampleRun.next_chunk SampleRun.print_line 108
                          SampleRun.urls SampleRun.invoices [0; 1; 2; 3]%nat
                          SampleRun.env0
                        = Some (Raise (LibraryError 28), s') }).
  { vm_compute. eexists. reflexivity. }
  destruct Hrun as [s' Hrun]. exists s'. split; [ exact Hrun | ].
  pose proof Hrun as Hw. apply only_unguarded_failures_escape in Hw.
  exact Hw.
Defined.


(** X18 on a column of blank cells. *)
Lemma blank_rows_make_no_request_witness :
  sample_rows_loop SampleRun.named_temporary_file SampleRun.next_chunk
    SampleRun.print_line 108 [""; "  "]%string SampleRun.invoices
    [0; 1; 2]%nat SampleRun.env0
  = Some (Ok tt, SampleRun.env0).
Proof.
  apply blank_rows_make_no_request.
  constructor; [ reflexivity | constructor; [ reflexivity | constructor ] ].
Defined.

(** X19 on a row whose downloads fail. *)
Lemma temp_file_removed_witness :
  exists r s',
    sample_row_guarded 108 4 "https://example.com/b.pdf" "" "/tmp/in.pdf"
      (snd (call NamedTemporaryFile SampleRun.named_temporary_file
              SampleRun.env0))
    = Some (r, s')
    /\ (SampleRun.path_exists "/tmp/in.pdf" (ext s') = false
        \/ exists pre, calls s' = pre ++ [OsRemove "/tmp/in.pdf"]).
Proof.
  assert (Hrun : { rs | sample_row_guarded 108 4 "https://example.com/b.pdf"
                          "" "/tmp/in.pdf"
                          (snd (call NamedTemporaryFile
                                  SampleRun.named_temporary_file
                                  SampleRun.env0))
                        = Some rs }).
  { vm_compute. eexists. reflexivity. }
  destruct Hrun as [[r s'] Hrun]. exists r, s'. split; [ exact Hrun | ].
  pose proof Hrun as Hw. apply temp_file_removed in Hw. exact Hw.
Defined.

(** X20 on the Drive link of row 4: Drive refuses, the warning is printed,
    the web is asked. *)
Lemma download_falls_back_to_http_witness :
  exists r s',
    sample_download SampleRun.next_chunk SampleRun.print_line 108
      "https://drive.google.com/file/d/1AbC_dEf-GhI234/view" "/tmp/in.pdf"
      SampleRun.env0
    = Some (r, s')
    /\ exists new,
         calls s' = calls SampleRun.env0 ++ new
         /\ List.length new = 3%nat
         /\ forall e,
              r = Raise e ->
              (exists x x',
                  SampleRun.http_download
                    "https://drive.google.com/file/d/1AbC_dEf-GhI234/view"
                    "/tmp/in.pdf" x = (Raise e, x'))
              \/ exists e0 x x',
                   SampleRun.print_line (FallbackWarning e0) x
                   = (Raise e, x').
Proof.
  assert (Hrun : { rs | sample_download SampleRun.next_chunk
                          SampleRun.print_line 108
                          "https://drive.google.com/file/d/1AbC_dEf-GhI234/view"
                          "/tmp/in.pdf" SampleRun.env0
                        = Some rs
                        /\ List.length (calls (snd rs)) = 3%nat }).
  { vm_compute. eexists. split; reflexivity. }
  destruct Hrun as [[r s'] [Hrun Hlen]]. exists r, s'.
  split; [ exact Hrun | ].
  pose proof Hrun as Hw. apply download_falls_back_to_http in Hw.
  destruct Hw as (new & Hc & _ & He).
  exists new. split; [ exact Hc | split; [ | exact He ] ].
  cbn [snd] in Hlen. rewrite Hc in Hlen. exact Hlen.
Defined.

(** X21 on the URL column. *)
Lemma read_column_trimmed_witness :
  exists texts s',
    read_column SampleRun.Ext "S" 10 SampleRun.values_get 2 COL_URL 2
      SampleRun.env0
    = Some (Ok texts, s')
    /\ Forall (fun u => Str.strip u = u) texts
    /\ List.length texts = 4%nat.
Proof.
  assert (Hrun : { texts & { s' | read_column SampleRun.Ext "S" 10
                                     SampleRun.values_get 2 COL_URL 2
                                     SampleRun.env0
                                   = Some (Ok texts, s')
                                   /\ List.length texts = 4%nat } }).
  { vm_compute. eexists. eexists. split; reflexivity. }
  destruct Hrun as [texts [s' [Hrun Hlen]]]. exists texts, s'.
  split; [ exact Hrun | split; [ | exact Hlen ] ].
  pose proof Hrun as Hw. apply read_column_trimmed in Hw. exact (proj1 Hw).
Defined.

(** X22 on the cell L5, named once with two units of fuel and once with
    seven. *)
Lemma cell_range_injective_witness :
  cell_range "S" 2 COL_OUTPUT 5 = Some "S!L5"%string
  /\ cell_range "S" 7 12 5 = Some "S!L5"%string
  /\ COL_OUTPUT = 12 /\ 5 = 5.
Proof.
  assert (H1 : cell_range "S" 2 COL_OUTPUT 5 = Some "S!L5"%string)
    by reflexivity.
  assert (H2 : cell_range "S" 7 12 5 = Some "S!L5"%string) by reflexivity.
  split; [ exact H1 | split; [ exact H2 | ] ].
  apply (cell_range_injective "S" 2 7 COL_OUTPUT 5 12 5 "S!L5");
    [ discriminate | discriminate | exact H1 | exact H2 ].
Defined.


(** X26 on the four rows, with every output cell filled. *)
Lemma processed_rows_are_left_alone_witness :
  exists s' new,
    rows_loop SampleRun.Ext Sample.Document Sample.Page SampleRun.fitz_open
      Sample.page_count Sample.load_page Sample.get_image
      Sample.pillow_raises Sample.save_pdf Sample.loose_config "S" "folder"
      2 SampleRun.filled_values_get SampleRun.values_update
      SampleRun.named_temporary_file SampleRun.get_media SampleRun.file_open
      SampleRun.media_io_base_download SampleRun.next_chunk
      SampleRun.file_close SampleRun.getsize
      SampleRun.http_download SampleRun.upload_pdf_bytes_to_drive
      SampleRun.permissions_create SampleRun.path_exists SampleRun.os_remove
      SampleRun.print_line SampleRun.time_now SampleRun.str_exn 108
      SampleRun.urls SampleRun.invoices [0; 1; 2; 3]%nat SampleRun.env0
    = Some (Ok tt, s')
    /\ calls s' = calls SampleRun.env0 ++ new
    /\ Forall (fun c => exists row, c = ValuesGet (cell "S" "L" row)) new.
Proof.
  apply processed_rows_are_left_alone.
  - apply (Nat.leb_le 2 108). reflexivity.
  - intros rng x. eexists _, _, _, _, _. reflexivity.
Defined.
